(** * Storage fee manager: a shallow embedding of [storage_fee_manager.py]

    The development follows the Python module top to bottom: the fee
    schedule [STORAGE_UNITS], the records [File] and [MonthlyStats], the
    [StorageManager] object and its methods, and finally the command
    dispatcher.  Python dictionaries are finite maps ([gmap]); the two
    [defaultdict]s are modelled with their insert-on-read behaviour, because
    several properties below depend on which keys a call materialises.

    Numbers.  Sizes and fees are Python [int]s, here [Z].  Fee rates are
    [Decimal]s, here rationals [Q].  The source converts KB to MB with
    [math.ceil(kb / 1000)], a true division into a binary64 float followed
    by a ceiling.  [kb_to_mb_float] is that computation: the quotient
    rounded to the nearest float, [OverflowError] when it does not fit.
    [kb_to_mb], which the methods below use, is the exact ceiling of the
    quotient.  The two agree on every positive size up to [MAX_EXACT_KB],
    that is [2^44 * 1000] KB ([kb_to_mb_float_exact]); one KB above, the
    float division already loses the fraction
    ([kb_to_mb_float_first_gap]), and from about [1.8e311] KB on it raises
    ([kb_to_mb_float_overflow]).  Products [Decimal(mb) * rate] and their
    sums have at most 18 digits for such sizes and are exact under the
    default 28-digit decimal context; f-strings of such numbers never reach
    the 4300-digit limit of [int] to [str] conversion.

    So the methods below are the source on every manager and command whose
    sizes stay within [MAX_EXACT_KB] ([month_in_range],
    [command_in_range]); outside that range the source may round
    differently or raise where the model answers.  Every theorem that says
    which answer a handler gives or what a fee amounts to carries the range
    as a hypothesis; theorems about the state a call leaves, or relating
    two results of the same computation, hold without it. *)

From Stdlib Require Import ZArith QArith Qround Qminmax Lia Lqa Ascii.
From stdpp Require Import gmap strings list fin_maps pretty.

#[local] Open Scope Z_scope.

(** ** Fee schedule *)

Record StorageUnit := mkStorageUnit {
  unit_type : string;
  store_fee_per_mb : Q;
  update_fee_per_mb : Q;
  is_free_plan_allowed : bool
}.

(** [STORAGE_UNITS] is a dict literal; its iteration order is the order of
    the literal, so it is kept as an association list. *)
Definition STORAGE_UNITS : list (string * StorageUnit) :=
  [ ("storage_A1", mkStorageUnit "A" (1 # 100) (5 # 10000) true);
    ("storage_A2", mkStorageUnit "A" (1 # 1000) (1 # 100) true);
    ("storage_B1", mkStorageUnit "B" (1 # 100) (1 # 1000) false);
    ("storage_B2", mkStorageUnit "B" (1 # 10000) (1 # 2) false) ].

(** [STORAGE_UNITS[name]] and [name in STORAGE_UNITS]. *)
Fixpoint units_lookup (units : list (string * StorageUnit)) (s_name : string)
  : option StorageUnit :=
  match units with
  | [] => None
  | (k, u) :: rest => if decide (k = s_name) then Some u else units_lookup rest s_name
  end.

(** ** Files and monthly statistics *)

Record File := mkFile {
  File_name : string;
  File_size : Z;
  File_storage : string
}.

Record MonthlyStats := mkMonthlyStats {
  max_size : Z;
  update_kb_sum : Z
}.

(** [MonthlyStats()], the default factory of the inner [defaultdict]. *)
Definition MonthlyStats0 : MonthlyStats := mkMonthlyStats 0 0.

#[global] Instance File_eq_dec : EqDecision File.
Proof. solve_decision. Defined.

#[global] Instance MonthlyStats_eq_dec : EqDecision MonthlyStats.
Proof. solve_decision. Defined.

(** ** Timestamps and month keys

    Of a [datetime] only the calendar date matters to the manager: both key
    functions discard the time of day.  Python guarantees
    [1 <= year <= 9999] and [1 <= month <= 12]. *)

Record datetime := mkDatetime {
  year : nat;
  month : nat;
  day : nat
}.

(** [f"{m:02d}"] for a non-negative [m]. *)
Definition fmt_02d (m : nat) : string :=
  if (m <? 10)%nat then "0" +:+ pretty m else pretty m.

Definition month_key_of (y m : nat) : string :=
  pretty y +:+ "-" +:+ fmt_02d m.

Definition _get_month_key (timestamp : datetime) : string :=
  month_key_of (year timestamp) (month timestamp).

(** The first of the month minus one day is the last day of the previous
    month.  For January of year 1 the subtraction leaves the range of
    [datetime] and Python raises [OverflowError]: [None]. *)
Definition _get_previous_month_key (timestamp : datetime) : option string :=
  if (month timestamp =? 1)%nat then
    if (year timestamp <=? 1)%nat then None
    else Some (month_key_of (year timestamp - 1) 12)
  else Some (month_key_of (year timestamp) (month timestamp - 1)).

(** ** Fee arithmetic *)

Definition KB_TO_MB_DIVISOR : Z := 1000.

(** [math.ceil(kb / self.KB_TO_MB_DIVISOR)] *)
Definition kb_to_mb (kb : Z) : Z := - ((- kb) / KB_TO_MB_DIVISOR).

(** [Decimal(mb) * rate] *)
Definition fee_dec (mb : Z) (rate : Q) : Q := (inject_Z mb * rate)%Q.

(** *** The float division behind [kb_to_mb]

    [kb / 1000] on two [int]s is Python's true division: the binary64
    number nearest to the exact quotient, ties to the even mantissa, and
    [OverflowError] when that number would be [2^1024] or more.  The methods
    divide positive sizes only, so the quotient is at least [0.001] and
    never subnormal.  [math.ceil] of a float is exact. *)

(** [n / d] rounded to the nearest integer, ties to even, for [0 < d]. *)
Definition round_half_even (n d : Z) : Z :=
  let q := n / d in
  let r := n mod d in
  if 2 * r <? d then q
  else if d <? 2 * r then q + 1
  else if Z.even q then q else q + 1.

(** [kb * 2^k / 1000] as a fraction, for a shift [k] of either sign. *)
Definition scale2 (kb k : Z) : Z * Z :=
  if 0 <=? k then (kb * 2 ^ k, KB_TO_MB_DIVISOR)
  else (kb, KB_TO_MB_DIVISOR * 2 ^ (- k)).

(** The binary exponent [e] of the quotient, [2^e <= kb / 1000 < 2^(e+1)]:
    [1000] has exponent 9, so [e] is the difference of the exponents or one
    less. *)
Definition quotient_exponent (kb : Z) : Z :=
  let e0 := Z.log2 kb - 9 in
  let '(n, d) := scale2 kb (- e0) in
  if d <=? n then e0 else e0 - 1.

(** The number [m * 2^e]. *)
Definition float_of (m e : Z) : Q :=
  if 0 <=? e then inject_Z (m * 2 ^ e) else m # Z.to_pos (2 ^ (- e)).

(** [kb / self.KB_TO_MB_DIVISOR] for [0 < kb]: a 53-bit mantissa [m] with
    [2^52 <= m <= 2^53], scaled back; [None] is [OverflowError]. *)
Definition truediv_kb (kb : Z) : option Q :=
  let e := quotient_exponent kb in
  let '(n, d) := scale2 kb (52 - e) in
  let m := round_half_even n d in
  if (1024 <=? e) || ((e =? 1023) && (m =? 2 ^ 53)) then None
  else Some (float_of m (e - 52)).

(** [math.ceil(kb / self.KB_TO_MB_DIVISOR)] as the source computes it. *)
Definition kb_to_mb_float (kb : Z) : option Z := Qceiling <$> truediv_kb kb.

(** The largest size up to which [kb_to_mb_float] is the exact ceiling:
    [2^44 * 1000] KB. *)
Definition MAX_EXACT_KB : Z := 17592186044416000.

Record Fees := mkFees {
  storage_fee : Z;
  update_fee : Z;
  usage_fee : Z
}.

#[global] Instance Fees_eq_dec : EqDecision Fees.
Proof. solve_decision. Defined.

(** ** The manager object *)

Record StorageManager := mkStorageManager {
  is_free_plan : bool;
  files : gmap string File;
  current_storage_size : gmap string Z;
  monthly_stats : gmap string (gmap string MonthlyStats);
  calc_reported_sizes_snapshot : gmap string (gmap string Z);
  update_fee_settled_for_month : gset string;
  last_month_eom_storage_sizes : gmap string Z
}.

(** [StorageManager(is_free_plan)] *)
Definition new_manager (free : bool) : StorageManager :=
  mkStorageManager free ∅ ∅ ∅ ∅ ∅ ∅.

Definition with_files (s : StorageManager) (f : gmap string File) :=
  mkStorageManager (is_free_plan s) f (current_storage_size s) (monthly_stats s)
    (calc_reported_sizes_snapshot s) (update_fee_settled_for_month s)
    (last_month_eom_storage_sizes s).

Definition with_current_storage_size (s : StorageManager) (c : gmap string Z) :=
  mkStorageManager (is_free_plan s) (files s) c (monthly_stats s)
    (calc_reported_sizes_snapshot s) (update_fee_settled_for_month s)
    (last_month_eom_storage_sizes s).

Definition with_monthly_stats (s : StorageManager)
    (ms : gmap string (gmap string MonthlyStats)) :=
  mkStorageManager (is_free_plan s) (files s) (current_storage_size s) ms
    (calc_reported_sizes_snapshot s) (update_fee_settled_for_month s)
    (last_month_eom_storage_sizes s).

Definition with_snapshot (s : StorageManager) (sn : gmap string (gmap string Z)) :=
  mkStorageManager (is_free_plan s) (files s) (current_storage_size s)
    (monthly_stats s) sn (update_fee_settled_for_month s)
    (last_month_eom_storage_sizes s).

Definition with_settled (s : StorageManager) (st : gset string) :=
  mkStorageManager (is_free_plan s) (files s) (current_storage_size s)
    (monthly_stats s) (calc_reported_sizes_snapshot s) st
    (last_month_eom_storage_sizes s).

Definition with_eom (s : StorageManager) (e : gmap string Z) :=
  mkStorageManager (is_free_plan s) (files s) (current_storage_size s)
    (monthly_stats s) (calc_reported_sizes_snapshot s)
    (update_fee_settled_for_month s) e.

(** [d.get(k, 0)] on a size table: reads without inserting. *)
Definition size_get (d : gmap string Z) (k : string) : Z := default 0 (d !! k).

(** [d[k]] on a [defaultdict(MonthlyStats)]: a missing key is inserted with
    the default value, and the (possibly extended) dict is returned with it. *)
Definition dd_get (md : gmap string MonthlyStats) (k : string)
  : gmap string MonthlyStats * MonthlyStats :=
  match md !! k with
  | Some st => (md, st)
  | None => (<[k := MonthlyStats0]> md, MonthlyStats0)
  end.

(** ** [_ensure_month_init] *)

(** The loop over [last_month_eom_storage_sizes.items()]: each seeded unit's
    entry is created by the [defaultdict] read and its [max_size] assigned. *)
Definition seed_month (eom : list (string * Z)) : gmap string MonthlyStats :=
  foldl (λ md '(s_name, eom_size),
           let '(md1, st) := dd_get md s_name in
           <[s_name := mkMonthlyStats eom_size (update_kb_sum st)]> md1)
        ∅ eom.

Definition _ensure_month_init (s : StorageManager) (month_key : string)
  : StorageManager :=
  match monthly_stats s !! month_key with
  | Some _ => s
  | None =>
    with_monthly_stats s
      (<[month_key := seed_month (map_to_list (last_month_eom_storage_sizes s))]>
         (monthly_stats s))
  end.

(** [self.monthly_stats[month_key]]: every use follows a call of
    [_ensure_month_init], so the key is present. *)
Definition month_data (s : StorageManager) (month_key : string)
  : gmap string MonthlyStats :=
  default ∅ (monthly_stats s !! month_key).

(** [self.monthly_stats[month_key][storage_name]], a [defaultdict] read. *)
Definition stats_get (s : StorageManager) (month_key storage_name : string)
  : StorageManager * MonthlyStats :=
  let '(md1, st) := dd_get (month_data s month_key) storage_name in
  (with_monthly_stats s (<[month_key := md1]> (monthly_stats s)), st).

(** Assignment to the fields of the [MonthlyStats] object held in the dict. *)
Definition stats_set (s : StorageManager) (month_key storage_name : string)
    (st : MonthlyStats) : StorageManager :=
  with_monthly_stats s
    (<[month_key := <[storage_name := st]> (month_data s month_key)]>
       (monthly_stats s)).

(** ** [_would_exceed_free_plan_limit] *)

Fixpoint sim_loop (units : list (string * StorageUnit))
    (op_storage_name : string)
    (op_potential_max_size_kb op_kb_for_current_op : Z)
    (md : gmap string MonthlyStats)
    (sim_total_integer_storage_fee sim_total_integer_update_fee : Z)
  : gmap string MonthlyStats * (Z * Z) :=
  match units with
  | [] => (md, (sim_total_integer_storage_fee, sim_total_integer_update_fee))
  | (s_name, s_unit) :: rest =>
    if negb (is_free_plan_allowed s_unit) then
      sim_loop rest op_storage_name op_potential_max_size_kb
        op_kb_for_current_op md
        sim_total_integer_storage_fee sim_total_integer_update_fee
    else
      let '(md1, s_stats) := dd_get md s_name in
      let current_s_max_size_kb_for_sim :=
        if decide (s_name = op_storage_name) then op_potential_max_size_kb
        else max_size s_stats in
      let current_s_update_kb_sum_for_sim :=
        if decide (s_name = op_storage_name)
        then update_kb_sum s_stats + op_kb_for_current_op
        else update_kb_sum s_stats in
      let storage_total :=
        if 0 <? current_s_max_size_kb_for_sim then
          sim_total_integer_storage_fee +
          Qceiling (fee_dec (kb_to_mb current_s_max_size_kb_for_sim)
                            (store_fee_per_mb s_unit))
        else sim_total_integer_storage_fee in
      let update_total :=
        if 0 <? current_s_update_kb_sum_for_sim then
          sim_total_integer_update_fee +
          Qceiling (fee_dec (kb_to_mb current_s_update_kb_sum_for_sim)
                            (update_fee_per_mb s_unit))
        else sim_total_integer_update_fee in
      sim_loop rest op_storage_name op_potential_max_size_kb
        op_kb_for_current_op md1 storage_total update_total
  end.

Definition _would_exceed_free_plan_limit (s : StorageManager)
    (month_key op_storage_name : string)
    (op_potential_max_size_kb op_kb_for_current_op : Z)
  : StorageManager * bool :=
  if negb (is_free_plan s) then (s, false)
  else
    let s1 := _ensure_month_init s month_key in
    let '(md, (sfee, ufee)) :=
      sim_loop STORAGE_UNITS op_storage_name op_potential_max_size_kb
        op_kb_for_current_op (month_data s1 month_key) 0 0 in
    (with_monthly_stats s1 (<[month_key := md]> (monthly_stats s1)),
     1000 <? sfee + ufee).

(** ** [_calculate_total_fees] *)

Record FeeAcc := mkFeeAcc {
  final_total_storage_fee : Z;
  final_total_update_fee : Z;
  total_storage_fee_dec_for_usage : Q;
  total_update_fee_dec_for_usage : Q
}.

Definition storages_to_check (free : bool) : list string :=
  (List.filter (λ p : string * StorageUnit,
      negb free || is_free_plan_allowed p.2) STORAGE_UNITS).*1.

(** One iteration of the loop over [storages_to_check], given the statistics
    object read from the month's dict; [settled] is
    [month_key in self.update_fee_settled_for_month]. *)
Definition calc_unit (settled : bool) (s_unit : StorageUnit)
    (s_stats : MonthlyStats) (a : FeeAcc) : FeeAcc :=
  let a1 :=
    if 0 <? max_size s_stats then
      let storage_fee_dec_item :=
        fee_dec (kb_to_mb (max_size s_stats)) (store_fee_per_mb s_unit) in
      mkFeeAcc (final_total_storage_fee a + Qceiling storage_fee_dec_item)
               (final_total_update_fee a)
               (total_storage_fee_dec_for_usage a + storage_fee_dec_item)%Q
               (total_update_fee_dec_for_usage a)
    else a in
  let current_s_update_kb_sum_for_calc :=
    if settled then 0 else update_kb_sum s_stats in
  let a2 :=
    if 0 <? current_s_update_kb_sum_for_calc then
      mkFeeAcc (final_total_storage_fee a1)
               (final_total_update_fee a1 +
                Qceiling (fee_dec (kb_to_mb current_s_update_kb_sum_for_calc)
                                  (update_fee_per_mb s_unit)))
               (total_storage_fee_dec_for_usage a1)
               (total_update_fee_dec_for_usage a1)
    else a1 in
  if settled then
    mkFeeAcc (final_total_storage_fee a2) (final_total_update_fee a2)
             (total_storage_fee_dec_for_usage a2)
             (total_update_fee_dec_for_usage a2 + 0)%Q
  else if 0 <? update_kb_sum s_stats then
    mkFeeAcc (final_total_storage_fee a2) (final_total_update_fee a2)
             (total_storage_fee_dec_for_usage a2)
             (total_update_fee_dec_for_usage a2 +
              fee_dec (kb_to_mb (update_kb_sum s_stats))
                      (update_fee_per_mb s_unit))%Q
  else a2.

Fixpoint calc_loop (names : list string) (settled : bool)
    (md : gmap string MonthlyStats) (a : FeeAcc)
  : gmap string MonthlyStats * FeeAcc :=
  match names with
  | [] => (md, a)
  | s_name :: rest =>
    match units_lookup STORAGE_UNITS s_name with
    | None => (md, a) (* KeyError; the names are keys of STORAGE_UNITS *)
    | Some s_unit =>
      let '(md1, s_stats) := dd_get md s_name in
      calc_loop rest settled md1 (calc_unit settled s_unit s_stats a)
    end
  end.

Definition usage_of (a : FeeAcc) : Z :=
  Qceiling (Qmax 0 (total_storage_fee_dec_for_usage a +
                    total_update_fee_dec_for_usage a - 1000)).

Definition _calculate_total_fees (s : StorageManager) (month_key : string)
  : StorageManager * Fees :=
  let s1 := _ensure_month_init s month_key in
  let settled := bool_decide (month_key ∈ update_fee_settled_for_month s1) in
  let '(md, a) :=
    calc_loop (storages_to_check (is_free_plan s1)) settled
      (month_data s1 month_key) (mkFeeAcc 0 0 0 0) in
  (with_monthly_stats s1 (<[month_key := md]> (monthly_stats s1)),
   mkFees (final_total_storage_fee a) (final_total_update_fee a) (usage_of a)).

(** ** Responses

    Every handler returns a string: a fixed literal for a rejection, an
    f-string over the three fees otherwise.  The model returns the
    structured value and [render] produces the string. *)

Inductive OpName := UPLOAD | DELETE | UPDATE.

Inductive Rejection :=
| FileAlreadyExists
| InvalidStorageName
| NotOnFreePlan
| FileDoesNotExist
| FileNotInStorage
| FreePlanLimitExceeded.

Inductive Response :=
| Accepted (op : OpName) (fees : Fees)
| Rejected (op : OpName) (why : Rejection)
| CalcReport (kb_a1 kb_a2 kb_b1 kb_b2 : Z) (fees : Fees)
| RaisedOverflowError.

Definition op_text (op : OpName) : string :=
  match op with UPLOAD => "UPLOAD" | DELETE => "DELETE" | UPDATE => "UPDATE" end.

Definition rejection_text (why : Rejection) : string :=
  match why with
  | FileAlreadyExists => "file already exists"
  | InvalidStorageName => "invalid storage name"
  | NotOnFreePlan => "this storage location is not available on the free plan"
  | FileDoesNotExist => "file does not exist"
  | FileNotInStorage => "file is not in the specified storage"
  | FreePlanLimitExceeded => "free plan fee limit exceeded"
  end.

Definition fees_text (f : Fees) : string :=
  pretty (storage_fee f) +:+ " " +:+ pretty (update_fee f) +:+ " " +:+
  pretty (usage_fee f).

(** The returned string; an exception returns none. *)
Definition render (r : Response) : option string :=
  match r with
  | Accepted op fees => Some (op_text op +:+ ": " +:+ fees_text fees)
  | Rejected op why => Some (op_text op +:+ ": " +:+ rejection_text why)
  | CalcReport a1 a2 b1 b2 fees =>
    Some ("CALC: [" +:+ pretty a1 +:+ " " +:+ pretty a2 +:+ " " +:+
          pretty b1 +:+ " " +:+ pretty b2 +:+ "] " +:+ fees_text fees)
  | RaisedOverflowError => None
  end.

(** ** [handle_upload] *)

(** The block under "Check free plan limits". *)
Definition upload_check_limit (s : StorageManager)
    (month_key storage_name : string) (size : Z) : StorageManager * bool :=
  if is_free_plan s then
    let '(s1, current_stats_for_op_storage) :=
      stats_get s month_key storage_name in
    let simulated_current_total_size_for_op_storage :=
      size_get (current_storage_size s1) storage_name + size in
    let potential_max_size_kb :=
      Z.max (max_size current_stats_for_op_storage)
            simulated_current_total_size_for_op_storage in
    _would_exceed_free_plan_limit s1 month_key storage_name
      potential_max_size_kb size
  else (s, false).

(** The block under "Perform upload and update statistics". *)
Definition upload_perform (s : StorageManager)
    (month_key storage_name file_name : string) (size : Z) : StorageManager :=
  let s1 :=
    with_files s (<[file_name := mkFile file_name size storage_name]> (files s)) in
  let s2 :=
    with_current_storage_size s1
      (<[storage_name := size_get (current_storage_size s1) storage_name + size]>
         (current_storage_size s1)) in
  let '(s3, stats_to_update) := stats_get s2 month_key storage_name in
  let new_max :=
    Z.max (max_size stats_to_update)
          (size_get (current_storage_size s3) storage_name) in
  stats_set s3 month_key storage_name
    (mkMonthlyStats new_max (update_kb_sum stats_to_update + size)).

Definition handle_upload (s : StorageManager) (timestamp : datetime)
    (storage_name file_name : string) (size : Z) : StorageManager * Response :=
  if decide (is_Some (files s !! file_name)) then
    (s, Rejected UPLOAD FileAlreadyExists)
  else
    match units_lookup STORAGE_UNITS storage_name with
    | None => (s, Rejected UPLOAD InvalidStorageName)
    | Some unit =>
      if is_free_plan s && negb (is_free_plan_allowed unit) then
        (s, Rejected UPLOAD NotOnFreePlan)
      else
        let month_key := _get_month_key timestamp in
        let s1 := _ensure_month_init s month_key in
        let '(s2, exceeded) :=
          upload_check_limit s1 month_key storage_name size in
        if exceeded then (s2, Rejected UPLOAD FreePlanLimitExceeded)
        else
          let s3 := upload_perform s2 month_key storage_name file_name size in
          let '(s4, total_fees) := _calculate_total_fees s3 month_key in
          (s4, Accepted UPLOAD total_fees)
    end.

(** ** [handle_delete] *)

Definition delete_check_limit (s : StorageManager)
    (month_key storage_name : string) (deleted_file_size : Z)
  : StorageManager * bool :=
  if is_free_plan s then
    let '(s1, current_stats_for_op_storage) :=
      stats_get s month_key storage_name in
    let potential_max_size_kb := max_size current_stats_for_op_storage in
    _would_exceed_free_plan_limit s1 month_key storage_name
      potential_max_size_kb deleted_file_size
  else (s, false).

Definition delete_perform (s : StorageManager)
    (month_key storage_name file_name : string) (file : File) : StorageManager :=
  let deleted_file_size := File_size file in
  let s1 :=
    with_current_storage_size s
      (<[File_storage file :=
           size_get (current_storage_size s) (File_storage file)
           - deleted_file_size]> (current_storage_size s)) in
  let s2 := with_files s1 (delete file_name (files s1)) in
  let '(s3, stats_to_update) := stats_get s2 month_key storage_name in
  stats_set s3 month_key storage_name
    (mkMonthlyStats (max_size stats_to_update)
                    (update_kb_sum stats_to_update + deleted_file_size)).

Definition handle_delete (s : StorageManager) (timestamp : datetime)
    (storage_name file_name : string) : StorageManager * Response :=
  let month_key := _get_month_key timestamp in
  let s1 := _ensure_month_init s month_key in
  match units_lookup STORAGE_UNITS storage_name with
  | None => (s1, Rejected DELETE InvalidStorageName)
  | Some unit =>
    if is_free_plan s1 && negb (is_free_plan_allowed unit) then
      (s1, Rejected DELETE NotOnFreePlan)
    else
      match files s1 !! file_name with
      | None => (s1, Rejected DELETE FileDoesNotExist)
      | Some file =>
        if negb (bool_decide (File_storage file = storage_name)) then
          (s1, Rejected DELETE FileNotInStorage)
        else
          let '(s2, exceeded) :=
            delete_check_limit s1 month_key storage_name (File_size file) in
          if exceeded then (s2, Rejected DELETE FreePlanLimitExceeded)
          else
            let s3 := delete_perform s2 month_key storage_name file_name file in
            let '(s4, total_fees) := _calculate_total_fees s3 month_key in
            (s4, Accepted DELETE total_fees)
      end
  end.

(** ** [handle_update] *)

Definition update_check_limit (s : StorageManager)
    (month_key storage_name : string)
    (original_size_of_file_being_updated new_size : Z)
  : StorageManager * bool :=
  if is_free_plan s then
    let '(s1, current_stats_for_op_storage) :=
      stats_get s month_key storage_name in
    let simulated_current_total_size_for_op_storage :=
      size_get (current_storage_size s1) storage_name
      + (new_size - original_size_of_file_being_updated) in
    let potential_max_size_kb :=
      Z.max (max_size current_stats_for_op_storage)
            simulated_current_total_size_for_op_storage in
    _would_exceed_free_plan_limit s1 month_key storage_name
      potential_max_size_kb (original_size_of_file_being_updated + new_size)
  else (s, false).

Definition update_perform (s : StorageManager)
    (month_key storage_name file_name : string) (file : File) (new_size : Z)
  : StorageManager :=
  let original_size_of_file_being_updated := File_size file in
  let s1 :=
    with_current_storage_size s
      (<[storage_name :=
           size_get (current_storage_size s) storage_name
           + (new_size - original_size_of_file_being_updated)]>
         (current_storage_size s)) in
  let '(s2, stats_to_update) := stats_get s1 month_key storage_name in
  let new_max :=
    Z.max (max_size stats_to_update)
          (size_get (current_storage_size s2) storage_name) in
  let s3 :=
    stats_set s2 month_key storage_name
      (mkMonthlyStats new_max
         (update_kb_sum stats_to_update
          + (original_size_of_file_being_updated + new_size))) in
  with_files s3
    (<[file_name := mkFile (File_name file) new_size (File_storage file)]>
       (files s3)).

Definition handle_update (s : StorageManager) (timestamp : datetime)
    (storage_name file_name : string) (new_size : Z)
  : StorageManager * Response :=
  let month_key := _get_month_key timestamp in
  let s1 := _ensure_month_init s month_key in
  match units_lookup STORAGE_UNITS storage_name with
  | None => (s1, Rejected UPDATE InvalidStorageName)
  | Some unit =>
    if is_free_plan s1 && negb (is_free_plan_allowed unit) then
      (s1, Rejected UPDATE NotOnFreePlan)
    else
      match files s1 !! file_name with
      | None => (s1, Rejected UPDATE FileDoesNotExist)
      | Some file =>
        if negb (bool_decide (File_storage file = storage_name)) then
          (s1, Rejected UPDATE FileNotInStorage)
        else
          let '(s2, exceeded) :=
            update_check_limit s1 month_key storage_name (File_size file)
              new_size in
          if exceeded then (s2, Rejected UPDATE FreePlanLimitExceeded)
          else
            let s3 :=
              update_perform s2 month_key storage_name file_name file new_size in
            let '(s4, total_fees) := _calculate_total_fees s3 month_key in
            (s4, Accepted UPDATE total_fees)
      end
  end.

(** ** [handle_calc] *)

(** The snapshot loop over [STORAGE_UNITS.keys()]: the same occupancy goes
    into the month's snapshot and into the end-of-month table. *)
Definition take_snapshot (occupancy : gmap string Z) (eom : gmap string Z)
  : gmap string Z * gmap string Z :=
  foldl (λ '(current_snapshot, eom1) s_name,
           (<[s_name := size_get occupancy s_name]> current_snapshot,
            <[s_name := size_get occupancy s_name]> eom1))
        (∅, eom) (STORAGE_UNITS.*1).

Definition handle_calc (s : StorageManager) (timestamp : datetime)
  : StorageManager * Response :=
  match _get_previous_month_key timestamp with
  | None => (s, RaisedOverflowError)
  | Some month_key =>
    let '(s1, total_fees) := _calculate_total_fees s month_key in
    let s2 :=
      match calc_reported_sizes_snapshot s1 !! month_key with
      | Some _ => s1
      | None =>
        let '(current_snapshot, eom) :=
          take_snapshot (current_storage_size s1)
                        (last_month_eom_storage_sizes s1) in
        with_snapshot (with_eom s1 eom)
          (<[month_key := current_snapshot]> (calc_reported_sizes_snapshot s1))
      end in
    let reported_sizes :=
      default ∅ (calc_reported_sizes_snapshot s2 !! month_key) in
    let report_kb_a1 := size_get reported_sizes "storage_A1" in
    let report_kb_a2 := size_get reported_sizes "storage_A2" in
    let report_kb_b1 := size_get reported_sizes "storage_B1" in
    let report_kb_b2 := size_get reported_sizes "storage_B2" in
    let s3 :=
      with_settled s2 ({[month_key]} ∪ update_fee_settled_for_month s2) in
    (s3, CalcReport report_kb_a1 report_kb_a2 report_kb_b1 report_kb_b2
           total_fees)
  end.

(** ** Commands

    [process_command] after parsing: the four well-formed command shapes. *)

Inductive Command :=
| Upload (timestamp : datetime) (storage_name file_name : string) (size : Z)
| Delete (timestamp : datetime) (storage_name file_name : string)
| Update (timestamp : datetime) (storage_name file_name : string) (new_size : Z)
| Calc (timestamp : datetime).

Definition step (s : StorageManager) (c : Command) : StorageManager * Response :=
  match c with
  | Upload t u f n => handle_upload s t u f n
  | Delete t u f => handle_delete s t u f
  | Update t u f n => handle_update s t u f n
  | Calc t => handle_calc s t
  end.

(** The manager after a sequence of commands, and the responses along the
    way (the lines [main] prints). *)
Fixpoint run (s : StorageManager) (cs : list Command) : StorageManager :=
  match cs with
  | [] => s
  | c :: rest => run (step s c).1 rest
  end.

Fixpoint responses (s : StorageManager) (cs : list Command) : list Response :=
  match cs with
  | [] => []
  | c :: rest => (step s c).2 :: responses (step s c).1 rest
  end.

(** ** [process_command] and [main]

    The text functions the dispatcher calls belong to Python, not to this
    module, and are taken as given: [str.strip], [str.split], [str.upper],
    [datetime.fromisoformat] and [int], the last two answering [None] where
    Python raises [ValueError].  While sizes stay within [MAX_EXACT_KB] a
    handler raises neither [ValueError] nor [IndexError], so the [except]
    clause only ever catches what the dispatcher's own parsing raises; the
    [OverflowError] of [handle_calc] for January of year 1 is not caught and
    ends the program.  (With larger sizes the float division of a handler
    can raise [OverflowError], and the f-string of [handle_calc] raises
    [ValueError] for a number of more than 4300 digits, after the month has
    been closed: the manager then differs from the one given.) *)

Record TextLib := mkTextLib {
  str_strip : string → string;
  str_split : string → list string;
  str_upper : string → string;
  fromisoformat : string → option datetime;
  int_of_str : string → option Z
}.

Definition ERROR_EMPTY : string := "ERROR: empty command".

Definition ERROR_VALUE : string := "ERROR: invalid command format or value".

(** The manager after the call and the string returned; [None] when an
    exception leaves the function. *)
Definition process_command (lib : TextLib) (manager : StorageManager)
    (command : string) : StorageManager * option string :=
  let parts := str_split lib (str_strip lib command) in
  match parts with
  | [] => (manager, Some ERROR_EMPTY)
  | p0 :: _ =>
    match fromisoformat lib p0 with
    | None => (manager, Some ERROR_VALUE)
    | Some timestamp =>
      match parts !! 1%nat with
      | None => (manager, Some ERROR_VALUE) (* IndexError *)
      | Some p1 =>
        let cmd_type := str_upper lib p1 in
        if bool_decide (cmd_type = "UPLOAD") && (length parts =? 5)%nat then
          match parts !! 2%nat, parts !! 3%nat, parts !! 4%nat with
          | Some p2, Some p3, Some p4 =>
            match int_of_str lib p4 with
            | None => (manager, Some ERROR_VALUE)
            | Some size =>
              let '(m, r) := handle_upload manager timestamp p2 p3 size in
              (m, render r)
            end
          | _, _, _ => (manager, Some ERROR_VALUE)
          end
        else if bool_decide (cmd_type = "DELETE") && (length parts =? 4)%nat
        then
          match parts !! 2%nat, parts !! 3%nat with
          | Some p2, Some p3 =>
            let '(m, r) := handle_delete manager timestamp p2 p3 in
            (m, render r)
          | _, _ => (manager, Some ERROR_VALUE)
          end
        else if bool_decide (cmd_type = "UPDATE") && (length parts =? 5)%nat
        then
          match parts !! 2%nat, parts !! 3%nat, parts !! 4%nat with
          | Some p2, Some p3, Some p4 =>
            match int_of_str lib p4 with
            | None => (manager, Some ERROR_VALUE)
            | Some new_size =>
              let '(m, r) :=
                handle_update manager timestamp p2 p3 new_size in
              (m, render r)
            end
          | _, _, _ => (manager, Some ERROR_VALUE)
          end
        else if bool_decide (cmd_type = "CALC") && (length parts =? 2)%nat
        then
          let '(m, r) := handle_calc manager timestamp in (m, render r)
        else (manager, Some (cmd_type +:+ ": invalid command format"))
      end
    end
  end.

(** The loop of [main] over the lines of standard input: blank lines are
    skipped, every other line is processed and its answer printed.  The
    result is the manager, the lines printed, and whether the loop reached
    the end of the input ([false]: an exception ended the program). *)
Fixpoint main_loop (lib : TextLib) (manager : StorageManager)
    (lines : list string) (printed : list string)
  : StorageManager * list string * bool :=
  match lines with
  | [] => (manager, printed, true)
  | line :: rest =>
    if bool_decide (str_strip lib line = "") then
      main_loop lib manager rest printed
    else
      match process_command lib manager line with
      | (m, Some out) => main_loop lib m rest (printed ++ [out])
      | (m, None) => (m, printed, false)
      end
  end.

Definition main (lib : TextLib) (lines : list string)
  : StorageManager * list string * bool :=
  main_loop lib (new_manager true) lines [].

(** * Vocabulary for the properties

    [stat_view] is the value a [defaultdict] read of key [k] returns;
    [month_extends md md'] says that [md'] is [md] plus default entries.
    [month_view s mk] is the month dict a handler works on once
    [_ensure_month_init] has run: the stored one, or the freshly seeded one.
    [lazy_step mk s s'] relates a manager to the same manager after reads of
    month [mk]: nothing but [monthly_stats] differs, no other month differs,
    and month [mk] is either untouched or its view plus default entries. *)

Definition stat_view (md : gmap string MonthlyStats) (k : string) : MonthlyStats :=
  default MonthlyStats0 (md !! k).

Definition month_extends (md md' : gmap string MonthlyStats) : Prop :=
  ∀ k, md' !! k = md !! k ∨ (md !! k = None ∧ md' !! k = Some MonthlyStats0).

(** The month dict [_ensure_month_init] builds, as a map over the seed table. *)
Definition seeded (eom : gmap string Z) : gmap string MonthlyStats :=
  (λ e, mkMonthlyStats e 0) <$> eom.

Definition month_view (s : StorageManager) (mk : string) : gmap string MonthlyStats :=
  match monthly_stats s !! mk with
  | Some md => md
  | None => seeded (last_month_eom_storage_sizes s)
  end.

Definition same_but_stats (s s' : StorageManager) : Prop :=
  is_free_plan s' = is_free_plan s ∧
  files s' = files s ∧
  current_storage_size s' = current_storage_size s ∧
  calc_reported_sizes_snapshot s' = calc_reported_sizes_snapshot s ∧
  update_fee_settled_for_month s' = update_fee_settled_for_month s ∧
  last_month_eom_storage_sizes s' = last_month_eom_storage_sizes s.

Definition lazy_step (mk : string) (s s' : StorageManager) : Prop :=
  same_but_stats s s' ∧
  (∀ k, k ≠ mk → monthly_stats s' !! k = monthly_stats s !! k) ∧
  (monthly_stats s' !! mk = monthly_stats s !! mk ∨
   ∃ md', monthly_stats s' !! mk = Some md' ∧ month_extends (month_view s mk) md').

(** ** Fees in closed form

    What one unit contributes, as a function of its kilobytes, and the sums
    over the units a computation looks at. *)

Definition sumZ (l : list Z) : Z := foldr Z.add 0 l.

Definition sumQ (l : list Q) : Q := foldr Qplus 0%Q l.

Definition unit_storage_dec (u : StorageUnit) (kb : Z) : Q :=
  if 0 <? kb then fee_dec (kb_to_mb kb) (store_fee_per_mb u) else 0%Q.

Definition unit_update_dec (u : StorageUnit) (kb : Z) : Q :=
  if 0 <? kb then fee_dec (kb_to_mb kb) (update_fee_per_mb u) else 0%Q.

Definition unit_storage_fee (u : StorageUnit) (kb : Z) : Z :=
  if 0 <? kb then Qceiling (fee_dec (kb_to_mb kb) (store_fee_per_mb u)) else 0.

Definition unit_update_fee (u : StorageUnit) (kb : Z) : Z :=
  if 0 <? kb then Qceiling (fee_dec (kb_to_mb kb) (update_fee_per_mb u)) else 0.

(** The units a fee computation ranges over: all of them on a paid plan,
    the free-plan ones otherwise. *)
Definition checked_units (free : bool) : list (string * StorageUnit) :=
  List.filter (λ p : string * StorageUnit,
    negb free || is_free_plan_allowed p.2) STORAGE_UNITS.

(** The update traffic a fee computation charges: none once settled. *)
Definition charged_update_kb (settled : bool) (st : MonthlyStats) : Z :=
  if settled then 0 else update_kb_sum st.

(** The three fees from a month's view [v]: integer fees are sums of
    per-unit ceilings; the usage fee is one ceiling over the decimal sums. *)
Definition fees_of_view (free settled : bool) (v : string → MonthlyStats) : Fees :=
  let units := checked_units free in
  mkFees
    (sumZ (map (λ p : string * StorageUnit,
             unit_storage_fee p.2 (max_size (v p.1))) units))
    (sumZ (map (λ p : string * StorageUnit,
             unit_update_fee p.2 (charged_update_kb settled (v p.1))) units))
    (Qceiling (Qmax 0
       (sumQ (map (λ p : string * StorageUnit,
                unit_storage_dec p.2 (max_size (v p.1))) units)
        + sumQ (map (λ p : string * StorageUnit,
                unit_update_dec p.2 (charged_update_kb settled (v p.1))) units)
        - 1000))).

(** The simulated kilobytes of a unit in the limit check: the operation's
    unit takes the potential maximum and the added traffic. *)
Definition sim_max_kb (v : string → MonthlyStats) (op_storage_name : string)
    (op_potential_max_size_kb : Z) (s_name : string) : Z :=
  if decide (s_name = op_storage_name) then op_potential_max_size_kb
  else max_size (v s_name).

Definition sim_update_kb (v : string → MonthlyStats) (op_storage_name : string)
    (op_kb_for_current_op : Z) (s_name : string) : Z :=
  if decide (s_name = op_storage_name)
  then update_kb_sum (v s_name) + op_kb_for_current_op
  else update_kb_sum (v s_name).

(** The simulated total: integer storage fee plus integer update fee of
    every free-plan unit. *)
Definition sim_total (v : string → MonthlyStats) (op_storage_name : string)
    (op_potential_max_size_kb op_kb_for_current_op : Z) : Z :=
  sumZ (map (λ p : string * StorageUnit,
          unit_storage_fee p.2
            (sim_max_kb v op_storage_name op_potential_max_size_kb p.1)
          + unit_update_fee p.2
              (sim_update_kb v op_storage_name op_kb_for_current_op p.1))
        (checked_units true)).

(** ** Admission

    The outcome of the limit check of each handler, as a function of the
    manager the handler is called on. *)

Definition upload_limit_exceeded (s : StorageManager) (mk u : string)
    (size : Z) : bool :=
  let v := stat_view (month_view s mk) in
  is_free_plan s &&
  (1000 <? sim_total v u
     (Z.max (max_size (v u)) (size_get (current_storage_size s) u + size))
     size).

Definition delete_limit_exceeded (s : StorageManager) (mk u : string)
    (deleted_file_size : Z) : bool :=
  let v := stat_view (month_view s mk) in
  is_free_plan s &&
  (1000 <? sim_total v u (max_size (v u)) deleted_file_size).

Definition update_limit_exceeded (s : StorageManager) (mk u : string)
    (orig new_size : Z) : bool :=
  let v := stat_view (month_view s mk) in
  is_free_plan s &&
  (1000 <? sim_total v u
     (Z.max (max_size (v u))
            (size_get (current_storage_size s) u + (new_size - orig)))
     (orig + new_size)).

(** The static checks of delete and update pass: the unit is known and
    available on the plan, the file exists and lives in that unit. *)
Definition file_in_unit (s : StorageManager) (u f : string) (file : File) : Prop :=
  (∃ unit, units_lookup STORAGE_UNITS u = Some unit ∧
           (is_free_plan s = true → is_free_plan_allowed unit = true)) ∧
  files s !! f = Some file ∧ File_storage file = u.

(** The static checks of upload pass. *)
Definition upload_allowed (s : StorageManager) (u f : string) : Prop :=
  files s !! f = None ∧
  ∃ unit, units_lookup STORAGE_UNITS u = Some unit ∧
          (is_free_plan s = true → is_free_plan_allowed unit = true).

(** ** Commands and their months *)

(** The month an upload, delete or update works on; [None] for CALC. *)
Definition op_month_key (c : Command) : option string :=
  match c with
  | Upload t _ _ _ | Delete t _ _ | Update t _ _ _ => Some (_get_month_key t)
  | Calc _ => None
  end.

(** The commit of an accepted operation on unit [u] in month [mk]: one
    entry of the month's dict is assigned; the registry and the occupancy
    table change as the handler says, the remaining fields not at all. *)
Definition commit_step (mk u : string) (s s' : StorageManager) : Prop :=
  is_free_plan s' = is_free_plan s ∧
  calc_reported_sizes_snapshot s' = calc_reported_sizes_snapshot s ∧
  update_fee_settled_for_month s' = update_fee_settled_for_month s ∧
  last_month_eom_storage_sizes s' = last_month_eom_storage_sizes s ∧
  ∃ md st', monthly_stats s !! mk = Some md ∧
            monthly_stats s' = <[mk := <[u := st']> md]> (monthly_stats s).

(** [monthly_stats[mk][u]] without inserting anything. *)
Definition stats_lookup (s : StorageManager) (mk u : string) : option MonthlyStats :=
  monthly_stats s !! mk ≫= (λ md, md !! u).

(** ** Month close *)

(** The snapshot month close reports for [mk]: the stored one, or the
    occupancy captured now. *)
Definition snapshot_for (s : StorageManager) (mk : string) : gmap string Z :=
  match calc_reported_sizes_snapshot s !! mk with
  | Some sn => sn
  | None =>
    (take_snapshot (current_storage_size s) (last_month_eom_storage_sizes s)).1
  end.

(** The seed table after month close for [mk]. *)
Definition eom_after_calc (s : StorageManager) (mk : string) : gmap string Z :=
  match calc_reported_sizes_snapshot s !! mk with
  | Some _ => last_month_eom_storage_sizes s
  | None =>
    (take_snapshot (current_storage_size s) (last_month_eom_storage_sizes s)).2
  end.

(** ** Readings of the specification used for comparison *)

(** The usage fee if it were taken from the per-unit rounded fees: the
    excess over 1000 of the integer storage fee plus the integer update
    fee. *)
Definition usage_fee_from_unit_ceilings (f : Fees) : Z :=
  Z.max 0 (storage_fee f + update_fee f - 1000).

(** ** Timestamps of the examples *)

Definition jan5 : datetime := mkDatetime 2024 1 5.
Definition jan20 : datetime := mkDatetime 2024 1 20.
Definition feb1 : datetime := mkDatetime 2024 2 1.
Definition feb3 : datetime := mkDatetime 2024 2 3.
Definition apr2 : datetime := mkDatetime 2024 4 2.

(** ** Accepted operations *)

(** What an accepted operation on unit [u] in month [mk] does to the
    statistics: the entry of [(mk, u)] becomes [g] of what a read of it
    returned before; every other entry that existed is as it was. *)
Definition stats_updated (mk u : string) (g : MonthlyStats → MonthlyStats)
    (s s' : StorageManager) : Prop :=
  stats_lookup s' mk u = Some (g (stat_view (month_view s mk) u)) ∧
  ∀ mk' u' st, (mk', u') ≠ (mk, u) →
    stats_lookup s mk' u' = Some st → stats_lookup s' mk' u' = Some st.

(** A step that commits no operation: a rejection, a month close, or a
    month close that raises.  Registry and occupancy are as before and the
    statistics went through a lazy step at most. *)
Definition quiet_step (s s' : StorageManager) : Prop :=
  ∃ mk s1, lazy_step mk s s1 ∧
    files s' = files s ∧
    current_storage_size s' = current_storage_size s ∧
    monthly_stats s' = monthly_stats s1.

(** ** Sizes *)

(** The sum of the sizes of the files registered to unit [u]. *)
Definition unit_files_total (fs : gmap string File) (u : string) : Z :=
  map_fold (λ _ (file : File) acc,
              if decide (File_storage file = u) then acc + File_size file
              else acc) 0 fs.

(** The size argument of an upload or update is not negative. *)
Definition nonneg_command (c : Command) : Prop :=
  match c with
  | Upload _ _ _ n | Update _ _ _ n => 0 ≤ n
  | Delete _ _ _ | Calc _ => True
  end.

Definition files_nonneg (s : StorageManager) : Prop :=
  ∀ f file, files s !! f = Some file → 0 ≤ File_size file.

(** What one file adds to the total of unit [u]. *)
Definition file_contrib (u : string) (file : File) : Z :=
  if decide (File_storage file = u) then File_size file else 0.

(** The occupancy table agrees with the registry on every unit. *)
Definition conserved (s : StorageManager) : Prop :=
  ∀ u, size_get (current_storage_size s) u = unit_files_total (files s) u.

(** ** The registry *)

(** Every registered file is keyed by its own name and lives in a
    configured unit, a free-plan one when the manager is on the free plan. *)
Definition registry_ok (s : StorageManager) : Prop :=
  ∀ f file, files s !! f = Some file →
    File_name file = f ∧
    ∃ unit, units_lookup STORAGE_UNITS (File_storage file) = Some unit ∧
            (is_free_plan s = true → is_free_plan_allowed unit = true).

(** [u] names a unit the plan of [s] may use. *)
Definition usable_unit (s : StorageManager) (u : string) : Prop :=
  ∃ unit, units_lookup STORAGE_UNITS u = Some unit ∧
          (is_free_plan s = true → is_free_plan_allowed unit = true).

(** ** The statistics an accepted operation leaves *)

(** The view [v] with the entry of unit [u] replaced by [st]. *)
Definition view_with (v : string → MonthlyStats) (u : string)
    (st : MonthlyStats) : string → MonthlyStats :=
  λ k, if decide (k = u) then st else v k.

(** The entry of the operation's unit after an accepted upload of [n] KB,
    an accepted delete of a file of [size] KB, and an accepted update from
    [orig] to [n] KB. *)
Definition upload_entry (s : StorageManager) (mk u : string) (n : Z)
  : MonthlyStats :=
  let st := stat_view (month_view s mk) u in
  mkMonthlyStats
    (Z.max (max_size st) (size_get (current_storage_size s) u + n))
    (update_kb_sum st + n).

Definition delete_entry (s : StorageManager) (mk u : string) (size : Z)
  : MonthlyStats :=
  let st := stat_view (month_view s mk) u in
  mkMonthlyStats (max_size st) (update_kb_sum st + size).

Definition update_entry (s : StorageManager) (mk u : string) (orig n : Z)
  : MonthlyStats :=
  let st := stat_view (month_view s mk) u in
  mkMonthlyStats
    (Z.max (max_size st) (size_get (current_storage_size s) u + (n - orig)))
    (update_kb_sum st + (orig + n)).

(** ** Strings of digits *)

(** No character of [s] is a dash. *)
Fixpoint no_dash (s : string) : Prop :=
  match s with
  | EmptyString => True
  | String c rest => c ≠ "-"%char ∧ no_dash rest
  end.

(** The timestamp a command carries. *)
Definition command_timestamp (c : Command) : datetime :=
  match c with
  | Upload t _ _ _ | Delete t _ _ | Update t _ _ _ | Calc t => t
  end.

(** ** Text functions of the examples

    The text functions on the strings the examples use, as a table. *)
Definition example_lib : TextLib :=
  mkTextLib
    (λ s, s)
    (λ s, if bool_decide (s = "2024-01-05 upload storage_A1 f1 500")
          then ["2024-01-05"; "upload"; "storage_A1"; "f1"; "500"]
          else if bool_decide (s = "2024-02-01 CALC")
          then ["2024-02-01"; "CALC"]
          else if bool_decide (s = "2024-02-01 MOVE f1")
          then ["2024-02-01"; "MOVE"; "f1"]
          else [])
    (λ s, if bool_decide (s = "upload") then "UPLOAD" else s)
    (λ s, if bool_decide (s = "2024-01-05") then Some jan5
          else if bool_decide (s = "2024-02-01") then Some feb1
          else None)
    (λ s, if bool_decide (s = "500") then Some 500 else None).

(** ** The range of exact arithmetic

    [kb_in_range]: a size the float division converts exactly and an
    f-string prints.  A fee computation or limit check for a month reads
    the entries of the configured units in that month ([month_in_range]);
    an operation also feeds the entry it is about to write.  Month close
    prints the occupancy of the four units. *)

Definition kb_in_range (kb : Z) : Prop := - MAX_EXACT_KB ≤ kb ≤ MAX_EXACT_KB.

Definition stats_in_range (st : MonthlyStats) : Prop :=
  kb_in_range (max_size st) ∧ kb_in_range (update_kb_sum st).

Definition month_in_range (s : StorageManager) (mk : string) : Prop :=
  Forall (λ p : string * StorageUnit,
            stats_in_range (stat_view (month_view s mk) p.1)) STORAGE_UNITS.

Definition occupancy_in_range (s : StorageManager) : Prop :=
  Forall (λ p : string * StorageUnit,
            kb_in_range (size_get (current_storage_size s) p.1)) STORAGE_UNITS.

(** The simulated sizes of a limit check are in range. *)
Definition sim_in_range (v : string → MonthlyStats) (op_storage_name : string)
    (op_potential_max_size_kb op_kb_for_current_op : Z) : Prop :=
  Forall (λ p : string * StorageUnit,
            kb_in_range
              (sim_max_kb v op_storage_name op_potential_max_size_kb p.1) ∧
            kb_in_range
              (sim_update_kb v op_storage_name op_kb_for_current_op p.1))
         (checked_units true).

(** The sizes a command makes its handler read, write or print are in
    range. *)
Definition command_in_range (s : StorageManager) (c : Command) : Prop :=
  match c with
  | Upload t u _ n =>
    month_in_range s (_get_month_key t) ∧
    stats_in_range (upload_entry s (_get_month_key t) u n)
  | Delete t u f =>
    month_in_range s (_get_month_key t) ∧
    ∀ file, files s !! f = Some file →
      stats_in_range (delete_entry s (_get_month_key t) u (File_size file))
  | Update t u f n =>
    month_in_range s (_get_month_key t) ∧
    ∀ file, files s !! f = Some file →
      stats_in_range (update_entry s (_get_month_key t) u (File_size file) n)
  | Calc t =>
    ∀ mk, _get_previous_month_key t = Some mk →
      month_in_range s mk ∧
      Forall (λ p : string * StorageUnit,
                kb_in_range (size_get (snapshot_for s mk) p.1)) STORAGE_UNITS
  end.

(** Every command of a run finds its sizes in range. *)
Fixpoint run_in_range (s : StorageManager) (cs : list Command) : Prop :=
  match cs with
  | [] => True
  | c :: rest => command_in_range s c ∧ run_in_range (step s c).1 rest
  end.

(** ** Bounded sizes

    [sizes_within b B s]: no file of [s] is larger than [b] in absolute
    value, and no occupancy, seed, statistic or snapshot size larger than
    [B]. *)

Definition within (B x : Z) : Prop := - B ≤ x ≤ B.

(** The size argument of an upload or update. *)
Definition command_size (c : Command) : option Z :=
  match c with
  | Upload _ _ _ n | Update _ _ _ n => Some n
  | Delete _ _ _ | Calc _ => None
  end.

Definition command_within (b : Z) (c : Command) : Prop :=
  ∀ n, command_size c = Some n → within b n.

Definition sizes_within (b B : Z) (s : StorageManager) : Prop :=
  (∀ f file, files s !! f = Some file → within b (File_size file)) ∧
  (∀ u, within B (size_get (current_storage_size s) u)) ∧
  (∀ u, within B (size_get (last_month_eom_storage_sizes s) u)) ∧
  (∀ mk u, within B (max_size (stat_view (month_view s mk) u)) ∧
           within B (update_kb_sum (stat_view (month_view s mk) u))) ∧
  (∀ mk sn u, calc_reported_sizes_snapshot s !! mk = Some sn →
              within B (size_get sn u)).

(** ** Lines of input *)

(** The words of a line, the timestamp its first word gives, and the size
    its fifth word gives, as [process_command] reads them. *)
Definition line_words (lib : TextLib) (line : string) : list string :=
  str_split lib (str_strip lib line).

Definition line_timestamp (lib : TextLib) (line : string) : option datetime :=
  head (line_words lib line) ≫= fromisoformat lib.

Definition line_size (lib : TextLib) (line : string) : option Z :=
  line_words lib line !! 4%nat ≫= int_of_str lib.

(** * Sanity checks on concrete inputs *)

Example kb_to_mb_1500 : kb_to_mb 1500 = 2.
Proof. reflexivity. Qed.

Example month_key_jan : _get_month_key (mkDatetime 2024 1 5) = "2024-01".
Proof. vm_compute. reflexivity. Qed.

Example prev_month_key_jan :
  _get_previous_month_key (mkDatetime 2024 1 1) = Some "2023-12".
Proof. vm_compute. reflexivity. Qed.

Example scenario_responses :
  render <$> responses (new_manager true)
    [ Upload (mkDatetime 2024 1 5) "storage_A1" "f1" 500;
      Update (mkDatetime 2024 1 6) "storage_A1" "f1" 2500000;
      Delete (mkDatetime 2024 1 7) "storage_A1" "f1";
      Calc (mkDatetime 2024 2 1);
      Calc (mkDatetime 2024 2 1) ]
  = [ Some "UPLOAD: 1 1 0"; Some "UPDATE: 25 2 0"; Some "DELETE: 25 3 0";
      Some "CALC: [0 0 0 0] 25 3 0"; Some "CALC: [0 0 0 0] 25 0 0" ].
Proof. vm_compute. reflexivity. Qed.

(** * Reading through a [defaultdict]

    A read may insert the default entry, but what any later read returns is
    unaffected.  [stat_view] is the value a read of key [k] returns;
    [month_extends md md'] says that [md'] is [md] plus default entries. *)

Lemma month_extends_refl md : month_extends md md.
Proof. intros k. by left. Qed.

Lemma month_extends_trans md1 md2 md3 :
  month_extends md1 md2 → month_extends md2 md3 → month_extends md1 md3.
Proof.
  intros H12 H23 k.
  destruct (H12 k) as [E12 | [N1 E12]], (H23 k) as [E23 | [N2 E23]].
  - left. congruence.
  - right. split; congruence.
  - right. split; congruence.
  - congruence.
Qed.

Lemma month_extends_view md md' k :
  month_extends md md' → stat_view md' k = stat_view md k.
Proof.
  intros H. unfold stat_view.
  destruct (H k) as [-> | [-> ->]]; done.
Qed.

Lemma month_extends_lookup md md' k st :
  month_extends md md' → md !! k = Some st → md' !! k = Some st.
Proof. intros H E. destruct (H k) as [-> | [N _]]; congruence. Qed.

Lemma dd_get_spec md k :
  (dd_get md k).2 = stat_view md k ∧
  month_extends md (dd_get md k).1 ∧
  (dd_get md k).1 !! k = Some (stat_view md k).
Proof.
  unfold dd_get, stat_view.
  destruct (md !! k) as [st|] eqn:E; simpl.
  - repeat split; [apply month_extends_refl | done].
  - repeat split; [| by rewrite lookup_insert_eq].
    intros j. destruct (decide (k = j)) as [<- | Hne].
    + right. by rewrite lookup_insert_eq.
    + left. by rewrite lookup_insert_ne.
Qed.

Lemma dd_get_present md k st : md !! k = Some st → dd_get md k = (md, st).
Proof. intros E. unfold dd_get. by rewrite E. Qed.

(** ** Seeding a new month *)

Lemma seed_month_lookup (l : list (string * Z)) k :
  NoDup l.*1 →
  seed_month l !! k =
    (λ e, mkMonthlyStats e 0) <$> (list_to_map l : gmap string Z) !! k.
Proof.
  revert k. induction l as [| [j v] l IH] using rev_ind; intros k Hnd.
  - unfold seed_month. simpl. by rewrite !lookup_empty.
  - rewrite fmap_app in Hnd. apply NoDup_app in Hnd as (Hl & Hj & _).
    assert ((list_to_map l : gmap string Z) !! j = None) as Hnone.
    { apply not_elem_of_list_to_map_1. intros Hin. apply (Hj j Hin). simpl. left. }
    unfold seed_month. rewrite foldl_app. simpl.
    fold (seed_month l).
    pose proof (IH j Hl) as IHj. rewrite Hnone in IHj. simpl in IHj.
    unfold dd_get. rewrite IHj. simpl.
    rewrite list_to_map_app. simpl.
    destruct (decide (j = k)) as [<- | Hne].
    + rewrite lookup_insert_eq.
      rewrite lookup_union_r by done.
      by rewrite lookup_insert_eq.
    + rewrite !lookup_insert_ne by done.
      rewrite IH by done.
      destruct ((list_to_map l : gmap string Z) !! k) as [e|] eqn:E.
      * by rewrite (lookup_union_Some_l _ _ _ _ E).
      * rewrite lookup_union_r by done.
        by rewrite lookup_insert_ne, lookup_empty.
Qed.

Lemma seed_month_seeded (eom : gmap string Z) :
  seed_month (map_to_list eom) = seeded eom.
Proof.
  apply map_eq. intros k.
  rewrite seed_month_lookup by apply NoDup_fst_map_to_list.
  rewrite list_to_map_to_list. unfold seeded. by rewrite lookup_fmap.
Qed.

(** * Lazy materialisation of a month

    [month_view s mk] is the month dict a handler works on once
    [_ensure_month_init] has run: the stored one, or the freshly seeded one.
    [lazy_step mk s s'] relates a manager to the same manager after reads of
    month [mk]: nothing but [monthly_stats] differs, no other month differs,
    and month [mk] is either untouched or its view plus default entries. *)

Lemma same_but_stats_refl s : same_but_stats s s.
Proof. by repeat split. Qed.

Lemma same_but_stats_trans s1 s2 s3 :
  same_but_stats s1 s2 → same_but_stats s2 s3 → same_but_stats s1 s3.
Proof.
  intros (?&?&?&?&?&?) (?&?&?&?&?&?). repeat split; congruence.
Qed.

Lemma same_but_stats_with s ms : same_but_stats s (with_monthly_stats s ms).
Proof. by repeat split. Qed.

Lemma lazy_step_refl mk s : lazy_step mk s s.
Proof. split; [apply same_but_stats_refl |]. split; [done | by left]. Qed.

Lemma lazy_step_trans mk s1 s2 s3 :
  lazy_step mk s1 s2 → lazy_step mk s2 s3 → lazy_step mk s1 s3.
Proof.
  intros (Hs12 & Ho12 & Hm12) (Hs23 & Ho23 & Hm23).
  split; [by eapply same_but_stats_trans |].
  split; [intros k Hk; rewrite Ho23, Ho12; done |].
  assert (last_month_eom_storage_sizes s2 = last_month_eom_storage_sizes s1)
    as Heom by apply Hs12.
  destruct Hm12 as [E12 | (md2 & E12 & X12)].
  - assert (month_view s2 mk = month_view s1 mk) as Hv.
    { unfold month_view. by rewrite E12, Heom. }
    destruct Hm23 as [E23 | (md3 & E23 & X23)].
    + left. congruence.
    + right. exists md3. split; [done |]. by rewrite <- Hv.
  - assert (month_view s2 mk = md2) as Hv.
    { unfold month_view. by rewrite E12. }
    right. destruct Hm23 as [E23 | (md3 & E23 & X23)].
    + exists md2. split; [congruence | done].
    + exists md3. split; [done |]. rewrite Hv in X23.
      by eapply month_extends_trans.
Qed.

(** A lazy step never changes what a read of the month returns. *)
Lemma lazy_step_view mk s s' k :
  lazy_step mk s s' →
  stat_view (month_view s' mk) k = stat_view (month_view s mk) k.
Proof.
  intros (Hs & _ & Hm).
  assert (last_month_eom_storage_sizes s' = last_month_eom_storage_sizes s)
    as Heom by apply Hs.
  destruct Hm as [E | (md' & E & X)].
  - unfold month_view. by rewrite E, Heom.
  - unfold month_view at 1. rewrite E. by apply month_extends_view.
Qed.

Lemma lazy_step_present mk s s' :
  lazy_step mk s s' → is_Some (monthly_stats s !! mk) →
  is_Some (monthly_stats s' !! mk).
Proof.
  intros (_ & _ & [-> | (md' & -> & _)]) H; [done | by eexists].
Qed.

(** Replacing a present month's dict by an extension of it is a lazy step. *)
Lemma lazy_step_store mk s md md' :
  monthly_stats s !! mk = Some md → month_extends md md' →
  lazy_step mk s (with_monthly_stats s (<[mk := md']> (monthly_stats s))).
Proof.
  intros E X. split; [apply same_but_stats_with |]. simpl. split.
  - intros k Hk. by rewrite lookup_insert_ne.
  - right. exists md'. rewrite lookup_insert_eq. split; [done |].
    unfold month_view. by rewrite E.
Qed.

Lemma ensure_month_init_present s mk md :
  monthly_stats s !! mk = Some md → _ensure_month_init s mk = s.
Proof. intros E. unfold _ensure_month_init. by rewrite E. Qed.

Lemma ensure_month_init_lookup s mk :
  monthly_stats (_ensure_month_init s mk) !! mk = Some (month_view s mk).
Proof.
  unfold _ensure_month_init, month_view.
  destruct (monthly_stats s !! mk) as [md|] eqn:E; [done |].
  simpl. by rewrite lookup_insert_eq, seed_month_seeded.
Qed.

Lemma ensure_month_init_lazy s mk : lazy_step mk s (_ensure_month_init s mk).
Proof.
  unfold _ensure_month_init.
  destruct (monthly_stats s !! mk) as [md|] eqn:E; [apply lazy_step_refl |].
  split; [apply same_but_stats_with |]. simpl. split.
  - intros k Hk. by rewrite lookup_insert_ne.
  - right. eexists. rewrite lookup_insert_eq. split; [done |].
    unfold month_view. rewrite E, seed_month_seeded. apply month_extends_refl.
Qed.

Lemma month_data_present s mk md :
  monthly_stats s !! mk = Some md → month_data s mk = md.
Proof. intros E. unfold month_data. by rewrite E. Qed.

Lemma stats_get_spec s mk u md :
  monthly_stats s !! mk = Some md →
  (stats_get s mk u).2 = stat_view md u ∧
  lazy_step mk s (stats_get s mk u).1 ∧
  ∃ md', monthly_stats (stats_get s mk u).1 !! mk = Some md' ∧
         month_extends md md' ∧ md' !! u = Some (stat_view md u).
Proof.
  intros E. unfold stats_get. rewrite (month_data_present _ _ _ E).
  destruct (dd_get_spec md u) as (Hv & Hx & Hl).
  destruct (dd_get md u) as [md1 st]. simpl in *.
  split; [done |]. split; [by apply (lazy_step_store mk s md) |].
  exists md1. by rewrite lookup_insert_eq.
Qed.

(** * The two fee loops in closed form *)

#[local] Arguments units_lookup : simpl never.
#[local] Arguments STORAGE_UNITS : simpl never.
#[local] Arguments checked_units : simpl never.
#[local] Arguments sim_total : simpl never.
#[local] Arguments fees_of_view : simpl never.

Lemma sumZ_map_add {A} (f g : A → Z) (l : list A) :
  sumZ (map (λ x, f x + g x) l) = sumZ (map f l) + sumZ (map g l).
Proof. induction l as [| x l IH]; simpl; [done | rewrite IH; lia]. Qed.

Lemma sumZ_cons x l : sumZ (x :: l) = x + sumZ l.
Proof. reflexivity. Qed.

Lemma sumQ_cons x l : sumQ (x :: l) = (x + sumQ l)%Q.
Proof. reflexivity. Qed.

Lemma calc_unit_spec settled u st a :
  let a' := calc_unit settled u st a in
  final_total_storage_fee a' =
    final_total_storage_fee a + unit_storage_fee u (max_size st) ∧
  final_total_update_fee a' =
    final_total_update_fee a + unit_update_fee u (charged_update_kb settled st) ∧
  (total_storage_fee_dec_for_usage a' ==
     total_storage_fee_dec_for_usage a + unit_storage_dec u (max_size st))%Q ∧
  (total_update_fee_dec_for_usage a' ==
     total_update_fee_dec_for_usage a
     + unit_update_dec u (charged_update_kb settled st))%Q.
Proof.
  unfold calc_unit, unit_storage_fee, unit_update_fee, unit_storage_dec,
    unit_update_dec, charged_update_kb.
  destruct settled, (0 <? max_size st), (0 <? update_kb_sum st); simpl;
    repeat split; try lia; ring.
Qed.

Lemma calc_loop_spec settled (v : string → MonthlyStats)
    (l : list (string * StorageUnit)) :
  (∀ p, p ∈ l → units_lookup STORAGE_UNITS p.1 = Some p.2) →
  ∀ md a, (∀ k, stat_view md k = v k) →
  let r := calc_loop l.*1 settled md a in
  month_extends md r.1 ∧
  final_total_storage_fee r.2 =
    final_total_storage_fee a
    + sumZ (map (λ p : string * StorageUnit,
              unit_storage_fee p.2 (max_size (v p.1))) l) ∧
  final_total_update_fee r.2 =
    final_total_update_fee a
    + sumZ (map (λ p : string * StorageUnit,
              unit_update_fee p.2 (charged_update_kb settled (v p.1))) l) ∧
  (total_storage_fee_dec_for_usage r.2 ==
     total_storage_fee_dec_for_usage a
     + sumQ (map (λ p : string * StorageUnit,
              unit_storage_dec p.2 (max_size (v p.1))) l))%Q ∧
  (total_update_fee_dec_for_usage r.2 ==
     total_update_fee_dec_for_usage a
     + sumQ (map (λ p : string * StorageUnit,
              unit_update_dec p.2 (charged_update_kb settled (v p.1))) l))%Q.
Proof.
  induction l as [| [n u] l IH]; intros Hl md a Hv.
  - simpl. repeat split; try lia; try ring. apply month_extends_refl.
  - pose proof (Hl (n, u) ltac:(left)) as Hn. simpl in Hn.
    rewrite fmap_cons. cbn [calc_loop map fst snd].
    rewrite !sumZ_cons, !sumQ_cons, Hn.
    destruct (dd_get_spec md n) as (Hst & Hx & _).
    destruct (dd_get md n) as [md1 st]. simpl in Hst, Hx.
    assert (∀ k, stat_view md1 k = v k) as Hv1.
    { intros k. rewrite <- Hv. by apply month_extends_view. }
    destruct (IH (λ p Hp, Hl p (list_elem_of_further _ _ _ Hp))
                md1 (calc_unit settled u st a) Hv1) as (Hx' & Hs & Hu & Hsd & Hud).
    destruct (calc_unit_spec settled u st a) as (Cs & Cu & Csd & Cud).
    cbn [fst snd].
    split; [by eapply month_extends_trans |].
    split; [rewrite Hs, Cs, Hst, Hv; lia |].
    split; [rewrite Hu, Cu, Hst, Hv; lia |].
    split; [rewrite Hsd, Csd, Hst, Hv; ring | rewrite Hud, Cud, Hst, Hv; ring].
Qed.

Lemma checked_units_lookup free p :
  p ∈ checked_units free → units_lookup STORAGE_UNITS p.1 = Some p.2.
Proof.
  intros Hp. apply list_elem_of_In, filter_In in Hp as [Hp _].
  unfold STORAGE_UNITS in Hp. simpl in Hp. destruct Hp as [<- | [<- | [<- | [<- | []]]]]; reflexivity.
Qed.

Lemma storages_to_check_units free :
  storages_to_check free = (checked_units free).*1.
Proof. reflexivity. Qed.

Lemma sim_loop_spec op pmax kb (v : string → MonthlyStats)
    (units : list (string * StorageUnit)) :
  ∀ md sf uf, (∀ k, stat_view md k = v k) →
  let r := sim_loop units op pmax kb md sf uf in
  month_extends md r.1 ∧
  r.2.1 + r.2.2 =
    sf + uf
    + sumZ (map (λ p : string * StorageUnit,
              unit_storage_fee p.2 (sim_max_kb v op pmax p.1)
              + unit_update_fee p.2 (sim_update_kb v op kb p.1))
            (List.filter (λ p : string * StorageUnit,
               is_free_plan_allowed p.2) units)).
Proof.
  induction units as [| [n u] l IH]; intros md sf uf Hv; simpl.
  - split; [apply month_extends_refl | lia].
  - destruct (is_free_plan_allowed u) eqn:Ha; simpl.
    + destruct (dd_get_spec md n) as (Hst & Hx & _).
      destruct (dd_get md n) as [md1 st]. simpl in Hst, Hx.
      assert (∀ k, stat_view md1 k = v k) as Hv1.
      { intros k. rewrite <- Hv. by apply month_extends_view. }
      match goal with
      | |- context [sim_loop l op pmax kb md1 ?a ?b] =>
        destruct (IH md1 a b Hv1) as (Hx' & Hsum)
      end.
      split; [by eapply month_extends_trans |].
      rewrite Hsum. rewrite Hst, Hv.
      unfold unit_storage_fee, unit_update_fee, sim_max_kb, sim_update_kb.
      destruct (decide (n = op));
        repeat match goal with |- context [0 <? ?x] => destruct (0 <? x) end;
        lia.
    + by apply IH.
Qed.

(** * The two fee methods *)

Lemma would_exceed_spec s mk op pmax kb :
  let r := _would_exceed_free_plan_limit s mk op pmax kb in
  lazy_step mk s r.1 ∧
  r.2 = is_free_plan s &&
        (1000 <? sim_total (stat_view (month_view s mk)) op pmax kb).
Proof.
  unfold _would_exceed_free_plan_limit.
  destruct (is_free_plan s) eqn:Hfree; cbn [negb andb fst snd].
  2: { split; [apply lazy_step_refl | done]. }
  pose proof (ensure_month_init_lazy s mk) as Hlazy.
  pose proof (ensure_month_init_lookup s mk) as Hlook.
  set (s1 := _ensure_month_init s mk) in *.
  rewrite (month_data_present _ _ _ Hlook).
  destruct (sim_loop_spec op pmax kb (stat_view (month_view s mk))
              STORAGE_UNITS (month_view s mk) 0 0 (λ _, eq_refl))
    as (Hx & Hsum).
  destruct (sim_loop STORAGE_UNITS op pmax kb (month_view s mk) 0 0)
    as [md [sf uf]].
  cbn [fst snd] in *. split.
  - eapply lazy_step_trans; [exact Hlazy |]. by eapply lazy_step_store.
  - rewrite Hsum. reflexivity.
Qed.

Lemma calculate_total_fees_spec s mk :
  let r := _calculate_total_fees s mk in
  lazy_step mk s r.1 ∧
  (∃ md, monthly_stats r.1 !! mk = Some md ∧ month_extends (month_view s mk) md) ∧
  r.2 = fees_of_view (is_free_plan s)
          (bool_decide (mk ∈ update_fee_settled_for_month s))
          (stat_view (month_view s mk)).
Proof.
  unfold _calculate_total_fees.
  pose proof (ensure_month_init_lazy s mk) as Hlazy.
  pose proof (ensure_month_init_lookup s mk) as Hlook.
  set (s1 := _ensure_month_init s mk) in *.
  assert (is_free_plan s1 = is_free_plan s) as -> by apply Hlazy.
  assert (update_fee_settled_for_month s1 = update_fee_settled_for_month s)
    as -> by apply Hlazy.
  rewrite (month_data_present _ _ _ Hlook), storages_to_check_units.
  set (settled := bool_decide (mk ∈ update_fee_settled_for_month s)).
  destruct (calc_loop_spec settled (stat_view (month_view s mk))
              (checked_units (is_free_plan s))
              (checked_units_lookup (is_free_plan s))
              (month_view s mk) (mkFeeAcc 0 0 0 0) (λ _, eq_refl))
    as (Hx & Hs & Hu & Hsd & Hud).
  destruct (calc_loop (checked_units (is_free_plan s)).*1 settled
              (month_view s mk) (mkFeeAcc 0 0 0 0)) as [md a].
  cbn [fst snd final_total_storage_fee final_total_update_fee
       total_storage_fee_dec_for_usage total_update_fee_dec_for_usage] in *.
  split; [| split].
  - eapply lazy_step_trans; [exact Hlazy |]. by eapply lazy_step_store.
  - exists md. unfold with_monthly_stats. cbn [monthly_stats].
    by rewrite lookup_insert_eq.
  - unfold fees_of_view, usage_of. f_equal; [lia | lia |].
    apply Qceiling_comp, Q.max_compat; [reflexivity |].
    rewrite Hsd, Hud. ring.
Qed.

Lemma calculate_total_fees_fees s mk :
  (_calculate_total_fees s mk).2 =
    fees_of_view (is_free_plan s)
      (bool_decide (mk ∈ update_fee_settled_for_month s))
      (stat_view (month_view s mk)).
Proof. apply calculate_total_fees_spec. Qed.

(** Fees depend on the month's dict only through what reads of it return. *)
Lemma fees_of_view_ext free settled (v w : string → MonthlyStats) :
  (∀ k, v k = w k) → fees_of_view free settled v = fees_of_view free settled w.
Proof.
  intros E. unfold fees_of_view.
  assert (∀ (g : string * StorageUnit → MonthlyStats → Z),
    map (λ p, g p (v p.1)) (checked_units free) =
    map (λ p, g p (w p.1)) (checked_units free)) as HZ.
  { intros g. apply map_ext. intros p. by rewrite E. }
  assert (∀ (g : string * StorageUnit → MonthlyStats → Q),
    map (λ p, g p (v p.1)) (checked_units free) =
    map (λ p, g p (w p.1)) (checked_units free)) as HQ.
  { intros g. apply map_ext. intros p. by rewrite E. }
  rewrite (HZ (λ p st, unit_storage_fee p.2 (max_size st))).
  rewrite (HZ (λ p st, unit_update_fee p.2 (charged_update_kb settled st))).
  rewrite (HQ (λ p st, unit_storage_dec p.2 (max_size st))).
  rewrite (HQ (λ p st, unit_update_dec p.2 (charged_update_kb settled st))).
  reflexivity.
Qed.

(** * The limit check and the commit of each handler *)

Lemma sim_total_ext (v w : string → MonthlyStats) op pmax kb :
  (∀ k, v k = w k) → sim_total v op pmax kb = sim_total w op pmax kb.
Proof.
  intros E. unfold sim_total. f_equal. apply map_ext. intros p.
  unfold sim_max_kb, sim_update_kb. by rewrite E.
Qed.

(** The shape shared by the three "Check free plan limits" blocks: read the
    operation's statistics, then simulate. *)
Lemma check_limit_spec s mk u md (pmax : MonthlyStats → Z) kb :
  monthly_stats s !! mk = Some md →
  let r := _would_exceed_free_plan_limit (stats_get s mk u).1 mk u
             (pmax (stats_get s mk u).2) kb in
  lazy_step mk s r.1 ∧
  r.2 = is_free_plan s &&
        (1000 <? sim_total (stat_view md) u (pmax (stat_view md u)) kb).
Proof.
  intros E.
  destruct (stats_get_spec s mk u md E) as (Hst & Hlazy & _).
  destruct (stats_get s mk u) as [s1 st]. cbn [fst snd] in *. subst st.
  destruct (would_exceed_spec s1 mk u (pmax (stat_view md u)) kb) as (Hl2 & Hr).
  cbn zeta. split; [by eapply lazy_step_trans |].
  rewrite Hr. f_equal; [apply Hlazy |]. f_equal.
  apply sim_total_ext. intros k.
  rewrite (lazy_step_view mk s s1 k Hlazy).
  unfold month_view. by rewrite E.
Qed.

Lemma upload_check_limit_spec s mk u md size :
  monthly_stats s !! mk = Some md →
  let r := upload_check_limit s mk u size in
  lazy_step mk s r.1 ∧
  r.2 = is_free_plan s &&
        (1000 <? sim_total (stat_view md) u
           (Z.max (max_size (stat_view md u))
                  (size_get (current_storage_size s) u + size)) size).
Proof.
  intros E. unfold upload_check_limit.
  destruct (is_free_plan s) eqn:Hfree.
  2: { split; [apply lazy_step_refl | done]. }
  pose proof (check_limit_spec s mk u md
    (λ st, Z.max (max_size st) (size_get (current_storage_size s) u + size))
    size E) as H.
  destruct (stats_get_spec s mk u md E) as (_ & (Hsame & _) & _).
  destruct (stats_get s mk u) as [s1 st]. cbn [fst snd] in *.
  assert (current_storage_size s1 = current_storage_size s) as -> by apply Hsame.
  by rewrite Hfree in H.
Qed.

Lemma delete_check_limit_spec s mk u md size :
  monthly_stats s !! mk = Some md →
  let r := delete_check_limit s mk u size in
  lazy_step mk s r.1 ∧
  r.2 = is_free_plan s &&
        (1000 <? sim_total (stat_view md) u (max_size (stat_view md u)) size).
Proof.
  intros E. unfold delete_check_limit.
  destruct (is_free_plan s) eqn:Hfree.
  2: { split; [apply lazy_step_refl | done]. }
  pose proof (check_limit_spec s mk u md max_size size E) as H.
  destruct (stats_get s mk u) as [s1 st]. cbn [fst snd] in *.
  by rewrite Hfree in H.
Qed.

Lemma update_check_limit_spec s mk u md orig new_size :
  monthly_stats s !! mk = Some md →
  let r := update_check_limit s mk u orig new_size in
  lazy_step mk s r.1 ∧
  r.2 = is_free_plan s &&
        (1000 <? sim_total (stat_view md) u
           (Z.max (max_size (stat_view md u))
                  (size_get (current_storage_size s) u + (new_size - orig)))
           (orig + new_size)).
Proof.
  intros E. unfold update_check_limit.
  destruct (is_free_plan s) eqn:Hfree.
  2: { split; [apply lazy_step_refl | done]. }
  pose proof (check_limit_spec s mk u md
    (λ st, Z.max (max_size st)
             (size_get (current_storage_size s) u + (new_size - orig)))
    (orig + new_size) E) as H.
  destruct (stats_get_spec s mk u md E) as (_ & (Hsame & _) & _).
  destruct (stats_get s mk u) as [s1 st]. cbn [fst snd] in *.
  assert (current_storage_size s1 = current_storage_size s) as -> by apply Hsame.
  by rewrite Hfree in H.
Qed.

(** Reading an entry and assigning to it stores the new entry in the
    month's dict. *)
Lemma stats_get_set s mk u md (g : MonthlyStats → MonthlyStats) :
  monthly_stats s !! mk = Some md →
  stats_set (stats_get s mk u).1 mk u (g (stats_get s mk u).2) =
  with_monthly_stats s
    (<[mk := <[u := g (stat_view md u)]> md]> (monthly_stats s)).
Proof.
  intros E. unfold stats_get, stats_set.
  rewrite (month_data_present _ _ _ E).
  unfold dd_get, stat_view.
  destruct (md !! u) as [st|] eqn:Eu; cbn [fst snd];
    unfold with_monthly_stats, month_data; cbn [monthly_stats is_free_plan files
      current_storage_size calc_reported_sizes_snapshot
      update_fee_settled_for_month last_month_eom_storage_sizes];
    rewrite lookup_insert_eq, insert_insert_eq; unfold default, id;
    cbn [from_option]; rewrite ?insert_insert_eq; reflexivity.
Qed.

Lemma upload_perform_spec s mk u f size md :
  monthly_stats s !! mk = Some md →
  upload_perform s mk u f size =
  mkStorageManager (is_free_plan s)
    (<[f := mkFile f size u]> (files s))
    (<[u := size_get (current_storage_size s) u + size]> (current_storage_size s))
    (<[mk := <[u := mkMonthlyStats
                      (Z.max (max_size (stat_view md u))
                             (size_get (current_storage_size s) u + size))
                      (update_kb_sum (stat_view md u) + size)]> md]>
       (monthly_stats s))
    (calc_reported_sizes_snapshot s) (update_fee_settled_for_month s)
    (last_month_eom_storage_sizes s).
Proof.
  intros E. unfold upload_perform. cbv zeta.
  set (s2 := with_current_storage_size _ _).
  assert (monthly_stats s2 !! mk = Some md) as E2 by exact E.
  pose proof (stats_get_set s2 mk u md
    (λ st, mkMonthlyStats
       (Z.max (max_size st)
          (size_get (<[u := size_get (current_storage_size s) u + size]>
                       (current_storage_size s)) u))
       (update_kb_sum st + size)) E2) as H.
  destruct (stats_get_spec s2 mk u md E2) as (_ & (Hsame & _) & _).
  destruct (stats_get s2 mk u) as [s3 st]. cbn [fst snd] in *.
  assert (current_storage_size s3 = current_storage_size s2) as -> by apply Hsame.
  cbn [s2 current_storage_size with_current_storage_size with_files] in *.
  rewrite H. unfold size_get at 1. rewrite lookup_insert_eq. reflexivity.
Qed.

Lemma delete_perform_spec s mk u f file md :
  monthly_stats s !! mk = Some md →
  delete_perform s mk u f file =
  mkStorageManager (is_free_plan s)
    (delete f (files s))
    (<[File_storage file :=
         size_get (current_storage_size s) (File_storage file) - File_size file]>
       (current_storage_size s))
    (<[mk := <[u := mkMonthlyStats
                      (max_size (stat_view md u))
                      (update_kb_sum (stat_view md u) + File_size file)]> md]>
       (monthly_stats s))
    (calc_reported_sizes_snapshot s) (update_fee_settled_for_month s)
    (last_month_eom_storage_sizes s).
Proof.
  intros E. unfold delete_perform. cbv zeta.
  set (s2 := with_files _ _).
  assert (monthly_stats s2 !! mk = Some md) as E2 by exact E.
  pose proof (stats_get_set s2 mk u md
    (λ st, mkMonthlyStats (max_size st) (update_kb_sum st + File_size file))
    E2) as H.
  destruct (stats_get s2 mk u) as [s3 st]. cbn [fst snd] in *.
  rewrite H. reflexivity.
Qed.

Lemma update_perform_spec s mk u f file new_size md :
  monthly_stats s !! mk = Some md →
  update_perform s mk u f file new_size =
  mkStorageManager (is_free_plan s)
    (<[f := mkFile (File_name file) new_size (File_storage file)]> (files s))
    (<[u := size_get (current_storage_size s) u + (new_size - File_size file)]>
       (current_storage_size s))
    (<[mk := <[u := mkMonthlyStats
                      (Z.max (max_size (stat_view md u))
                             (size_get (current_storage_size s) u
                              + (new_size - File_size file)))
                      (update_kb_sum (stat_view md u)
                       + (File_size file + new_size))]> md]>
       (monthly_stats s))
    (calc_reported_sizes_snapshot s) (update_fee_settled_for_month s)
    (last_month_eom_storage_sizes s).
Proof.
  intros E. unfold update_perform. cbv zeta.
  set (s1 := with_current_storage_size _ _).
  assert (monthly_stats s1 !! mk = Some md) as E1 by exact E.
  pose proof (stats_get_set s1 mk u md
    (λ st, mkMonthlyStats
       (Z.max (max_size st)
          (size_get (<[u := size_get (current_storage_size s) u
                             + (new_size - File_size file)]>
                       (current_storage_size s)) u))
       (update_kb_sum st + (File_size file + new_size))) E1) as H.
  destruct (stats_get_spec s1 mk u md E1) as (_ & (Hsame & _) & _).
  destruct (stats_get s1 mk u) as [s2 st]. cbn [fst snd] in *.
  assert (current_storage_size s2 = current_storage_size s1) as -> by apply Hsame.
  cbn [s1 current_storage_size with_current_storage_size] in *.
  rewrite H. unfold size_get at 1. rewrite lookup_insert_eq. reflexivity.
Qed.

(** * The handlers, case by case *)

Lemma handle_upload_static s ts u f size :
  ¬ upload_allowed s u f →
  ∃ why, handle_upload s ts u f size = (s, Rejected UPLOAD why) ∧
         why ≠ FreePlanLimitExceeded.
Proof.
  intros Hno. unfold handle_upload.
  destruct (decide (is_Some (files s !! f))) as [Hf | Hf]; [by eexists |].
  destruct (units_lookup STORAGE_UNITS u) as [unit|] eqn:Hu; [| by eexists].
  destruct (is_free_plan s && negb (is_free_plan_allowed unit)) eqn:Hp;
    [by eexists |].
  exfalso. apply Hno. split.
  - by apply eq_None_not_Some.
  - exists unit. split; [done |]. intros Hfree. rewrite Hfree in Hp.
    by destruct (is_free_plan_allowed unit).
Qed.

Lemma handle_upload_dynamic s ts u f size :
  upload_allowed s u f →
  let mk := _get_month_key ts in
  ∃ s2, lazy_step mk s s2 ∧ is_Some (monthly_stats s2 !! mk) ∧
    handle_upload s ts u f size =
      if upload_limit_exceeded s mk u size
      then (s2, Rejected UPLOAD FreePlanLimitExceeded)
      else ((_calculate_total_fees (upload_perform s2 mk u f size) mk).1,
            Accepted UPLOAD
              (_calculate_total_fees (upload_perform s2 mk u f size) mk).2).
Proof.
  intros (Hf & unit & Hu & Hp) mk. unfold handle_upload.
  destruct (decide (is_Some (files s !! f))) as [Hf' | _].
  { rewrite Hf in Hf'. by destruct Hf'. }
  rewrite Hu.
  assert (is_free_plan s && negb (is_free_plan_allowed unit) = false) as ->.
  { destruct (is_free_plan s); [by rewrite Hp | done]. }
  fold mk.
  pose proof (ensure_month_init_lazy s mk) as Hl1.
  pose proof (ensure_month_init_lookup s mk) as Hk1.
  set (s1 := _ensure_month_init s mk) in *.
  destruct (upload_check_limit_spec s1 mk u _ size Hk1) as (Hl2 & Hr).
  destruct (upload_check_limit s1 mk u size) as [s2 exceeded].
  cbn [fst snd] in *.
  exists s2. split; [by eapply lazy_step_trans |].
  split; [eapply lazy_step_present; [exact Hl2 | by eexists] |].
  assert (exceeded = upload_limit_exceeded s mk u size) as ->.
  { rewrite Hr. unfold upload_limit_exceeded. cbv zeta.
    destruct Hl1 as ((-> & _ & -> & _) & _). reflexivity. }
  destruct (upload_limit_exceeded s mk u size); [done |].
  by destruct (_calculate_total_fees _ _).
Qed.

Lemma handle_delete_static s ts u f :
  (∀ file, ¬ file_in_unit s u f file) →
  ∃ why, handle_delete s ts u f =
           (_ensure_month_init s (_get_month_key ts), Rejected DELETE why) ∧
         why ≠ FreePlanLimitExceeded.
Proof.
  intros Hno. unfold handle_delete. cbv zeta.
  pose proof (ensure_month_init_lazy s (_get_month_key ts)) as ((Hfree & Hfiles & _) & _).
  set (s1 := _ensure_month_init s (_get_month_key ts)) in *.
  destruct (units_lookup STORAGE_UNITS u) as [unit|] eqn:Hu; [| by eexists].
  destruct (is_free_plan s1 && negb (is_free_plan_allowed unit)) eqn:Hp;
    [by eexists |].
  destruct (files s1 !! f) as [file|] eqn:Hf; [| by eexists].
  destruct (bool_decide (File_storage file = u)) eqn:Hs; cbn [negb];
    [| by eexists].
  exfalso. apply (Hno file). apply bool_decide_eq_true in Hs.
  split; [| by rewrite <- Hfiles].
  exists unit. split; [done |]. rewrite <- Hfree. intros Hfr. rewrite Hfr in Hp.
  by destruct (is_free_plan_allowed unit).
Qed.

Lemma handle_delete_dynamic s ts u f file :
  file_in_unit s u f file →
  let mk := _get_month_key ts in
  ∃ s2, lazy_step mk s s2 ∧ is_Some (monthly_stats s2 !! mk) ∧
    handle_delete s ts u f =
      if delete_limit_exceeded s mk u (File_size file)
      then (s2, Rejected DELETE FreePlanLimitExceeded)
      else ((_calculate_total_fees (delete_perform s2 mk u f file) mk).1,
            Accepted DELETE
              (_calculate_total_fees (delete_perform s2 mk u f file) mk).2).
Proof.
  intros ((unit & Hu & Hp) & Hf & Hs) mk. unfold handle_delete. cbv zeta.
  fold mk.
  pose proof (ensure_month_init_lazy s mk) as Hl1.
  pose proof (ensure_month_init_lookup s mk) as Hk1.
  set (s1 := _ensure_month_init s mk) in *.
  assert (is_free_plan s1 = is_free_plan s) as Hfree by apply Hl1.
  assert (files s1 = files s) as Hfiles by apply Hl1.
  rewrite Hu, Hfree, Hfiles, Hf.
  assert (is_free_plan s && negb (is_free_plan_allowed unit) = false) as ->.
  { destruct (is_free_plan s); [by rewrite Hp | done]. }
  rewrite (bool_decide_eq_true_2 _ Hs). cbn [negb].
  destruct (delete_check_limit_spec s1 mk u _ (File_size file) Hk1) as (Hl2 & Hr).
  destruct (delete_check_limit s1 mk u (File_size file)) as [s2 exceeded].
  cbn [fst snd] in *.
  exists s2. split; [by eapply lazy_step_trans |].
  split; [eapply lazy_step_present; [exact Hl2 | by eexists] |].
  assert (exceeded = delete_limit_exceeded s mk u (File_size file)) as ->.
  { rewrite Hr. unfold delete_limit_exceeded. cbv zeta. by rewrite Hfree. }
  destruct (delete_limit_exceeded s mk u (File_size file)); [done |].
  by destruct (_calculate_total_fees _ _).
Qed.

Lemma handle_update_static s ts u f new_size :
  (∀ file, ¬ file_in_unit s u f file) →
  ∃ why, handle_update s ts u f new_size =
           (_ensure_month_init s (_get_month_key ts), Rejected UPDATE why) ∧
         why ≠ FreePlanLimitExceeded.
Proof.
  intros Hno. unfold handle_update. cbv zeta.
  pose proof (ensure_month_init_lazy s (_get_month_key ts)) as ((Hfree & Hfiles & _) & _).
  set (s1 := _ensure_month_init s (_get_month_key ts)) in *.
  destruct (units_lookup STORAGE_UNITS u) as [unit|] eqn:Hu; [| by eexists].
  destruct (is_free_plan s1 && negb (is_free_plan_allowed unit)) eqn:Hp;
    [by eexists |].
  destruct (files s1 !! f) as [file|] eqn:Hf; [| by eexists].
  destruct (bool_decide (File_storage file = u)) eqn:Hs; cbn [negb];
    [| by eexists].
  exfalso. apply (Hno file). apply bool_decide_eq_true in Hs.
  split; [| by rewrite <- Hfiles].
  exists unit. split; [done |]. rewrite <- Hfree. intros Hfr. rewrite Hfr in Hp.
  by destruct (is_free_plan_allowed unit).
Qed.

Lemma handle_update_dynamic s ts u f file new_size :
  file_in_unit s u f file →
  let mk := _get_month_key ts in
  ∃ s2, lazy_step mk s s2 ∧ is_Some (monthly_stats s2 !! mk) ∧
    handle_update s ts u f new_size =
      if update_limit_exceeded s mk u (File_size file) new_size
      then (s2, Rejected UPDATE FreePlanLimitExceeded)
      else ((_calculate_total_fees
               (update_perform s2 mk u f file new_size) mk).1,
            Accepted UPDATE
              (_calculate_total_fees
                 (update_perform s2 mk u f file new_size) mk).2).
Proof.
  intros ((unit & Hu & Hp) & Hf & Hs) mk. unfold handle_update. cbv zeta.
  fold mk.
  pose proof (ensure_month_init_lazy s mk) as Hl1.
  pose proof (ensure_month_init_lookup s mk) as Hk1.
  set (s1 := _ensure_month_init s mk) in *.
  assert (is_free_plan s1 = is_free_plan s) as Hfree by apply Hl1.
  assert (files s1 = files s) as Hfiles by apply Hl1.
  assert (current_storage_size s1 = current_storage_size s) as Hocc by apply Hl1.
  rewrite Hu, Hfree, Hfiles, Hf.
  assert (is_free_plan s && negb (is_free_plan_allowed unit) = false) as ->.
  { destruct (is_free_plan s); [by rewrite Hp | done]. }
  rewrite (bool_decide_eq_true_2 _ Hs). cbn [negb].
  destruct (update_check_limit_spec s1 mk u _ (File_size file) new_size Hk1)
    as (Hl2 & Hr).
  destruct (update_check_limit s1 mk u (File_size file) new_size)
    as [s2 exceeded].
  cbn [fst snd] in *.
  exists s2. split; [by eapply lazy_step_trans |].
  split; [eapply lazy_step_present; [exact Hl2 | by eexists] |].
  assert (exceeded = update_limit_exceeded s mk u (File_size file) new_size) as ->.
  { rewrite Hr. unfold update_limit_exceeded. cbv zeta. by rewrite Hfree, Hocc. }
  destruct (update_limit_exceeded s mk u (File_size file) new_size); [done |].
  by destruct (_calculate_total_fees _ _).
Qed.

Lemma upload_allowed_dec s u f : upload_allowed s u f ∨ ¬ upload_allowed s u f.
Proof.
  unfold upload_allowed.
  destruct (files s !! f) as [x|]; [right; by intros [? _] |].
  destruct (units_lookup STORAGE_UNITS u) as [unit|];
    [| right; by intros (_ & ? & ? & _)].
  destruct (is_free_plan s) eqn:Hfree.
  - destruct (is_free_plan_allowed unit) eqn:Ha.
    + left. split; [done |]. by exists unit.
    + right. intros (_ & unit' & [= <-] & Hp). specialize (Hp eq_refl). congruence.
  - left. split; [done |]. exists unit. split; [done |]. intros ?. congruence.
Qed.

Lemma file_in_unit_dec s u f :
  (∃ file, file_in_unit s u f file) ∨ (∀ file, ¬ file_in_unit s u f file).
Proof.
  unfold file_in_unit.
  destruct (files s !! f) as [file|] eqn:Hf;
    [| right; by intros file (_ & ? & _)].
  destruct (decide (File_storage file = u)) as [Hs | Hs];
    [| right; intros file' (_ & [= <-] & ?); done].
  destruct (units_lookup STORAGE_UNITS u) as [unit|];
    [| right; by intros file' ((? & ? & _) & _)].
  destruct (is_free_plan s) eqn:Hfree.
  - destruct (is_free_plan_allowed unit) eqn:Ha.
    + left. exists file. split; [by exists unit | done].
    + right. intros file' ((unit' & [= <-] & Hp) & _).
      specialize (Hp eq_refl). congruence.
  - left. exists file. split; [| done]. exists unit. split; [done |].
    intros ?. congruence.
Qed.

Lemma perform_commit_step mk u s fs occ st' md :
  monthly_stats s !! mk = Some md →
  commit_step mk u s
    (mkStorageManager (is_free_plan s) fs occ
       (<[mk := <[u := st']> md]> (monthly_stats s))
       (calc_reported_sizes_snapshot s) (update_fee_settled_for_month s)
       (last_month_eom_storage_sizes s)).
Proof. intros E. repeat split. by exists md, st'. Qed.

(** Every upload, delete or update is a lazy step that ends in a rejection,
    or a lazy step, a commit, and the lazy step of the fee computation. *)
Lemma op_shape s c mk :
  op_month_key c = Some mk →
  (lazy_step mk s (step s c).1 ∧ ∃ op why, (step s c).2 = Rejected op why) ∨
  (∃ u s2 s3 op,
     lazy_step mk s s2 ∧ commit_step mk u s2 s3 ∧
     files s2 = files s ∧ current_storage_size s2 = current_storage_size s ∧
     step s c = ((_calculate_total_fees s3 mk).1,
                 Accepted op (_calculate_total_fees s3 mk).2)).
Proof.
  destruct c as [t u f n | t u f | t u f n | t]; intros [= <-]; cbn [step].
  - destruct (upload_allowed_dec s u f) as [Hok | Hno].
    + destruct (handle_upload_dynamic s t u f n Hok) as (s2 & Hl & [md E] & ->).
      destruct (upload_limit_exceeded s (_get_month_key t) u n).
      * left. split; [done | by eexists _, _].
      * right. exists u, s2, (upload_perform s2 (_get_month_key t) u f n), UPLOAD.
        split; [done |]. split; [| split; [apply Hl | split; [apply Hl | done]]].
        rewrite (upload_perform_spec _ _ _ _ _ md E).
        by apply perform_commit_step.
    + destruct (handle_upload_static s t u f n Hno) as (why & -> & _).
      left. split; [apply lazy_step_refl | by eexists _, _].
  - destruct (file_in_unit_dec s u f) as [[file Hok] | Hno].
    + destruct (handle_delete_dynamic s t u f file Hok) as (s2 & Hl & [md E] & ->).
      destruct (delete_limit_exceeded s (_get_month_key t) u (File_size file)).
      * left. split; [done | by eexists _, _].
      * right.
        exists u, s2, (delete_perform s2 (_get_month_key t) u f file), DELETE.
        split; [done |]. split; [| split; [apply Hl | split; [apply Hl | done]]].
        rewrite (delete_perform_spec _ _ _ _ _ md E).
        by apply perform_commit_step.
    + destruct (handle_delete_static s t u f Hno) as (why & -> & _).
      left. split; [apply ensure_month_init_lazy | by eexists _, _].
  - destruct (file_in_unit_dec s u f) as [[file Hok] | Hno].
    + destruct (handle_update_dynamic s t u f file n Hok)
        as (s2 & Hl & [md E] & ->).
      destruct (update_limit_exceeded s (_get_month_key t) u (File_size file) n).
      * left. split; [done | by eexists _, _].
      * right.
        exists u, s2, (update_perform s2 (_get_month_key t) u f file n), UPDATE.
        split; [done |]. split; [| split; [apply Hl | split; [apply Hl | done]]].
        rewrite (update_perform_spec _ _ _ _ _ _ md E).
        by apply perform_commit_step.
    + destruct (handle_update_static s t u f n Hno) as (why & -> & _).
      left. split; [apply ensure_month_init_lazy | by eexists _, _].
Qed.

(** * Month close *)

Lemma take_snapshot_lookup occ eom u :
  (take_snapshot occ eom).1 !! u =
    (if bool_decide (u ∈ STORAGE_UNITS.*1) then Some (size_get occ u) else None) ∧
  (take_snapshot occ eom).2 !! u =
    (if bool_decide (u ∈ STORAGE_UNITS.*1) then Some (size_get occ u)
     else eom !! u).
Proof.
  unfold take_snapshot.
  assert (∀ (names : list string) (sn e : gmap string Z),
    let r := foldl (λ '(current_snapshot, eom1) s_name,
                     (<[s_name := size_get occ s_name]> current_snapshot,
                      <[s_name := size_get occ s_name]> eom1)) (sn, e) names in
    r.1 !! u = (if bool_decide (u ∈ names) then Some (size_get occ u) else sn !! u) ∧
    r.2 !! u = (if bool_decide (u ∈ names) then Some (size_get occ u) else e !! u))
    as H.
  { induction names as [| n names IH]; intros sn e.
    - simpl. done.
    - cbn [foldl]. cbv zeta.
      destruct (IH (<[n := size_get occ n]> sn) (<[n := size_get occ n]> e))
        as [-> ->].
      destruct (bool_decide (u ∈ names)) eqn:Hin.
      + apply bool_decide_eq_true in Hin.
        rewrite bool_decide_eq_true_2 by (by right). done.
      + apply bool_decide_eq_false in Hin.
        destruct (decide (n = u)) as [<- | Hne].
        * rewrite bool_decide_eq_true_2 by left.
          by rewrite !lookup_insert_eq.
        * rewrite bool_decide_eq_false_2.
          -- by rewrite !lookup_insert_ne.
          -- intros [? | ?]%elem_of_cons; congruence. }
  destruct (H (STORAGE_UNITS.*1) ∅ eom) as [H1 H2].
  split; [| exact H2]. rewrite H1.
  destruct (bool_decide _); [done | apply lookup_empty].
Qed.

Lemma handle_calc_spec s t mk :
  _get_previous_month_key t = Some mk →
  handle_calc s t =
    (mkStorageManager (is_free_plan s) (files s) (current_storage_size s)
       (monthly_stats (_calculate_total_fees s mk).1)
       (<[mk := snapshot_for s mk]> (calc_reported_sizes_snapshot s))
       ({[mk]} ∪ update_fee_settled_for_month s)
       (eom_after_calc s mk),
     CalcReport (size_get (snapshot_for s mk) "storage_A1")
                (size_get (snapshot_for s mk) "storage_A2")
                (size_get (snapshot_for s mk) "storage_B1")
                (size_get (snapshot_for s mk) "storage_B2")
                (_calculate_total_fees s mk).2).
Proof.
  intros Hk. unfold handle_calc. rewrite Hk.
  destruct (calculate_total_fees_spec s mk) as (((Hf & Hfi & Ho & Hsn & Hse & He) & _) & _).
  destruct (_calculate_total_fees s mk) as [s1 fees]. cbn [fst snd] in *.
  unfold snapshot_for, eom_after_calc. rewrite Hsn.
  destruct (calc_reported_sizes_snapshot s !! mk) as [sn|] eqn:E.
  - unfold with_settled. rewrite Hsn, E.
    cbn [default from_option]. unfold id.
    rewrite (insert_id _ _ _ E), Hf, Hfi, Ho, Hse, He. reflexivity.
  - rewrite Ho, He.
    destruct (take_snapshot (current_storage_size s)
                (last_month_eom_storage_sizes s)) as [sn e].
    unfold with_settled, with_snapshot, with_eom.
    cbn [calc_reported_sizes_snapshot is_free_plan files current_storage_size
         monthly_stats update_fee_settled_for_month last_month_eom_storage_sizes
         fst snd].
    rewrite lookup_insert_eq. cbn [default from_option]. unfold id.
    rewrite ?Hf, ?Hfi, ?Ho, ?Hsn, ?Hse. reflexivity.
Qed.

Lemma handle_calc_raise s t :
  _get_previous_month_key t = None → handle_calc s t = (s, RaisedOverflowError).
Proof. intros Hk. unfold handle_calc. by rewrite Hk. Qed.

(** * What every command preserves *)

Lemma lazy_step_month mk' s s' mk md :
  lazy_step mk' s s' → monthly_stats s !! mk = Some md →
  ∃ md', monthly_stats s' !! mk = Some md' ∧ month_extends md md'.
Proof.
  intros (_ & Ho & Hm) E.
  destruct (decide (mk = mk')) as [-> | Hne].
  - destruct Hm as [E' | (md' & E' & X)].
    + exists md. split; [congruence | apply month_extends_refl].
    + exists md'. split; [done |]. unfold month_view in X. by rewrite E in X.
  - exists md. split; [by rewrite Ho | apply month_extends_refl].
Qed.

Lemma commit_step_other mk' u s s' mk :
  commit_step mk' u s s' → mk ≠ mk' →
  monthly_stats s' !! mk = monthly_stats s !! mk.
Proof.
  intros (_ & _ & _ & _ & md & st' & _ & ->) Hne. by rewrite lookup_insert_ne.
Qed.

Lemma step_frame s c :
  is_free_plan (step s c).1 = is_free_plan s ∧
  update_fee_settled_for_month s ⊆ update_fee_settled_for_month (step s c).1 ∧
  (∀ mk sn, calc_reported_sizes_snapshot s !! mk = Some sn →
            calc_reported_sizes_snapshot (step s c).1 !! mk = Some sn) ∧
  (∀ mk md, monthly_stats s !! mk = Some md → op_month_key c ≠ Some mk →
            ∃ md', monthly_stats (step s c).1 !! mk = Some md' ∧
                   month_extends md md').
Proof.
  destruct (op_month_key c) as [mk0|] eqn:Hop.
  - destruct (op_shape s c mk0 Hop)
      as [(Hl & _) | (u & s2 & s3 & op & Hl & Hc & _ & _ & ->)].
    + pose proof Hl as ((Hf & _ & _ & Hsn & Hse & _) & _).
      split; [done |]. split; [by rewrite Hse |].
      split; [intros mk sn; by rewrite Hsn |].
      intros mk md E _. by eapply lazy_step_month.
    + cbn [fst].
      destruct (calculate_total_fees_spec s3 mk0) as (Hl3 & _).
      pose proof Hl as ((Hf & _ & _ & Hsn & Hse & _) & _).
      pose proof Hl3 as ((Hf3 & _ & _ & Hsn3 & Hse3 & _) & _).
      pose proof Hc as (Hfc & Hsnc & Hsec & _).
      split; [congruence |]. split; [by rewrite Hse3, Hsec, Hse |].
      split; [intros mk sn; by rewrite Hsn3, Hsnc, Hsn |].
      intros mk md E Hne.
      destruct (lazy_step_month _ _ _ _ _ Hl E) as (md2 & E2 & X2).
      assert (monthly_stats s3 !! mk = Some md2) as E3.
      { rewrite (commit_step_other _ _ _ _ mk Hc); [done | congruence]. }
      destruct (lazy_step_month _ _ _ _ _ Hl3 E3) as (md4 & E4 & X4).
      exists md4. split; [done | by eapply month_extends_trans].
  - destruct c as [| | | t]; try discriminate. cbn [step].
    destruct (_get_previous_month_key t) as [mk0|] eqn:Hk.
    + rewrite (handle_calc_spec s t mk0 Hk). cbn [fst is_free_plan
        update_fee_settled_for_month calc_reported_sizes_snapshot monthly_stats].
      split; [done |]. split; [set_solver |]. split.
      * intros mk sn E. destruct (decide (mk = mk0)) as [-> | Hne].
        -- rewrite lookup_insert_eq. unfold snapshot_for. by rewrite E.
        -- by rewrite lookup_insert_ne.
      * intros mk md E _.
        destruct (calculate_total_fees_spec s mk0) as (Hl & _).
        by eapply lazy_step_month.
    + rewrite (handle_calc_raise s t Hk). cbn [fst].
      split; [done |]. split; [done |]. split; [done |].
      intros mk md E _. exists md. split; [done | apply month_extends_refl].
Qed.

Lemma run_app s cs1 cs2 : run s (cs1 ++ cs2) = run (run s cs1) cs2.
Proof. revert s. induction cs1 as [| c cs1 IH]; intros s; simpl; [done | apply IH]. Qed.

Lemma run_frame s cs :
  is_free_plan (run s cs) = is_free_plan s ∧
  update_fee_settled_for_month s ⊆ update_fee_settled_for_month (run s cs) ∧
  (∀ mk sn, calc_reported_sizes_snapshot s !! mk = Some sn →
            calc_reported_sizes_snapshot (run s cs) !! mk = Some sn) ∧
  (∀ mk md, monthly_stats s !! mk = Some md →
            Forall (λ c, op_month_key c ≠ Some mk) cs →
            ∃ md', monthly_stats (run s cs) !! mk = Some md' ∧
                   month_extends md md').
Proof.
  revert s. induction cs as [| c cs IH]; intros s; cbn [run].
  - split; [done |]. split; [done |]. split; [done |].
    intros mk md E _. exists md. split; [done | apply month_extends_refl].
  - destruct (step_frame s c) as (Hf & Hse & Hsn & Hm).
    destruct (IH (step s c).1) as (Hf' & Hse' & Hsn' & Hm').
    split; [congruence |]. split; [intros x Hx; apply Hse', Hse, Hx |].
    split; [intros mk sn E; by apply Hsn', Hsn |].
    intros mk md E Hall. apply Forall_cons in Hall as [Hc Hall].
    destruct (Hm mk md E Hc) as (md1 & E1 & X1).
    destruct (Hm' mk md1 E1 Hall) as (md2 & E2 & X2).
    exists md2. split; [done | by eapply month_extends_trans].
Qed.

(** * Properties of the fee arithmetic *)

Lemma kb_to_mb_ceiling kb : kb_to_mb kb = Qceiling (inject_Z kb / 1000).
Proof.
  unfold kb_to_mb, KB_TO_MB_DIVISOR, Qceiling. f_equal.
  unfold Qfloor, Qdiv, Qmult, Qinv, Qopp, inject_Z. simpl.
  f_equal. lia.
Qed.

Lemma checked_units_sub free p : p ∈ checked_units free → p ∈ STORAGE_UNITS.
Proof.
  intros Hp. apply list_elem_of_In, filter_In in Hp as [Hp _].
  by apply list_elem_of_In.
Qed.

(** ** The float division is exact up to [MAX_EXACT_KB] *)

Lemma round_half_even_between (n c P : Z) :
  512 ≤ P →
  (c - 1) * P * 1000 + P ≤ n ≤ c * P * 1000 →
  (c - 1) * P < round_half_even n 1000 ≤ c * P.
Proof.
  intros HP [Hlo Hhi]. unfold round_half_even.
  pose proof (Z.div_mod n 1000 ltac:(lia)) as Hdm.
  pose proof (Z.mod_pos_bound n 1000 ltac:(lia)) as Hr.
  set (q := n / 1000) in *. set (r := n mod 1000) in *.
  repeat case_match;
    repeat match goal with
    | H : (_ <? _) = true |- _ => apply Z.ltb_lt in H
    | H : (_ <? _) = false |- _ => apply Z.ltb_ge in H
    end; lia.
Qed.

Lemma Qceiling_frac (m c : Z) (D : positive) :
  (c - 1) * Z.pos D < m ≤ c * Z.pos D → Qceiling (m # D) = c.
Proof.
  intros [Hlo Hhi]. unfold Qceiling, Qfloor, Qopp. cbn [Qnum Qden].
  assert ((- m) / Z.pos D = - c) as ->; [| lia].
  symmetry. apply (Z.div_unique_pos _ _ _ (c * Z.pos D - m)); lia.
Qed.

Lemma kb_to_mb_bounds kb :
  (kb_to_mb kb - 1) * 1000 < kb ≤ kb_to_mb kb * 1000.
Proof.
  unfold kb_to_mb, KB_TO_MB_DIVISOR.
  pose proof (Z.div_mod (- kb) 1000 ltac:(lia)).
  pose proof (Z.mod_pos_bound (- kb) 1000 ltac:(lia)). lia.
Qed.

Lemma quotient_exponent_bound kb :
  0 < kb ≤ MAX_EXACT_KB →
  quotient_exponent kb ≤ 43 ∨ (quotient_exponent kb = 44 ∧ kb = MAX_EXACT_KB).
Proof.
  intros [Hpos Hmax]. unfold quotient_exponent.
  assert (Z.log2 kb < 54) as Hl.
  { apply Z.log2_lt_pow2; [done |]. unfold MAX_EXACT_KB in Hmax.
    change (2 ^ 54) with 18014398509481984. lia. }
  destruct (decide (Z.log2 kb = 53)) as [E | Hne].
  - rewrite E.
    change (scale2 kb (- (53 - 9))) with (kb, KB_TO_MB_DIVISOR * 2 ^ 44).
    change (KB_TO_MB_DIVISOR * 2 ^ 44) with MAX_EXACT_KB. cbv beta iota.
    destruct (MAX_EXACT_KB <=? kb) eqn:Hc.
    + apply Z.leb_le in Hc. right. split; lia.
    + left. lia.
  - left. destruct (scale2 kb (- (Z.log2 kb - 9))) as [n d].
    destruct (d <=? n); lia.
Qed.

Lemma quotient_exponent_lower kb : 0 < kb → -11 ≤ quotient_exponent kb.
Proof.
  intros Hpos. unfold quotient_exponent.
  pose proof (Z.log2_nonneg kb).
  destruct (scale2 kb (- (Z.log2 kb - 9))) as [n d].
  destruct (d <=? n); lia.
Qed.

(** Up to [MAX_EXACT_KB] the float quotient lies strictly between the two
    integers around the exact quotient whenever the exact one does: half a
    unit in the last place is below [1/1000]. *)
Lemma kb_to_mb_float_exact kb :
  0 < kb ≤ MAX_EXACT_KB → kb_to_mb_float kb = Some (kb_to_mb kb).
Proof.
  intros Hr.
  destruct (quotient_exponent_bound kb Hr) as [He | [He ->]];
    [| vm_compute; reflexivity].
  pose proof (quotient_exponent_lower kb (proj1 Hr)) as Hlo.
  unfold kb_to_mb_float, truediv_kb.
  set (e := quotient_exponent kb) in *.
  unfold scale2.
  replace (0 <=? 52 - e) with true by (symmetry; apply Z.leb_le; lia).
  replace (1024 <=? e) with false by (symmetry; apply Z.leb_gt; lia).
  replace (e =? 1023) with false by (symmetry; apply Z.eqb_neq; lia).
  cbn [orb andb fmap option_fmap option_map]. f_equal.
  unfold float_of.
  replace (0 <=? e - 52) with false by (symmetry; apply Z.leb_gt; lia).
  replace (- (e - 52)) with (52 - e) by lia.
  assert (512 ≤ 2 ^ (52 - e)) as HP.
  { change 512 with (2 ^ 9). apply Z.pow_le_mono_r; lia. }
  set (P := 2 ^ (52 - e)) in *.
  pose proof (kb_to_mb_bounds kb) as [Hc1 Hc2].
  apply Qceiling_frac. rewrite Z2Pos.id by lia.
  apply round_half_even_between; [done |]. unfold KB_TO_MB_DIVISOR. nia.
Qed.

(** One KB above [MAX_EXACT_KB] the float quotient is the integer below. *)
Example kb_to_mb_float_first_gap :
  kb_to_mb_float (MAX_EXACT_KB + 1) = Some 17592186044416 ∧
  kb_to_mb (MAX_EXACT_KB + 1) = 17592186044417.
Proof. split; vm_compute; reflexivity. Qed.

(** A size of 400 digits has no float quotient: [OverflowError]. *)
Example kb_to_mb_float_overflow : kb_to_mb_float (10 ^ 399) = None.
Proof. vm_compute. reflexivity. Qed.

Lemma kb_in_range_float kb :
  kb_in_range kb → 0 < kb → kb_to_mb_float kb = Some (kb_to_mb kb).
Proof. intros [_ H] Hpos. by apply kb_to_mb_float_exact. Qed.

Lemma Qceiling_unit_storage_dec u kb :
  Qceiling (unit_storage_dec u kb) = unit_storage_fee u kb.
Proof. unfold unit_storage_dec, unit_storage_fee. by destruct (0 <? kb). Qed.

Lemma Qceiling_unit_update_dec u kb :
  Qceiling (unit_update_dec u kb) = unit_update_fee u kb.
Proof. unfold unit_update_dec, unit_update_fee. by destruct (0 <? kb). Qed.

(** C3, counterexample.  On a paid plan, one upload of 2 001 000 KB to
    [storage_B2] yields decimal fees 0.2001 and 1000.5: the integer fees are
    1 and 1001, whose excess over 1000 is 2, yet the usage fee reported is
    the single ceiling of 1000.7001 - 1000, that is 1. *)
Lemma usage_fee_is_not_from_unit_ceilings :
  (step (new_manager false) (Upload jan5 "storage_B2" "f1" 2001000)).2
    = Accepted UPLOAD (mkFees 1 1001 1) ∧
  usage_fee (mkFees 1 1001 1) ≠ usage_fee_from_unit_ceilings (mkFees 1 1001 1).
Proof. split; [vm_compute; reflexivity | vm_compute; discriminate]. Qed.

(** Closed range facts on concrete managers. *)
Ltac range_leaf := apply Z.leb_le; vm_compute; reflexivity.

Ltac solve_in_range :=
  unfold month_in_range, occupancy_in_range, sim_in_range;
  repeat constructor;
  unfold stats_in_range, kb_in_range; split_and?; range_leaf.

(** C3, as amended.  For a month whose sizes are within [MAX_EXACT_KB]:
    the storage fee and the update fee are sums over the checked units of a
    ceiling taken per unit, of the unit's megabytes (themselves the ceiling
    of KB / 1000, which is what the float division of the source yields in
    that range) times its rate; the usage fee is one ceiling, taken over
    the excess above 1000 of the pooled unrounded decimal fees.  A unit
    charging 0.01 per MB contributes 1 for a maximum size of 1500 KB. *)
Theorem fees_rounding (s : StorageManager) (mk : string) :
  month_in_range s mk →
  let v := stat_view (month_view s mk) in
  let settled := bool_decide (mk ∈ update_fee_settled_for_month s) in
  let units := checked_units (is_free_plan s) in
  let f := (_calculate_total_fees s mk).2 in
  storage_fee f =
    sumZ (map (λ p : string * StorageUnit,
            Qceiling (unit_storage_dec p.2 (max_size (v p.1)))) units) ∧
  update_fee f =
    sumZ (map (λ p : string * StorageUnit,
            Qceiling (unit_update_dec p.2 (charged_update_kb settled (v p.1))))
          units) ∧
  usage_fee f =
    Qceiling (Qmax 0
      (sumQ (map (λ p : string * StorageUnit,
               unit_storage_dec p.2 (max_size (v p.1))) units)
       + sumQ (map (λ p : string * StorageUnit,
               unit_update_dec p.2 (charged_update_kb settled (v p.1))) units)
       - 1000)) ∧
  (∀ p, p ∈ units →
     (0 < max_size (v p.1) →
        kb_to_mb_float (max_size (v p.1))
          = Some (kb_to_mb (max_size (v p.1)))) ∧
     (0 < update_kb_sum (v p.1) →
        kb_to_mb_float (update_kb_sum (v p.1))
          = Some (kb_to_mb (update_kb_sum (v p.1))))) ∧
  (∀ kb, 0 < kb ≤ MAX_EXACT_KB →
     kb_to_mb_float kb = Some (kb_to_mb kb) ∧
     kb_to_mb kb = Qceiling (inject_Z kb / 1000)) ∧
  (∀ u : StorageUnit, (store_fee_per_mb u == 1 # 100)%Q →
     Qceiling (unit_storage_dec u 1500) = 1).
Proof.
  intros Hrange. cbv zeta. rewrite calculate_total_fees_fees.
  unfold fees_of_view. cbn [storage_fee update_fee usage_fee].
  split; [| split; [| split; [| split; [| split]]]].
  - f_equal. apply map_ext. intros p. by rewrite Qceiling_unit_storage_dec.
  - f_equal. apply map_ext. intros p. by rewrite Qceiling_unit_update_dec.
  - reflexivity.
  - intros p Hp. apply checked_units_sub in Hp.
    unfold month_in_range in Hrange. rewrite Forall_forall in Hrange.
    destruct (Hrange p Hp) as [Hm Hu].
    split; intros Hpos; by apply kb_in_range_float.
  - intros kb Hkb. split; [by apply kb_to_mb_float_exact |].
    apply kb_to_mb_ceiling.
  - intros u Hu. unfold unit_storage_dec. cbn [Z.ltb Z.compare].
    unfold fee_dec. rewrite Hu. reflexivity.
Qed.

(** January after one upload of 1500 KB to [storage_A1]. *)
Lemma fees_rounding_witness :
  month_in_range
    (run (new_manager true) [Upload jan5 "storage_A1" "f1" 1500]) "2024-01" ∧
  storage_fee
    (_calculate_total_fees
       (run (new_manager true) [Upload jan5 "storage_A1" "f1" 1500])
       "2024-01").2
  = sumZ (map (λ p : string * StorageUnit,
            Qceiling
              (unit_storage_dec p.2
                 (max_size
                    (stat_view
                       (month_view
                          (run (new_manager true)
                             [Upload jan5 "storage_A1" "f1" 1500])
                          "2024-01") p.1))))
          (checked_units
             (is_free_plan
                (run (new_manager true)
                   [Upload jan5 "storage_A1" "f1" 1500])))).
Proof.
  assert (month_in_range
    (run (new_manager true) [Upload jan5 "storage_A1" "f1" 1500]) "2024-01")
    as Hrange by solve_in_range.
  split; [exact Hrange |].
  exact (proj1 (fees_rounding _ "2024-01" Hrange)).
Defined.

(** * The free-plan limit *)

Lemma would_exceed_result s mk op pmax kb :
  (_would_exceed_free_plan_limit s mk op pmax kb).2 =
    is_free_plan s &&
    (1000 <? sim_total (stat_view (month_view s mk)) op pmax kb).
Proof. apply would_exceed_spec. Qed.










(** The same upload through the handler, and the upload one KB larger. *)
Example upload_at_and_above_limit :
  (step (new_manager true) (Upload jan5 "storage_A1" "f1" 95200000)).2
    = Accepted UPLOAD (mkFees 952 48 0) ∧
  (step (new_manager true) (Upload jan5 "storage_A1" "f1" 95200001)).2
    = Rejected UPLOAD FreePlanLimitExceeded.
Proof. split; vm_compute; reflexivity. Qed.

(** * Rejected operations *)

(** C1, counterexample.  On a fresh manager a delete naming an unknown unit
    is rejected, yet [monthly_stats] has gained the month of the timestamp:
    [handle_delete] calls [_ensure_month_init] before it validates. *)
Lemma rejected_delete_creates_month :
  (step (new_manager true) (Delete jan5 "storage_X" "f1")).2
    = Rejected DELETE InvalidStorageName ∧
  monthly_stats (step (new_manager true) (Delete jan5 "storage_X" "f1")).1
    ≠ monthly_stats (new_manager true).
Proof.
  split; [vm_compute; reflexivity |].
  intros H. apply (f_equal (λ m, m !! "2024-01")) in H.
  vm_compute in H. discriminate.
Qed.

(** C1, as amended.  A rejected upload, delete or update leaves the file
    registry, the occupancy table, the snapshots, the settled months and the
    seed table as they were.  Of [monthly_stats] no month but the one of the
    operation's timestamp differs, and that month is either untouched or
    holds what a read of it returned before plus default entries (the
    month and the entries the handler's reads created).  An upload rejected
    by a static check leaves the whole manager as it was. *)
Theorem rejected_operation_state (s s' : StorageManager) (c : Command)
    (op : OpName) (why : Rejection) :
  step s c = (s', Rejected op why) →
  files s' = files s ∧
  current_storage_size s' = current_storage_size s ∧
  calc_reported_sizes_snapshot s' = calc_reported_sizes_snapshot s ∧
  update_fee_settled_for_month s' = update_fee_settled_for_month s ∧
  last_month_eom_storage_sizes s' = last_month_eom_storage_sizes s ∧
  (∃ mk, op_month_key c = Some mk ∧
     (∀ k, k ≠ mk → monthly_stats s' !! k = monthly_stats s !! k) ∧
     (monthly_stats s' !! mk = monthly_stats s !! mk ∨
      ∃ md', monthly_stats s' !! mk = Some md' ∧
             month_extends (month_view s mk) md')) ∧
  (∀ t u f n, c = Upload t u f n → why ≠ FreePlanLimitExceeded → s' = s).
Proof.
  intros Hstep.
  assert (∃ mk, op_month_key c = Some mk) as [mk Hop].
  { destruct c as [| | | t]; try by eexists.
    cbn [step] in Hstep. unfold handle_calc in Hstep.
    destruct (_get_previous_month_key t); [| discriminate].
    destruct (_calculate_total_fees s s0). discriminate. }
  assert (lazy_step mk s s') as Hl.
  { destruct (op_shape s c mk Hop) as [(Hl & _) | (u & s2 & s3 & op' & _ & _ & _ & _ & E)].
    - by rewrite Hstep in Hl.
    - rewrite Hstep in E. discriminate. }
  pose proof Hl as ((_ & Hfi & Ho & Hsn & Hse & He) & Hoth & Hm).
  repeat (split; [done |]).
  split; [by exists mk |].
  intros t u f n -> Hwhy. cbn [step] in Hstep.
  destruct (upload_allowed_dec s u f) as [Hok | Hno].
  - destruct (handle_upload_dynamic s t u f n Hok) as (s2 & _ & _ & E).
    rewrite Hstep in E.
    destruct (upload_limit_exceeded s (_get_month_key t) u n); congruence.
  - destruct (handle_upload_static s t u f n Hno) as (why' & E & _).
    congruence.
Qed.

Lemma rejected_operation_state_witness :
  step (new_manager true) (Delete jan5 "storage_X" "f1")
    = (with_monthly_stats (new_manager true) {[ "2024-01" := ∅ ]},
       Rejected DELETE InvalidStorageName) ∧
  files (with_monthly_stats (new_manager true) {[ "2024-01" := ∅ ]})
    = files (new_manager true).
Proof.
  assert (step (new_manager true) (Delete jan5 "storage_X" "f1")
    = (with_monthly_stats (new_manager true) {[ "2024-01" := ∅ ]},
       Rejected DELETE InvalidStorageName)) as H by (vm_compute; reflexivity).
  split; [exact H |].
  exact (proj1 (rejected_operation_state _ _ _ _ _ H)).
Defined.

(** * Settlement *)

Lemma sumZ_map_zero {A} (g : A → Z) (l : list A) :
  (∀ x, g x = 0) → sumZ (map g l) = 0.
Proof.
  intros Hg. induction l as [| x l IH]; [done |].
  cbn [map]. rewrite sumZ_cons, Hg, IH. done.
Qed.

Lemma sumQ_map_zero {A} (g : A → Q) (l : list A) :
  (∀ x, g x = 0%Q) → (sumQ (map g l) == 0)%Q.
Proof.
  intros Hg. induction l as [| x l IH]; [reflexivity |].
  cbn [map]. rewrite sumQ_cons, Hg, IH. reflexivity.
Qed.

(** Fees of a settled month: no update fee, and a usage fee made of the
    storage fees alone. *)
Lemma settled_fees s mk :
  mk ∈ update_fee_settled_for_month s →
  update_fee (_calculate_total_fees s mk).2 = 0 ∧
  usage_fee (_calculate_total_fees s mk).2 =
    Qceiling (Qmax 0
      (sumQ (map (λ p : string * StorageUnit,
               unit_storage_dec p.2
                 (max_size (stat_view (month_view s mk) p.1)))
             (checked_units (is_free_plan s)))
       - 1000)).
Proof.
  intros Hin. rewrite calculate_total_fees_fees.
  rewrite (bool_decide_eq_true_2 _ Hin). unfold fees_of_view.
  cbn [update_fee usage_fee]. split.
  - by apply sumZ_map_zero.
  - apply Qceiling_comp, Q.max_compat; [reflexivity |].
    rewrite (sumQ_map_zero
      (λ p : string * StorageUnit,
         unit_update_dec p.2
           (charged_update_kb true (stat_view (month_view s mk) p.1))))
      by done.
    ring.
Qed.

Lemma handle_calc_settles s t mk :
  _get_previous_month_key t = Some mk →
  mk ∈ update_fee_settled_for_month (handle_calc s t).1 ∧
  ∃ md, monthly_stats (handle_calc s t).1 !! mk = Some md ∧
        month_extends (month_view s mk) md.
Proof.
  intros Hk. rewrite (handle_calc_spec s t mk Hk).
  cbn [fst update_fee_settled_for_month monthly_stats].
  split; [set_solver |]. apply calculate_total_fees_spec.
Qed.

(** C5.  Once month close has run for month [mk], whatever commands
    follow: a fee computation for [mk] reports update fee 0 and a usage fee
    in which only the storage fees count, and so does the response of every
    later accepted operation timestamped in [mk]; neither the settlement nor
    a fee computation changes what is stored for [mk] (a read of any unit's
    statistics returns the same [max_size] and [update_kb_sum]). *)
Theorem settlement_zeroes_update_fee (s : StorageManager) (t : datetime)
    (mk : string) (cs : list Command) :
  _get_previous_month_key t = Some mk →
  let s1 := (handle_calc s t).1 in
  let s2 := run s1 cs in
  let f := (_calculate_total_fees s2 mk).2 in
  (∀ u, stat_view (month_view s1 mk) u = stat_view (month_view s mk) u) ∧
  update_fee f = 0 ∧
  usage_fee f =
    Qceiling (Qmax 0
      (sumQ (map (λ p : string * StorageUnit,
               unit_storage_dec p.2
                 (max_size (stat_view (month_view s2 mk) p.1)))
             (checked_units (is_free_plan s2)))
       - 1000)) ∧
  (∀ u, stat_view (month_view (_calculate_total_fees s2 mk).1 mk) u =
        stat_view (month_view s2 mk) u) ∧
  (∀ c op fees, op_month_key c = Some mk →
     (step s2 c).2 = Accepted op fees → update_fee fees = 0).
Proof.
  intros Hk. cbv zeta.
  destruct (handle_calc_settles s t mk Hk) as (Hin1 & md1 & E1 & X1).
  set (s1 := (handle_calc s t).1) in *.
  assert (mk ∈ update_fee_settled_for_month (run s1 cs)) as Hin2.
  { by apply (proj1 (proj2 (run_frame s1 cs))). }
  set (s2 := run s1 cs) in *.
  split; [| split; [| split; [| split]]].
  - intros u. unfold month_view at 1. rewrite E1. by apply month_extends_view.
  - by apply settled_fees.
  - by apply settled_fees.
  - intros u. apply lazy_step_view, calculate_total_fees_spec.
  - intros c op fees Hop Hacc.
    destruct (op_shape s2 c mk Hop)
      as [(_ & ? & ? & E) | (u & s3 & s4 & op' & Hl & Hc & _ & _ & E)].
    + congruence.
    + rewrite E in Hacc. cbn [snd] in Hacc. injection Hacc as _ <-.
      apply settled_fees.
      destruct Hc as (_ & _ & -> & _). destruct Hl as ((_ & _ & _ & _ & -> & _) & _).
      done.
Qed.

(** January holds 500 KB of update traffic in [storage_A1] before month
    close and after it; the fees computed afterwards carry no update fee. *)
Lemma settlement_zeroes_update_fee_witness :
  _get_previous_month_key feb1 = Some "2024-01" ∧
  update_kb_sum
    (stat_view
       (month_view
          (handle_calc
             (run (new_manager true) [Upload jan5 "storage_A1" "f1" 500])
             feb1).1 "2024-01") "storage_A1") = 500 ∧
  update_fee
    (_calculate_total_fees
       (run (handle_calc
               (run (new_manager true) [Upload jan5 "storage_A1" "f1" 500])
               feb1).1
            [Upload jan20 "storage_A1" "f2" 700]) "2024-01").2 = 0.
Proof.
  assert (_get_previous_month_key feb1 = Some "2024-01") as Hk
    by (vm_compute; reflexivity).
  split; [exact Hk |]. split; [vm_compute; reflexivity |].
  exact (proj1 (proj2 (settlement_zeroes_update_fee
    (run (new_manager true) [Upload jan5 "storage_A1" "f1" 500]) feb1 "2024-01"
    [Upload jan20 "storage_A1" "f2" 700] Hk))).
Defined.

(** * Repeated month close *)

(** C2, counterexample.  After one upload in January, two month closes in a
    row for January return different strings: the first reports the update
    fee, the second reports it as settled. *)
Lemma second_month_close_string_differs :
  render (handle_calc
            (run (new_manager true) [Upload jan5 "storage_A1" "f1" 500]) feb1).2
    = Some "CALC: [500 0 0 0] 1 1 0" ∧
  render (handle_calc
            (handle_calc
               (run (new_manager true) [Upload jan5 "storage_A1" "f1" 500])
               feb1).1 feb1).2
    = Some "CALC: [500 0 0 0] 1 0 0" ∧
  render (handle_calc
            (run (new_manager true) [Upload jan5 "storage_A1" "f1" 500]) feb1).2
  ≠ render (handle_calc
            (handle_calc
               (run (new_manager true) [Upload jan5 "storage_A1" "f1" 500])
               feb1).1 feb1).2.
Proof.
  split; [vm_compute; reflexivity |]. split; [vm_compute; reflexivity |].
  vm_compute. discriminate.
Qed.

Lemma handle_calc_snapshot s t mk :
  _get_previous_month_key t = Some mk →
  calc_reported_sizes_snapshot (handle_calc s t).1 !! mk
    = Some (snapshot_for s mk).
Proof.
  intros Hk. rewrite (handle_calc_spec s t mk Hk).
  cbn [fst calc_reported_sizes_snapshot]. by rewrite lookup_insert_eq.
Qed.

Lemma handle_calc_response s t mk :
  _get_previous_month_key t = Some mk →
  (handle_calc s t).2 =
    CalcReport (size_get (snapshot_for s mk) "storage_A1")
               (size_get (snapshot_for s mk) "storage_A2")
               (size_get (snapshot_for s mk) "storage_B1")
               (size_get (snapshot_for s mk) "storage_B2")
               (_calculate_total_fees s mk).2.
Proof. intros Hk. by rewrite (handle_calc_spec s t mk Hk). Qed.

Lemma snapshot_for_stored s mk sn :
  calc_reported_sizes_snapshot s !! mk = Some sn → snapshot_for s mk = sn.
Proof. intros E. unfold snapshot_for. by rewrite E. Qed.

(** C2, as amended.  Month closes that resolve to the same month report the
    same four snapshot sizes, whatever commands run in between, and every
    one after the first reports update fee 0.  Two month closes after the
    first return identical strings when no upload, delete or update
    timestamped in that month runs between them. *)
Theorem repeated_calc (s : StorageManager) (t1 t2 t3 : datetime) (mk : string)
    (cs cs' : list Command) :
  _get_previous_month_key t1 = Some mk →
  _get_previous_month_key t2 = Some mk →
  _get_previous_month_key t3 = Some mk →
  let r1 := handle_calc s t1 in
  let r2 := handle_calc (run r1.1 cs) t2 in
  let r3 := handle_calc (run r2.1 cs') t3 in
  (∃ a1 a2 b1 b2 f1 f2,
     r1.2 = CalcReport a1 a2 b1 b2 f1 ∧
     r2.2 = CalcReport a1 a2 b1 b2 f2 ∧
     update_fee f2 = 0) ∧
  (Forall (λ c, op_month_key c ≠ Some mk) cs' → render r3.2 = render r2.2).
Proof.
  intros Hk1 Hk2 Hk3. cbv zeta.
  pose proof (handle_calc_snapshot s t1 mk Hk1) as Hsn1.
  destruct (handle_calc_settles s t1 mk Hk1) as (Hin1 & _).
  set (s1 := (handle_calc s t1).1) in *.
  destruct (run_frame s1 cs) as (Hfree2 & Hse2 & Hsn2 & _).
  specialize (Hsn2 mk _ Hsn1). apply Hse2 in Hin1.
  set (s2 := run s1 cs) in *.
  split.
  - do 6 eexists.
    split; [by rewrite (handle_calc_response s t1 mk Hk1) |].
    split; [rewrite (handle_calc_response s2 t2 mk Hk2),
              (snapshot_for_stored _ _ _ Hsn2); reflexivity |].
    by apply settled_fees.
  - intros Hall.
    pose proof (handle_calc_snapshot s2 t2 mk Hk2) as Hsn3.
    rewrite (snapshot_for_stored _ _ _ Hsn2) in Hsn3.
    destruct (handle_calc_settles s2 t2 mk Hk2) as (Hin3 & md3 & E3 & X3).
    assert (is_free_plan (handle_calc s2 t2).1 = is_free_plan s2) as Hfree3.
    { by rewrite (handle_calc_spec s2 t2 mk Hk2). }
    set (s3 := (handle_calc s2 t2).1) in *.
    destruct (run_frame s3 cs') as (Hfree4 & Hse4 & Hsn4 & Hm4).
    specialize (Hsn4 mk _ Hsn3). apply Hse4 in Hin3.
    destruct (Hm4 mk md3 E3 Hall) as (md4 & E4 & X4).
    set (s4 := run s3 cs') in *.
    rewrite (handle_calc_response s4 t3 mk Hk3),
      (handle_calc_response s2 t2 mk Hk2),
      (snapshot_for_stored _ _ _ Hsn4), (snapshot_for_stored _ _ _ Hsn2).
    rewrite !calculate_total_fees_fees.
    rewrite (bool_decide_eq_true_2 _ Hin3), (bool_decide_eq_true_2 _ Hin1).
    rewrite Hfree4, Hfree3.
    rewrite (fees_of_view_ext _ _ (stat_view (month_view s4 mk))
               (stat_view (month_view s2 mk))); [done |].
    intros k. unfold month_view at 1. rewrite E4.
    rewrite (month_extends_view _ _ k X4). by apply month_extends_view.
Qed.

Lemma repeated_calc_witness :
  _get_previous_month_key feb1 = Some "2024-01" ∧
  Forall (λ c, op_month_key c ≠ Some "2024-01")
    [Upload feb3 "storage_A2" "g" 40] ∧
  render (handle_calc
    (run (handle_calc
       (run (handle_calc
               (run (new_manager true) [Upload jan5 "storage_A1" "f1" 500])
               feb1).1
            [Upload jan20 "storage_A1" "f2" 700]) feb1).1
       [Upload feb3 "storage_A2" "g" 40]) feb1).2
  = render (handle_calc
       (run (handle_calc
               (run (new_manager true) [Upload jan5 "storage_A1" "f1" 500])
               feb1).1
            [Upload jan20 "storage_A1" "f2" 700]) feb1).2.
Proof.
  assert (_get_previous_month_key feb1 = Some "2024-01") as Hk
    by (vm_compute; reflexivity).
  assert (Forall (λ c, op_month_key c ≠ Some "2024-01")
            [Upload feb3 "storage_A2" "g" 40]) as Hall.
  { repeat constructor. vm_compute. discriminate. }
  split; [exact Hk |]. split; [exact Hall |].
  exact (proj2 (repeated_calc
    (run (new_manager true) [Upload jan5 "storage_A1" "f1" 500])
    feb1 feb1 feb1 "2024-01" [Upload jan20 "storage_A1" "f2" 700]
    [Upload feb3 "storage_A2" "g" 40] Hk Hk Hk) Hall).
Defined.

(** * Snapshot and seeding *)

(** C6.  A month's [max_size] does not start from the occupancy at the end
    of the previous month, as the docstring of [_ensure_month_init] has it,
    but from whatever the last first-time month close captured.  A
    150 000 KB file is uploaded in January, month close runs on 1 February,
    the file is deleted on 3 February, and nothing happens in March.  When
    April is first touched, [storage_A1] is empty and has been since
    February, yet April's [max_size] starts from the 150 000 KB captured
    for January, and April is charged a storage fee of 2 for a unit holding
    10 KB. *)
Lemma april_seeded_from_january :
  size_get
    (current_storage_size
       (run (new_manager true)
          [Upload jan5 "storage_A1" "f1" 150000; Calc feb1;
           Delete feb3 "storage_A1" "f1"])) "storage_A1" = 0 ∧
  monthly_stats
    (run (new_manager true)
       [Upload jan5 "storage_A1" "f1" 150000; Calc feb1;
        Delete feb3 "storage_A1" "f1"]) !! "2024-04" = None ∧
  stats_lookup
    (_ensure_month_init
       (run (new_manager true)
          [Upload jan5 "storage_A1" "f1" 150000; Calc feb1;
           Delete feb3 "storage_A1" "f1"]) "2024-04")
    "2024-04" "storage_A1" = Some (mkMonthlyStats 150000 0) ∧
  (step
     (run (new_manager true)
        [Upload jan5 "storage_A1" "f1" 150000; Calc feb1;
         Delete feb3 "storage_A1" "f1"])
     (Upload apr2 "storage_A1" "f2" 10)).2 = Accepted UPLOAD (mkFees 2 1 0).
Proof. split; [| split; [| split]]; vm_compute; reflexivity. Qed.

(** A month first touched before any month close starts from zero: the
    file uploaded in January is still stored on 3 February, and February's
    [max_size] for its unit is 0. *)
Example february_seeded_from_nothing :
  stats_lookup
    (run (new_manager true)
       [Upload jan5 "storage_A1" "f1" 150000; Delete feb3 "storage_A1" "f1"])
    "2024-02" "storage_A1" = Some (mkMonthlyStats 0 150000).
Proof. vm_compute. reflexivity. Qed.




(** * Accepted operations *)

Lemma lazy_step_present_view mk s s2 md2 :
  lazy_step mk s s2 → monthly_stats s2 !! mk = Some md2 →
  month_extends (month_view s mk) md2.
Proof.
  intros (_ & _ & [E | (md' & E & X)]) E2.
  - unfold month_view. rewrite <- E, E2. apply month_extends_refl.
  - rewrite E in E2. by injection E2 as <-.
Qed.

Lemma lazy_step_stats_lookup mk s s' mk' u' st :
  lazy_step mk s s' → stats_lookup s mk' u' = Some st →
  stats_lookup s' mk' u' = Some st.
Proof.
  intros Hl. unfold stats_lookup.
  destruct (monthly_stats s !! mk') as [md|] eqn:E; [| done].
  cbn [mbind option_bind]. intros Eu.
  destruct (lazy_step_month _ _ _ _ _ Hl E) as (md' & -> & X).
  cbn [mbind option_bind]. by eapply month_extends_lookup.
Qed.

Lemma accepted_stats mk u (g : MonthlyStats → MonthlyStats) s s2 s3 s' md2 :
  lazy_step mk s s2 → monthly_stats s2 !! mk = Some md2 →
  monthly_stats s3 = <[mk := <[u := g (stat_view md2 u)]> md2]> (monthly_stats s2) →
  lazy_step mk s3 s' →
  stats_updated mk u g s s'.
Proof.
  intros Hl E2 E3 Hl3. split.
  - apply (lazy_step_stats_lookup mk s3 s'); [done |].
    unfold stats_lookup. rewrite E3, lookup_insert_eq. cbn [mbind option_bind].
    rewrite lookup_insert_eq. do 2 f_equal.
    apply month_extends_view. by eapply lazy_step_present_view.
  - intros mk' u' st Hne Hst.
    apply (lazy_step_stats_lookup mk s3 s'); [done |].
    pose proof (lazy_step_stats_lookup _ _ _ _ _ _ Hl Hst) as H2.
    unfold stats_lookup in *. rewrite E3.
    destruct (decide (mk' = mk)) as [-> | Hmk].
    + rewrite lookup_insert_eq. cbn [mbind option_bind].
      rewrite E2 in H2. cbn [mbind option_bind] in H2.
      rewrite lookup_insert_ne; [done | congruence].
    + by rewrite lookup_insert_ne.
Qed.

Lemma handle_upload_accepted s t u f size :
  upload_allowed s u f →
  upload_limit_exceeded s (_get_month_key t) u size = false →
  ∃ s' fees,
    handle_upload s t u f size = (s', Accepted UPLOAD fees) ∧
    files s' = <[f := mkFile f size u]> (files s) ∧
    current_storage_size s' =
      <[u := size_get (current_storage_size s) u + size]>
        (current_storage_size s) ∧
    stats_updated (_get_month_key t) u
      (λ st, mkMonthlyStats
               (Z.max (max_size st) (size_get (current_storage_size s) u + size))
               (update_kb_sum st + size)) s s'.
Proof.
  intros Hok Hlim.
  destruct (handle_upload_dynamic s t u f size Hok) as (s2 & Hl & [md2 E2] & ->).
  rewrite Hlim. do 2 eexists. split; [reflexivity |].
  set (mk := _get_month_key t) in *.
  pose proof (upload_perform_spec s2 mk u f size md2 E2) as Hp.
  set (s3 := upload_perform s2 mk u f size) in *.
  destruct (calculate_total_fees_spec s3 mk) as (Hl3 & _).
  pose proof Hl as ((_ & Hfi & Ho & _) & _).
  pose proof Hl3 as ((_ & Hfi3 & Ho3 & _) & _).
  pose proof (f_equal files Hp) as F3.
  pose proof (f_equal current_storage_size Hp) as O3.
  pose proof (f_equal monthly_stats Hp) as M3.
  cbn [files current_storage_size monthly_stats] in F3, O3, M3.
  clearbody s3. clear Hp.
  rewrite Hfi3, Ho3, F3, O3, Hfi, Ho.
  split; [done |]. split; [done |].
  eapply accepted_stats; [exact Hl | exact E2 | | exact Hl3].
  rewrite M3. by rewrite Ho.
Qed.

Lemma handle_delete_accepted s t u f file :
  file_in_unit s u f file →
  delete_limit_exceeded s (_get_month_key t) u (File_size file) = false →
  ∃ s' fees,
    handle_delete s t u f = (s', Accepted DELETE fees) ∧
    files s' = delete f (files s) ∧
    current_storage_size s' =
      <[u := size_get (current_storage_size s) u - File_size file]>
        (current_storage_size s) ∧
    stats_updated (_get_month_key t) u
      (λ st, mkMonthlyStats (max_size st) (update_kb_sum st + File_size file))
      s s'.
Proof.
  intros Hok Hlim.
  destruct (handle_delete_dynamic s t u f file Hok) as (s2 & Hl & [md2 E2] & ->).
  rewrite Hlim. do 2 eexists. split; [reflexivity |].
  set (mk := _get_month_key t) in *.
  pose proof (delete_perform_spec s2 mk u f file md2 E2) as Hp.
  set (s3 := delete_perform s2 mk u f file) in *.
  destruct (calculate_total_fees_spec s3 mk) as (Hl3 & _).
  pose proof Hl as ((_ & Hfi & Ho & _) & _).
  pose proof Hl3 as ((_ & Hfi3 & Ho3 & _) & _).
  pose proof (f_equal files Hp) as F3.
  pose proof (f_equal current_storage_size Hp) as O3.
  pose proof (f_equal monthly_stats Hp) as M3.
  cbn [files current_storage_size monthly_stats] in F3, O3, M3.
  clearbody s3. clear Hp.
  rewrite Hfi3, Ho3, F3, O3, Hfi, Ho.
  destruct Hok as (_ & _ & Hs). rewrite Hs.
  split; [done |]. split; [done |].
  eapply accepted_stats; [exact Hl | exact E2 | | exact Hl3].
  by rewrite M3.
Qed.

Lemma handle_update_accepted s t u f file new_size :
  file_in_unit s u f file →
  update_limit_exceeded s (_get_month_key t) u (File_size file) new_size = false →
  ∃ s' fees,
    handle_update s t u f new_size = (s', Accepted UPDATE fees) ∧
    files s' = <[f := mkFile (File_name file) new_size u]> (files s) ∧
    current_storage_size s' =
      <[u := size_get (current_storage_size s) u + (new_size - File_size file)]>
        (current_storage_size s) ∧
    stats_updated (_get_month_key t) u
      (λ st, mkMonthlyStats
               (Z.max (max_size st)
                  (size_get (current_storage_size s) u
                   + (new_size - File_size file)))
               (update_kb_sum st + (File_size file + new_size))) s s'.
Proof.
  intros Hok Hlim.
  destruct (handle_update_dynamic s t u f file new_size Hok)
    as (s2 & Hl & [md2 E2] & ->).
  rewrite Hlim. do 2 eexists. split; [reflexivity |].
  set (mk := _get_month_key t) in *.
  pose proof (update_perform_spec s2 mk u f file new_size md2 E2) as Hp.
  set (s3 := update_perform s2 mk u f file new_size) in *.
  destruct (calculate_total_fees_spec s3 mk) as (Hl3 & _).
  pose proof Hl as ((_ & Hfi & Ho & _) & _).
  pose proof Hl3 as ((_ & Hfi3 & Ho3 & _) & _).
  pose proof (f_equal files Hp) as F3.
  pose proof (f_equal current_storage_size Hp) as O3.
  pose proof (f_equal monthly_stats Hp) as M3.
  cbn [files current_storage_size monthly_stats] in F3, O3, M3.
  clearbody s3. clear Hp.
  rewrite Hfi3, Ho3, F3, O3, Hfi, Ho.
  destruct Hok as (_ & _ & Hs). rewrite Hs.
  split; [done |]. split; [done |].
  eapply accepted_stats; [exact Hl | exact E2 | | exact Hl3].
  rewrite M3. by rewrite Ho.
Qed.

(** Every step is quiet or commits one upload, delete or update. *)
Lemma step_cases s c :
  quiet_step s (step s c).1 ∨
  (∃ t u f n fees,
     c = Upload t u f n ∧ upload_allowed s u f ∧
     (step s c).2 = Accepted UPLOAD fees ∧
     files (step s c).1 = <[f := mkFile f n u]> (files s) ∧
     current_storage_size (step s c).1 =
       <[u := size_get (current_storage_size s) u + n]>
         (current_storage_size s) ∧
     stats_updated (_get_month_key t) u
       (λ st, mkMonthlyStats
                (Z.max (max_size st) (size_get (current_storage_size s) u + n))
                (update_kb_sum st + n)) s (step s c).1) ∨
  (∃ t u f file fees,
     c = Delete t u f ∧ file_in_unit s u f file ∧
     (step s c).2 = Accepted DELETE fees ∧
     files (step s c).1 = delete f (files s) ∧
     current_storage_size (step s c).1 =
       <[u := size_get (current_storage_size s) u - File_size file]>
         (current_storage_size s) ∧
     stats_updated (_get_month_key t) u
       (λ st, mkMonthlyStats (max_size st) (update_kb_sum st + File_size file))
       s (step s c).1) ∨
  (∃ t u f n file fees,
     c = Update t u f n ∧ file_in_unit s u f file ∧
     (step s c).2 = Accepted UPDATE fees ∧
     files (step s c).1 = <[f := mkFile (File_name file) n u]> (files s) ∧
     current_storage_size (step s c).1 =
       <[u := size_get (current_storage_size s) u + (n - File_size file)]>
         (current_storage_size s) ∧
     stats_updated (_get_month_key t) u
       (λ st, mkMonthlyStats
                (Z.max (max_size st)
                   (size_get (current_storage_size s) u + (n - File_size file)))
                (update_kb_sum st + (File_size file + n))) s (step s c).1).
Proof.
  assert (∀ mk s', lazy_step mk s s' → quiet_step s s') as Hquiet.
  { intros mk s' Hl. exists mk, s'. split; [done |].
    destruct Hl as ((_ & ? & ? & _) & _). done. }
  destruct c as [t u f n | t u f | t u f n | t]; cbn [step].
  - destruct (upload_allowed_dec s u f) as [Hok | Hno].
    + destruct (upload_limit_exceeded s (_get_month_key t) u n) eqn:Hlim.
      * left. destruct (handle_upload_dynamic s t u f n Hok) as (s2 & Hl & _ & ->).
        rewrite Hlim. by eapply Hquiet.
      * right. left.
        destruct (handle_upload_accepted s t u f n Hok Hlim)
          as (s' & fees & -> & ? & ? & ?).
        by exists t, u, f, n, fees.
    + left. destruct (handle_upload_static s t u f n Hno) as (why & -> & _).
      apply (Hquiet (_get_month_key t)), lazy_step_refl.
  - destruct (file_in_unit_dec s u f) as [[file Hok] | Hno].
    + destruct (delete_limit_exceeded s (_get_month_key t) u (File_size file))
        eqn:Hlim.
      * left.
        destruct (handle_delete_dynamic s t u f file Hok) as (s2 & Hl & _ & ->).
        rewrite Hlim. by eapply Hquiet.
      * right. right. left.
        destruct (handle_delete_accepted s t u f file Hok Hlim)
          as (s' & fees & -> & ? & ? & ?).
        by exists t, u, f, file, fees.
    + left. destruct (handle_delete_static s t u f Hno) as (why & -> & _).
      eapply Hquiet, ensure_month_init_lazy.
  - destruct (file_in_unit_dec s u f) as [[file Hok] | Hno].
    + destruct (update_limit_exceeded s (_get_month_key t) u (File_size file) n)
        eqn:Hlim.
      * left.
        destruct (handle_update_dynamic s t u f file n Hok) as (s2 & Hl & _ & ->).
        rewrite Hlim. by eapply Hquiet.
      * right. right. right.
        destruct (handle_update_accepted s t u f file n Hok Hlim)
          as (s' & fees & -> & ? & ? & ?).
        by exists t, u, f, n, file, fees.
    + left. destruct (handle_update_static s t u f n Hno) as (why & -> & _).
      eapply Hquiet, ensure_month_init_lazy.
  - left. destruct (_get_previous_month_key t) as [mk|] eqn:Hk.
    + rewrite (handle_calc_spec s t mk Hk). cbn [fst].
      exists mk, (_calculate_total_fees s mk).1.
      split; [apply calculate_total_fees_spec | done].
    + rewrite (handle_calc_raise s t Hk). eapply Hquiet, (lazy_step_refl "").
Qed.

(** * Conservation *)

Lemma unit_files_total_empty u : unit_files_total ∅ u = 0.
Proof. unfold unit_files_total. apply map_fold_empty. Qed.

Lemma unit_files_total_insert fs f file u :
  fs !! f = None →
  unit_files_total (<[f := file]> fs) u
    = unit_files_total fs u + file_contrib u file.
Proof.
  intros Hnone. unfold unit_files_total.
  rewrite map_fold_insert_L; [| | done].
  - unfold file_contrib. destruct (decide (File_storage file = u)); lia.
  - intros j1 j2 z1 z2 y _ _ _.
    destruct (decide (File_storage z1 = u)), (decide (File_storage z2 = u)); lia.
Qed.

Lemma unit_files_total_delete fs f file u :
  fs !! f = Some file →
  unit_files_total (delete f fs) u
    = unit_files_total fs u - file_contrib u file.
Proof.
  intros E.
  rewrite <- (insert_delete_id fs f file E) at 2.
  rewrite unit_files_total_insert by apply lookup_delete_eq. lia.
Qed.

Lemma unit_files_total_replace fs f file file' u :
  fs !! f = Some file →
  unit_files_total (<[f := file']> fs) u
    = unit_files_total fs u - file_contrib u file + file_contrib u file'.
Proof.
  intros E. rewrite <- insert_delete_eq.
  rewrite unit_files_total_insert by apply lookup_delete_eq.
  rewrite (unit_files_total_delete _ _ _ _ E). lia.
Qed.

Lemma size_get_insert (d : gmap string Z) k x j :
  size_get (<[k := x]> d) j = if decide (k = j) then x else size_get d j.
Proof.
  unfold size_get. destruct (decide (k = j)) as [-> | Hne].
  - by rewrite lookup_insert_eq.
  - by rewrite lookup_insert_ne.
Qed.

Lemma step_conserved s c : conserved s → conserved (step s c).1.
Proof.
  intros Hc.
  destruct (step_cases s c)
    as [(mk & s1 & _ & Hfi & Ho & _)
       | [(t & u & f & n & fees & _ & (Hnone & _) & _ & Hfi & Ho & _)
       | [(t & u & f & file & fees & _ & (_ & Hf & Hs) & _ & Hfi & Ho & _)
       | (t & u & f & n & file & fees & _ & (_ & Hf & Hs) & _ & Hfi & Ho & _)]]];
    intros k; rewrite Hfi, Ho.
  - apply Hc.
  - rewrite size_get_insert, (unit_files_total_insert _ _ _ _ Hnone).
    unfold file_contrib. cbn [File_storage File_size].
    rewrite <- (Hc k). destruct (decide (u = k)) as [-> | ?]; lia.
  - rewrite size_get_insert, (unit_files_total_delete _ _ _ _ Hf).
    unfold file_contrib. rewrite Hs.
    rewrite <- (Hc k). destruct (decide (u = k)) as [-> | ?]; lia.
  - rewrite size_get_insert, (unit_files_total_replace _ _ _ _ _ Hf).
    unfold file_contrib. cbn [File_storage File_size]. rewrite Hs.
    rewrite <- (Hc k). destruct (decide (u = k)) as [-> | ?]; lia.
Qed.

Lemma run_conserved s cs : conserved s → conserved (run s cs).
Proof.
  revert s. induction cs as [| c cs IH]; intros s Hc; cbn [run]; [done |].
  by apply IH, step_conserved.
Qed.

(** C7.  In every manager reached from a new one by any sequence of
    commands, so in particular after every accepted upload, delete or
    update, the occupancy of each unit equals the sum of the sizes of the
    files registered to that unit. *)
Theorem conservation (free : bool) (cs : list Command) (u : string) :
  size_get (current_storage_size (run (new_manager free) cs)) u
    = unit_files_total (files (run (new_manager free) cs)) u.
Proof.
  apply run_conserved. intros k. cbn [new_manager files current_storage_size].
  by rewrite unit_files_total_empty.
Qed.

Example occupancy_after_three_commands :
  size_get
    (current_storage_size
       (run (new_manager true)
          [Upload jan5 "storage_A1" "f1" 500; Upload jan5 "storage_A1" "f2" 70;
           Update jan20 "storage_A1" "f1" 30])) "storage_A1" = 100.
Proof. vm_compute. reflexivity. Qed.

(** * Monotone statistics *)

(** C8, counterexample.  An accepted upload with a negative size lowers
    January's [update_kb_sum] of [storage_A1] from 500 to 400. *)
Lemma negative_upload_lowers_update_sum :
  stats_lookup (run (new_manager true) [Upload jan5 "storage_A1" "f1" 500])
    "2024-01" "storage_A1" = Some (mkMonthlyStats 500 500) ∧
  step (run (new_manager true) [Upload jan5 "storage_A1" "f1" 500])
       (Upload jan20 "storage_A1" "f2" (-100))
    = (run (new_manager true)
         [Upload jan5 "storage_A1" "f1" 500;
          Upload jan20 "storage_A1" "f2" (-100)],
       Accepted UPLOAD (mkFees 1 1 0)) ∧
  stats_lookup
    (run (new_manager true)
       [Upload jan5 "storage_A1" "f1" 500;
        Upload jan20 "storage_A1" "f2" (-100)])
    "2024-01" "storage_A1" = Some (mkMonthlyStats 500 400).
Proof. split; [| split]; vm_compute; reflexivity. Qed.

Lemma stats_lookup_view s mk u st :
  stats_lookup s mk u = Some st → stat_view (month_view s mk) u = st.
Proof.
  unfold stats_lookup, stat_view, month_view.
  destruct (monthly_stats s !! mk) as [md|]; [| done].
  cbn [mbind option_bind]. by intros ->.
Qed.

Lemma quiet_step_stats_lookup s s' mk u st :
  quiet_step s s' → stats_lookup s mk u = Some st →
  stats_lookup s' mk u = Some st.
Proof.
  intros (mk' & s1 & Hl & _ & _ & Hms) Hst.
  pose proof (lazy_step_stats_lookup _ _ _ _ _ _ Hl Hst) as H1.
  unfold stats_lookup in *. by rewrite Hms.
Qed.

Lemma stats_updated_lookup mk0 u0 g s s' mk u st :
  stats_updated mk0 u0 g s s' → stats_lookup s mk u = Some st →
  stats_lookup s' mk u = Some (if decide ((mk, u) = (mk0, u0)) then g st else st).
Proof.
  intros (Hnew & Hold) Hst.
  destruct (decide ((mk, u) = (mk0, u0))) as [[= -> ->] | Hne].
  - by rewrite Hnew, (stats_lookup_view _ _ _ _ Hst).
  - by apply Hold.
Qed.

Lemma step_files_nonneg s c :
  files_nonneg s → nonneg_command c → files_nonneg (step s c).1.
Proof.
  intros Hfs Hc.
  destruct (step_cases s c)
    as [(mk & s1 & _ & Hfi & _)
       | [(t & u & f & n & fees & -> & _ & _ & Hfi & _)
       | [(t & u & f & file & fees & -> & _ & _ & Hfi & _)
       | (t & u & f & n & file & fees & -> & _ & _ & Hfi & _)]]];
    intros k x; rewrite Hfi.
  - apply Hfs.
  - destruct (decide (f = k)) as [-> | Hne].
    + rewrite lookup_insert_eq. by intros [= <-].
    + rewrite lookup_insert_ne by done. apply Hfs.
  - destruct (decide (f = k)) as [-> | Hne].
    + by rewrite lookup_delete_eq.
    + rewrite lookup_delete_ne by done. apply Hfs.
  - destruct (decide (f = k)) as [-> | Hne].
    + rewrite lookup_insert_eq. by intros [= <-].
    + rewrite lookup_insert_ne by done. apply Hfs.
Qed.

Lemma step_stats_monotone s c mk u st :
  stats_lookup s mk u = Some st →
  ∃ st', stats_lookup (step s c).1 mk u = Some st' ∧
    max_size st ≤ max_size st' ∧
    (files_nonneg s → nonneg_command c →
       update_kb_sum st ≤ update_kb_sum st').
Proof.
  intros Hst.
  destruct (step_cases s c)
    as [Hq
       | [(t & u0 & f & n & fees & -> & _ & _ & _ & _ & Hup)
       | [(t & u0 & f & file & fees & -> & (_ & Hf & _) & _ & _ & _ & Hup)
       | (t & u0 & f & n & file & fees & -> & (_ & Hf & _) & _ & _ & _ & Hup)]]].
  - exists st. split; [by eapply quiet_step_stats_lookup | done].
  - eexists. split; [by eapply stats_updated_lookup |].
    destruct (decide _); cbn [max_size update_kb_sum nonneg_command]; lia.
  - eexists. split; [by eapply stats_updated_lookup |].
    destruct (decide _); cbn [max_size update_kb_sum nonneg_command];
      [| lia].
    split; [lia |]. intros Hfs _. specialize (Hfs f file Hf). lia.
  - eexists. split; [by eapply stats_updated_lookup |].
    destruct (decide _); cbn [max_size update_kb_sum nonneg_command];
      [| lia].
    split; [lia |]. intros Hfs Hn. specialize (Hfs f file Hf). lia.
Qed.

(** C8, as amended.  Across any sequence of commands, an entry of the
    monthly statistics, once it exists, stays, and its [max_size] never
    decreases.  Its [update_kb_sum] never decreases either when no
    registered file has a negative size and no upload or update in the
    sequence passes one. *)
Theorem stats_never_decrease (s : StorageManager) (cs : list Command)
    (mk u : string) (st : MonthlyStats) :
  stats_lookup s mk u = Some st →
  ∃ st', stats_lookup (run s cs) mk u = Some st' ∧
    max_size st ≤ max_size st' ∧
    (files_nonneg s → Forall nonneg_command cs →
       update_kb_sum st ≤ update_kb_sum st').
Proof.
  revert s st. induction cs as [| c cs IH]; intros s st Hst; cbn [run].
  - exists st. split; [done |]. split; lia.
  - destruct (step_stats_monotone s c mk u st Hst) as (st1 & H1 & Hm1 & Hu1).
    destruct (IH _ _ H1) as (st2 & H2 & Hm2 & Hu2).
    exists st2. split; [done |]. split; [lia |].
    intros Hfs Hall. apply Forall_cons in Hall as [Hc Hall].
    specialize (Hu1 Hfs Hc).
    specialize (Hu2 (step_files_nonneg s c Hfs Hc) Hall). lia.
Qed.

Lemma stats_never_decrease_witness :
  stats_lookup (run (new_manager true) [Upload jan5 "storage_A1" "f1" 500])
    "2024-01" "storage_A1" = Some (mkMonthlyStats 500 500) ∧
  files_nonneg (run (new_manager true) [Upload jan5 "storage_A1" "f1" 500]) ∧
  Forall nonneg_command
    [Update jan20 "storage_A1" "f1" 30; Delete jan20 "storage_A1" "f1"] ∧
  ∃ st', stats_lookup
           (run (run (new_manager true) [Upload jan5 "storage_A1" "f1" 500])
                [Update jan20 "storage_A1" "f1" 30;
                 Delete jan20 "storage_A1" "f1"])
           "2024-01" "storage_A1" = Some st' ∧
    max_size (mkMonthlyStats 500 500) ≤ max_size st' ∧
    update_kb_sum (mkMonthlyStats 500 500) ≤ update_kb_sum st'.
Proof.
  assert (stats_lookup
    (run (new_manager true) [Upload jan5 "storage_A1" "f1" 500])
    "2024-01" "storage_A1" = Some (mkMonthlyStats 500 500)) as H
    by (vm_compute; reflexivity).
  assert (files_nonneg
    (run (new_manager true) [Upload jan5 "storage_A1" "f1" 500])) as Hfs.
  { assert (files (run (new_manager true) [Upload jan5 "storage_A1" "f1" 500])
            = {[ "f1" := mkFile "f1" 500 "storage_A1" ]}) as E
      by (vm_compute; reflexivity).
    intros f file. rewrite E. intros [_ <-]%lookup_singleton_Some.
    cbn [File_size]. lia. }
  assert (Forall nonneg_command
    [Update jan20 "storage_A1" "f1" 30; Delete jan20 "storage_A1" "f1"]) as Hall.
  { repeat constructor. cbn [nonneg_command]. lia. }
  split; [exact H |]. split; [exact Hfs |]. split; [exact Hall |].
  destruct (stats_never_decrease _
    [Update jan20 "storage_A1" "f1" 30; Delete jan20 "storage_A1" "f1"]
    _ _ _ H) as (st' & E & Hm & Hu).
  exists st'. split; [exact E |]. split; [exact Hm | exact (Hu Hfs Hall)].
Defined.

(** * Sizes are taken as given *)

Lemma stats_updated_new mk u g s s' :
  stats_updated mk u g s s' →
  stats_lookup s' mk u = Some (g (stat_view (month_view s mk) u)).
Proof. by intros [H _]. Qed.




(** * The limit check and settlement *)

Lemma would_exceed_with_settled s settled mk op pmax kb :
  (_would_exceed_free_plan_limit (with_settled s settled) mk op pmax kb).2
    = (_would_exceed_free_plan_limit s mk op pmax kb).2.
Proof. rewrite !would_exceed_result. reflexivity. Qed.

(** C9.  The answer of the limit check does not depend on the set of
    settled months: it charges every free-plan unit's stored
    [update_kb_sum], plus the operation's traffic on its own unit, settled
    or not.  So after an upload of 90 000 MB to [storage_A2] in January
    (fees 90 + 900) and month close, January's fees read 90 and 0, yet a
    further January upload of 2 000 MB is rejected on a simulated total of
    92 + 920. *)
Theorem limit_check_ignores_settlement (s : StorageManager)
    (settled : gset string) (mk op : string) (pmax kb : Z) :
  (_would_exceed_free_plan_limit (with_settled s settled) mk op pmax kb).2
    = (_would_exceed_free_plan_limit s mk op pmax kb).2 ∧
  (_would_exceed_free_plan_limit s mk op pmax kb).2
    = is_free_plan s &&
      (1000 <?
       sumZ (map (λ p : string * StorageUnit,
               unit_storage_fee p.2
                 (if decide (p.1 = op) then pmax
                  else max_size (stat_view (month_view s mk) p.1))
               + unit_update_fee p.2
                   (if decide (p.1 = op)
                    then update_kb_sum (stat_view (month_view s mk) p.1) + kb
                    else update_kb_sum (stat_view (month_view s mk) p.1)))
             (checked_units true))) ∧
  "2024-01" ∈ update_fee_settled_for_month
    (run (new_manager true)
       [Upload jan5 "storage_A2" "f1" 90000000; Calc feb1]) ∧
  (_calculate_total_fees
     (run (new_manager true)
        [Upload jan5 "storage_A2" "f1" 90000000; Calc feb1]) "2024-01").2
    = mkFees 90 0 0 ∧
  sim_total
    (stat_view
       (month_view
          (run (new_manager true)
             [Upload jan5 "storage_A2" "f1" 90000000; Calc feb1]) "2024-01"))
    "storage_A2" 92000000 2000000 = 1012 ∧
  (step
     (run (new_manager true)
        [Upload jan5 "storage_A2" "f1" 90000000; Calc feb1])
     (Upload jan20 "storage_A2" "f2" 2000000)).2
    = Rejected UPLOAD FreePlanLimitExceeded.
Proof.
  split; [apply would_exceed_with_settled |].
  split; [apply would_exceed_result |].
  split.
  { apply (bool_decide_unpack _). vm_compute. exact I. }
  split; [| split]; vm_compute; reflexivity.
Qed.

(** * What a read leaves behind

    The limit check and the fee computation write to [monthly_stats] (they
    create the month and default entries), but never in a way a fee
    computation made at that moment can see. *)

Lemma lazy_step_view_any mk s s' mk' k :
  lazy_step mk s s' →
  stat_view (month_view s' mk') k = stat_view (month_view s mk') k.
Proof.
  intros Hl. destruct (decide (mk' = mk)) as [-> | Hne].
  - by apply lazy_step_view.
  - destruct Hl as ((_ & _ & _ & _ & _ & He) & Ho & _).
    unfold month_view. by rewrite (Ho mk' Hne), He.
Qed.

Lemma lazy_step_fees mk s s' mk' :
  lazy_step mk s s' →
  (_calculate_total_fees s' mk').2 = (_calculate_total_fees s mk').2.
Proof.
  intros Hl. rewrite !calculate_total_fees_fees.
  pose proof Hl as ((-> & _ & _ & _ & -> & _) & _).
  apply fees_of_view_ext. intros k. by eapply lazy_step_view_any.
Qed.

Lemma calc_loop_all_present (names : list string) settled md a :
  (∀ n, n ∈ names → is_Some (md !! n)) →
  (calc_loop names settled md a).1 = md.
Proof.
  revert md a. induction names as [| n names IH]; intros md a Hall; [done |].
  cbn [calc_loop].
  destruct (units_lookup STORAGE_UNITS n) as [unit|]; [| done].
  destruct (Hall n ltac:(left)) as [st Hst].
  rewrite (dd_get_present _ _ _ Hst).
  apply IH. intros k Hk. apply Hall. by right.
Qed.

Lemma calc_loop_makes_present (l : list (string * StorageUnit)) settled :
  (∀ p, p ∈ l → units_lookup STORAGE_UNITS p.1 = Some p.2) →
  ∀ md a n, n ∈ l.*1 ∨ is_Some (md !! n) →
    is_Some ((calc_loop l.*1 settled md a).1 !! n).
Proof.
  induction l as [| [k u] l IH]; intros Hl md a n Hn.
  - destruct Hn as [Hn | Hn]; [by apply elem_of_nil in Hn | done].
  - pose proof (Hl (k, u) ltac:(left)) as Hk. simpl in Hk.
    rewrite fmap_cons. cbn [calc_loop fst]. rewrite Hk.
    destruct (dd_get_spec md k) as (_ & Hx & Hpres).
    destruct (dd_get md k) as [md1 st]. cbn [fst snd] in *.
    apply (IH (λ p Hp, Hl p (list_elem_of_further _ _ _ Hp))).
    destruct Hn as [Hn | [x Hx']].
    + rewrite fmap_cons in Hn. apply elem_of_cons in Hn as [-> | Hn].
      * right. by eexists.
      * by left.
    + right. exists x. by eapply month_extends_lookup.
Qed.

Lemma with_monthly_stats_id s : with_monthly_stats s (monthly_stats s) = s.
Proof. by destruct s. Qed.

Lemma calculate_total_fees_state s mk :
  ∃ md, monthly_stats (_calculate_total_fees s mk).1 !! mk = Some md ∧
        ∀ n, n ∈ storages_to_check (is_free_plan s) → is_Some (md !! n).
Proof.
  unfold _calculate_total_fees.
  pose proof (ensure_month_init_lazy s mk) as ((Hfree & _) & _).
  set (s1 := _ensure_month_init s mk) in *. rewrite Hfree.
  rewrite storages_to_check_units.
  pose proof (calc_loop_makes_present (checked_units (is_free_plan s))
    (bool_decide (mk ∈ update_fee_settled_for_month s1))
    (checked_units_lookup (is_free_plan s))
    (month_data s1 mk) (mkFeeAcc 0 0 0 0)) as Hpres.
  destruct (calc_loop _ _ _ _) as [md a]. cbn [fst snd] in *.
  exists md. unfold with_monthly_stats. cbn [monthly_stats].
  rewrite lookup_insert_eq. split; [done |].
  intros n Hn. apply Hpres. by left.
Qed.

Lemma calculate_total_fees_again s mk :
  (_calculate_total_fees (_calculate_total_fees s mk).1 mk).1
    = (_calculate_total_fees s mk).1.
Proof.
  destruct (calculate_total_fees_state s mk) as (md & E & Hall).
  destruct (calculate_total_fees_spec s mk) as (((Hfree & _) & _) & _).
  set (s1 := (_calculate_total_fees s mk).1) in *.
  unfold _calculate_total_fees at 1.
  rewrite (ensure_month_init_present _ _ _ E), (month_data_present _ _ _ E).
  rewrite Hfree.
  pose proof (calc_loop_all_present (storages_to_check (is_free_plan s))
    (bool_decide (mk ∈ update_fee_settled_for_month s1)) md
    (mkFeeAcc 0 0 0 0) Hall) as Hsame.
  destruct (calc_loop _ _ _ _) as [md' a]. cbn [fst snd] in *. subst md'.
  rewrite (insert_id _ _ _ E). apply with_monthly_stats_id.
Qed.

(** X1.  What the limit check and the fee computation leave behind.  Each
    changes nothing but [monthly_stats], and there only the month it is
    asked about, which it may create from the seed table of that moment and
    extend with default entries.  A fee computation made on the manager
    either of them returns gives, for any month, the fees it would have
    given on the manager before the call; and a fee computation repeated at
    once for the same month returns its manager unchanged.  Nothing is said
    about fees after later commands: a month created by a read keeps the
    seeds of that moment ([early_read_keeps_old_seed]). *)
Theorem reads_leave_fees (s : StorageManager) (mk op : string) (pmax kb : Z)
    (mk' : string) :
  lazy_step mk s (_would_exceed_free_plan_limit s mk op pmax kb).1 ∧
  lazy_step mk s (_calculate_total_fees s mk).1 ∧
  (_calculate_total_fees
     (_would_exceed_free_plan_limit s mk op pmax kb).1 mk').2
    = (_calculate_total_fees s mk').2 ∧
  (_calculate_total_fees (_calculate_total_fees s mk).1 mk').2
    = (_calculate_total_fees s mk').2 ∧
  (_calculate_total_fees (_calculate_total_fees s mk).1 mk).1
    = (_calculate_total_fees s mk).1.
Proof.
  split; [| split; [| split; [| split]]].
  - apply would_exceed_spec.
  - apply calculate_total_fees_spec.
  - eapply lazy_step_fees. apply would_exceed_spec.
  - eapply lazy_step_fees. apply calculate_total_fees_spec.
  - apply calculate_total_fees_again.
Qed.

(** X2.  Right after a rejected upload, delete or update, a fee computation
    for any month returns the fees it would have returned right before the
    call.  Nothing is said about fees after later commands: the month a
    rejected call has created keeps the seeds of that moment
    ([early_read_keeps_old_seed]). *)
Theorem rejected_operation_fees (s s' : StorageManager) (c : Command)
    (op : OpName) (why : Rejection) (mk' : string) :
  step s c = (s', Rejected op why) →
  (_calculate_total_fees s' mk').2 = (_calculate_total_fees s mk').2.
Proof.
  intros Hstep.
  destruct (op_month_key c) as [mk|] eqn:Hop.
  - destruct (op_shape s c mk Hop)
      as [(Hl & _) | (u & s2 & s3 & op' & _ & _ & _ & _ & E)].
    + rewrite Hstep in Hl. by eapply lazy_step_fees.
    + rewrite Hstep in E. discriminate.
  - destruct c as [| | | t]; try discriminate.
    cbn [step] in Hstep. unfold handle_calc in Hstep.
    destruct (_get_previous_month_key t); [| discriminate].
    destruct (_calculate_total_fees s s0). discriminate.
Qed.

(** A rejected delete on 1 February creates February before month close
    has written the seeds: the month starts from 0 instead of the 150 000 KB
    stored, and the delete of 3 February is charged a storage fee of 0
    instead of 2. *)
Example early_read_keeps_old_seed :
  render <$> responses (new_manager true)
    [Upload jan5 "storage_A1" "f1" 150000; Calc feb1;
     Delete feb3 "storage_A1" "f1"]
  = [Some "UPLOAD: 2 1 0"; Some "CALC: [150000 0 0 0] 2 1 0";
     Some "DELETE: 2 1 0"] ∧
  render <$> responses (new_manager true)
    [Upload jan5 "storage_A1" "f1" 150000; Delete feb1 "storage_A1" "f0";
     Calc feb1; Delete feb3 "storage_A1" "f1"]
  = [Some "UPLOAD: 2 1 0"; Some "DELETE: file does not exist";
     Some "CALC: [150000 0 0 0] 2 1 0"; Some "DELETE: 0 1 0"].
Proof. split; vm_compute; reflexivity. Qed.

Lemma rejected_operation_fees_witness :
  step (new_manager true) (Delete jan5 "storage_X" "f1")
    = (with_monthly_stats (new_manager true) {[ "2024-01" := ∅ ]},
       Rejected DELETE InvalidStorageName) ∧
  (_calculate_total_fees
     (with_monthly_stats (new_manager true) {[ "2024-01" := ∅ ]}) "2024-01").2
    = (_calculate_total_fees (new_manager true) "2024-01").2.
Proof.
  assert (step (new_manager true) (Delete jan5 "storage_X" "f1")
    = (with_monthly_stats (new_manager true) {[ "2024-01" := ∅ ]},
       Rejected DELETE InvalidStorageName)) as H by (vm_compute; reflexivity).
  split; [exact H |].
  exact (rejected_operation_fees _ _ _ _ _ "2024-01" H).
Defined.

(** * The registry *)

Lemma step_registry_ok s c : registry_ok s → registry_ok (step s c).1.
Proof.
  intros Hr.
  destruct (step_frame s c) as (Hfree & _).
  destruct (step_cases s c)
    as [(mk & s1 & _ & Hfi & _)
       | [(t & u & f & n & fees & -> & (_ & Hu) & _ & Hfi & _)
       | [(t & u & f & file & fees & -> & _ & _ & Hfi & _)
       | (t & u & f & n & file & fees & -> & (Hu & Hf & Hs) & _ & Hfi & _)]]];
    intros k x; rewrite Hfi, Hfree.
  - apply Hr.
  - destruct (decide (f = k)) as [-> | Hne].
    + rewrite lookup_insert_eq. intros [= <-]. by split.
    + rewrite lookup_insert_ne by done. apply Hr.
  - destruct (decide (f = k)) as [-> | Hne].
    + by rewrite lookup_delete_eq.
    + rewrite lookup_delete_ne by done. apply Hr.
  - destruct (decide (f = k)) as [-> | Hne].
    + rewrite lookup_insert_eq. intros [= <-]. cbn [File_name File_storage].
      split; [by apply (Hr k file) | done].
    + rewrite lookup_insert_ne by done. apply Hr.
Qed.

Lemma run_registry_ok s cs : registry_ok s → registry_ok (run s cs).
Proof.
  revert s. induction cs as [| c cs IH]; intros s Hr; cbn [run]; [done |].
  by apply IH, step_registry_ok.
Qed.

Lemma reachable_registry_ok free cs : registry_ok (run (new_manager free) cs).
Proof.
  apply run_registry_ok. intros k x. cbn [new_manager files].
  by rewrite lookup_empty.
Qed.

Lemma reachable_conserved free cs : conserved (run (new_manager free) cs).
Proof.
  apply run_conserved. intros k. cbn [new_manager files current_storage_size].
  by rewrite unit_files_total_empty.
Qed.

(** X3.  In every manager reached from a new one, each registered file is
    stored under its own name and lives in a configured unit; on the free
    plan that unit is one the free plan allows. *)
Theorem registry_well_formed (free : bool) (cs : list Command)
    (f : string) (file : File) :
  files (run (new_manager free) cs) !! f = Some file →
  File_name file = f ∧
  ∃ unit, units_lookup STORAGE_UNITS (File_storage file) = Some unit ∧
          (free = true → is_free_plan_allowed unit = true).
Proof.
  intros Hf.
  destruct (reachable_registry_ok free cs f file Hf) as (Hn & unit & Hu & Hp).
  split; [done |]. exists unit. split; [done |].
  by rewrite (proj1 (run_frame (new_manager free) cs)) in Hp.
Qed.

Lemma registry_well_formed_witness :
  files (run (new_manager true) [Upload jan5 "storage_A1" "f1" 500]) !! "f1"
    = Some (mkFile "f1" 500 "storage_A1") ∧
  File_name (mkFile "f1" 500 "storage_A1") = "f1".
Proof.
  assert (files (run (new_manager true) [Upload jan5 "storage_A1" "f1" 500])
            !! "f1" = Some (mkFile "f1" 500 "storage_A1")) as H
    by (vm_compute; reflexivity).
  split; [exact H |].
  exact (proj1 (registry_well_formed true _ _ _ H)).
Defined.

Lemma unit_files_total_none fs u :
  (∀ f file, fs !! f = Some file → File_storage file ≠ u) →
  unit_files_total fs u = 0.
Proof.
  induction fs as [| f file fs Hnone IH] using map_ind; intros Hall.
  - apply unit_files_total_empty.
  - rewrite (unit_files_total_insert _ _ _ _ Hnone), IH.
    + unfold file_contrib.
      destruct (decide (File_storage file = u)) as [Hs | _]; [| done].
      exfalso. apply (Hall f file); [apply lookup_insert_eq | done].
    + intros k x Hk. apply (Hall k x).
      rewrite lookup_insert_ne; [done |]. intros ->. congruence.
Qed.

(** X4.  On the free plan nothing is ever stored outside the free-plan
    units: in every manager reached from a new free-plan one, the occupancy
    of any name that is not a free-plan unit (a paid unit or no unit at
    all) is 0. *)
Theorem free_plan_uses_free_units_only (cs : list Command) (u : string) :
  (∀ unit, units_lookup STORAGE_UNITS u = Some unit →
           is_free_plan_allowed unit = false) →
  size_get (current_storage_size (run (new_manager true) cs)) u = 0.
Proof.
  intros Hu. rewrite (reachable_conserved true cs u).
  apply unit_files_total_none. intros f file Hf Hs.
  destruct (reachable_registry_ok true cs f file Hf) as (_ & unit & Hl & Hp).
  rewrite Hs in Hl. specialize (Hu unit Hl).
  rewrite (proj1 (run_frame (new_manager true) cs)) in Hp.
  specialize (Hp eq_refl). congruence.
Qed.

Lemma free_plan_uses_free_units_only_witness :
  (∀ unit, units_lookup STORAGE_UNITS "storage_B1" = Some unit →
           is_free_plan_allowed unit = false) ∧
  size_get
    (current_storage_size
       (run (new_manager true)
          [Upload jan5 "storage_B1" "f1" 500; Upload jan5 "storage_A1" "f2" 7]))
    "storage_B1" = 0.
Proof.
  assert (∀ unit, units_lookup STORAGE_UNITS "storage_B1" = Some unit →
                  is_free_plan_allowed unit = false) as H.
  { intros unit E. vm_compute in E. by injection E as <-. }
  split; [exact H |].
  exact (free_plan_uses_free_units_only _ "storage_B1" H).
Defined.

(** * The fees an accepted operation reports *)

Lemma commit_fees mk u (g : MonthlyStats → MonthlyStats) s s2 s3 md2 :
  lazy_step mk s s2 → monthly_stats s2 !! mk = Some md2 →
  monthly_stats s3
    = <[mk := <[u := g (stat_view md2 u)]> md2]> (monthly_stats s2) →
  is_free_plan s3 = is_free_plan s2 →
  update_fee_settled_for_month s3 = update_fee_settled_for_month s2 →
  (_calculate_total_fees s3 mk).2 =
    fees_of_view (is_free_plan s)
      (bool_decide (mk ∈ update_fee_settled_for_month s))
      (view_with (stat_view (month_view s mk)) u
         (g (stat_view (month_view s mk) u))).
Proof.
  intros Hl E2 E3 Hf3 Hs3.
  pose proof Hl as ((Hf & _ & _ & _ & Hse & _) & _).
  pose proof (lazy_step_present_view _ _ _ _ Hl E2) as Hx.
  rewrite calculate_total_fees_fees, Hf3, Hs3, Hf, Hse.
  apply fees_of_view_ext. intros k.
  unfold month_view at 1. rewrite E3, lookup_insert_eq.
  unfold view_with, stat_view at 1.
  destruct (decide (k = u)) as [-> | Hne].
  - rewrite lookup_insert_eq. cbn [default from_option]. unfold id.
    f_equal. by apply month_extends_view.
  - rewrite lookup_insert_ne by done.
    by apply (month_extends_view _ _ k).
Qed.

Lemma handle_upload_fees s t u f n :
  upload_allowed s u f →
  upload_limit_exceeded s (_get_month_key t) u n = false →
  (handle_upload s t u f n).2 =
    Accepted UPLOAD
      (fees_of_view (is_free_plan s)
         (bool_decide (_get_month_key t ∈ update_fee_settled_for_month s))
         (view_with (stat_view (month_view s (_get_month_key t))) u
            (upload_entry s (_get_month_key t) u n))).
Proof.
  intros Hok Hlim.
  destruct (handle_upload_dynamic s t u f n Hok) as (s2 & Hl & [md2 E2] & ->).
  rewrite Hlim. cbn [snd]. f_equal.
  set (mk := _get_month_key t) in *.
  pose proof (upload_perform_spec s2 mk u f n md2 E2) as Hp.
  set (s3 := upload_perform s2 mk u f n) in *.
  pose proof Hl as ((_ & _ & Ho & _) & _).
  unfold upload_entry. cbv zeta.
  apply (commit_fees mk u
    (λ st, mkMonthlyStats
       (Z.max (max_size st) (size_get (current_storage_size s) u + n))
       (update_kb_sum st + n)) s s2 s3 md2 Hl E2).
  - rewrite Hp. cbn [monthly_stats]. by rewrite Ho.
  - by rewrite Hp.
  - by rewrite Hp.
Qed.

Lemma handle_delete_fees s t u f file :
  file_in_unit s u f file →
  delete_limit_exceeded s (_get_month_key t) u (File_size file) = false →
  (handle_delete s t u f).2 =
    Accepted DELETE
      (fees_of_view (is_free_plan s)
         (bool_decide (_get_month_key t ∈ update_fee_settled_for_month s))
         (view_with (stat_view (month_view s (_get_month_key t))) u
            (delete_entry s (_get_month_key t) u (File_size file)))).
Proof.
  intros Hok Hlim.
  destruct (handle_delete_dynamic s t u f file Hok) as (s2 & Hl & [md2 E2] & ->).
  rewrite Hlim. cbn [snd]. f_equal.
  set (mk := _get_month_key t) in *.
  pose proof (delete_perform_spec s2 mk u f file md2 E2) as Hp.
  set (s3 := delete_perform s2 mk u f file) in *.
  unfold delete_entry. cbv zeta.
  apply (commit_fees mk u
    (λ st, mkMonthlyStats (max_size st) (update_kb_sum st + File_size file))
    s s2 s3 md2 Hl E2); by rewrite Hp.
Qed.

Lemma handle_update_fees s t u f file n :
  file_in_unit s u f file →
  update_limit_exceeded s (_get_month_key t) u (File_size file) n = false →
  (handle_update s t u f n).2 =
    Accepted UPDATE
      (fees_of_view (is_free_plan s)
         (bool_decide (_get_month_key t ∈ update_fee_settled_for_month s))
         (view_with (stat_view (month_view s (_get_month_key t))) u
            (update_entry s (_get_month_key t) u (File_size file) n))).
Proof.
  intros Hok Hlim.
  destruct (handle_update_dynamic s t u f file n Hok)
    as (s2 & Hl & [md2 E2] & ->).
  rewrite Hlim. cbn [snd]. f_equal.
  set (mk := _get_month_key t) in *.
  pose proof (update_perform_spec s2 mk u f file n md2 E2) as Hp.
  set (s3 := update_perform s2 mk u f file n) in *.
  pose proof Hl as ((_ & _ & Ho & _) & _).
  unfold update_entry. cbv zeta.
  apply (commit_fees mk u
    (λ st, mkMonthlyStats
       (Z.max (max_size st)
          (size_get (current_storage_size s) u + (n - File_size file)))
       (update_kb_sum st + (File_size file + n))) s s2 s3 md2 Hl E2).
  - rewrite Hp. cbn [monthly_stats]. by rewrite Ho.
  - by rewrite Hp.
  - by rewrite Hp.
Qed.

(** * The response of each handler, case by case *)

Lemma upload_allowed_intro s u f unit :
  files s !! f = None → units_lookup STORAGE_UNITS u = Some unit →
  is_free_plan s && negb (is_free_plan_allowed unit) = false →
  upload_allowed s u f.
Proof.
  intros Hf Hu Hp. split; [done |]. exists unit. split; [done |].
  intros Hfree. rewrite Hfree in Hp. by destruct (is_free_plan_allowed unit).
Qed.

Lemma file_in_unit_intro s u f file unit :
  units_lookup STORAGE_UNITS u = Some unit →
  is_free_plan s && negb (is_free_plan_allowed unit) = false →
  files s !! f = Some file → File_storage file = u →
  file_in_unit s u f file.
Proof.
  intros Hu Hp Hf Hs. split; [| done]. exists unit. split; [done |].
  intros Hfree. rewrite Hfree in Hp. by destruct (is_free_plan_allowed unit).
Qed.

Lemma handle_upload_response s t u f n :
  (handle_upload s t u f n).2 =
    if decide (is_Some (files s !! f)) then Rejected UPLOAD FileAlreadyExists
    else match units_lookup STORAGE_UNITS u with
         | None => Rejected UPLOAD InvalidStorageName
         | Some unit =>
           if is_free_plan s && negb (is_free_plan_allowed unit)
           then Rejected UPLOAD NotOnFreePlan
           else if upload_limit_exceeded s (_get_month_key t) u n
           then Rejected UPLOAD FreePlanLimitExceeded
           else Accepted UPLOAD
                  (fees_of_view (is_free_plan s)
                     (bool_decide
                        (_get_month_key t ∈ update_fee_settled_for_month s))
                     (view_with (stat_view (month_view s (_get_month_key t)))
                        u (upload_entry s (_get_month_key t) u n)))
         end.
Proof.
  destruct (decide (is_Some (files s !! f))) as [Hf | Hf].
  { unfold handle_upload. by destruct (decide _). }
  destruct (units_lookup STORAGE_UNITS u) as [unit|] eqn:Hu.
  2: { unfold handle_upload. destruct (decide _); [done |]. by rewrite Hu. }
  destruct (is_free_plan s && negb (is_free_plan_allowed unit)) eqn:Hp.
  { unfold handle_upload. destruct (decide _); [done |]. by rewrite Hu, Hp. }
  apply eq_None_not_Some in Hf.
  pose proof (upload_allowed_intro s u f unit Hf Hu Hp) as Hok.
  destruct (upload_limit_exceeded s (_get_month_key t) u n) eqn:Hlim.
  - destruct (handle_upload_dynamic s t u f n Hok) as (s2 & _ & _ & ->).
    by rewrite Hlim.
  - by apply handle_upload_fees.
Qed.

Lemma handle_delete_response s t u f :
  (handle_delete s t u f).2 =
    match units_lookup STORAGE_UNITS u with
    | None => Rejected DELETE InvalidStorageName
    | Some unit =>
      if is_free_plan s && negb (is_free_plan_allowed unit)
      then Rejected DELETE NotOnFreePlan
      else match files s !! f with
           | None => Rejected DELETE FileDoesNotExist
           | Some file =>
             if negb (bool_decide (File_storage file = u))
             then Rejected DELETE FileNotInStorage
             else if delete_limit_exceeded s (_get_month_key t) u
                       (File_size file)
             then Rejected DELETE FreePlanLimitExceeded
             else Accepted DELETE
                    (fees_of_view (is_free_plan s)
                       (bool_decide
                          (_get_month_key t ∈ update_fee_settled_for_month s))
                       (view_with
                          (stat_view (month_view s (_get_month_key t))) u
                          (delete_entry s (_get_month_key t) u
                             (File_size file))))
           end
    end.
Proof.
  pose proof (ensure_month_init_lazy s (_get_month_key t))
    as ((Hfree & Hfiles & _) & _).
  destruct (units_lookup STORAGE_UNITS u) as [unit|] eqn:Hu.
  2: { unfold handle_delete. cbv zeta. by rewrite Hu. }
  destruct (is_free_plan s && negb (is_free_plan_allowed unit)) eqn:Hp.
  { unfold handle_delete. cbv zeta. by rewrite Hu, Hfree, Hp. }
  destruct (files s !! f) as [file|] eqn:Hf.
  2: { unfold handle_delete. cbv zeta. by rewrite Hu, Hfree, Hp, Hfiles, Hf. }
  destruct (bool_decide (File_storage file = u)) eqn:Hs; cbn [negb].
  2: { unfold handle_delete. cbv zeta.
       by rewrite Hu, Hfree, Hp, Hfiles, Hf, Hs. }
  apply bool_decide_eq_true in Hs.
  pose proof (file_in_unit_intro s u f file unit Hu Hp Hf Hs) as Hok.
  destruct (delete_limit_exceeded s (_get_month_key t) u (File_size file))
    eqn:Hlim.
  - destruct (handle_delete_dynamic s t u f file Hok) as (s2 & _ & _ & ->).
    by rewrite Hlim.
  - by apply handle_delete_fees.
Qed.

Lemma handle_update_response s t u f n :
  (handle_update s t u f n).2 =
    match units_lookup STORAGE_UNITS u with
    | None => Rejected UPDATE InvalidStorageName
    | Some unit =>
      if is_free_plan s && negb (is_free_plan_allowed unit)
      then Rejected UPDATE NotOnFreePlan
      else match files s !! f with
           | None => Rejected UPDATE FileDoesNotExist
           | Some file =>
             if negb (bool_decide (File_storage file = u))
             then Rejected UPDATE FileNotInStorage
             else if update_limit_exceeded s (_get_month_key t) u
                       (File_size file) n
             then Rejected UPDATE FreePlanLimitExceeded
             else Accepted UPDATE
                    (fees_of_view (is_free_plan s)
                       (bool_decide
                          (_get_month_key t ∈ update_fee_settled_for_month s))
                       (view_with
                          (stat_view (month_view s (_get_month_key t))) u
                          (update_entry s (_get_month_key t) u
                             (File_size file) n)))
           end
    end.
Proof.
  pose proof (ensure_month_init_lazy s (_get_month_key t))
    as ((Hfree & Hfiles & _) & _).
  destruct (units_lookup STORAGE_UNITS u) as [unit|] eqn:Hu.
  2: { unfold handle_update. cbv zeta. by rewrite Hu. }
  destruct (is_free_plan s && negb (is_free_plan_allowed unit)) eqn:Hp.
  { unfold handle_update. cbv zeta. by rewrite Hu, Hfree, Hp. }
  destruct (files s !! f) as [file|] eqn:Hf.
  2: { unfold handle_update. cbv zeta. by rewrite Hu, Hfree, Hp, Hfiles, Hf. }
  destruct (bool_decide (File_storage file = u)) eqn:Hs; cbn [negb].
  2: { unfold handle_update. cbv zeta.
       by rewrite Hu, Hfree, Hp, Hfiles, Hf, Hs. }
  apply bool_decide_eq_true in Hs.
  pose proof (file_in_unit_intro s u f file unit Hu Hp Hf Hs) as Hok.
  destruct (update_limit_exceeded s (_get_month_key t) u (File_size file) n)
    eqn:Hlim.
  - destruct (handle_update_dynamic s t u f file n Hok) as (s2 & _ & _ & ->).
    by rewrite Hlim.
  - by apply handle_update_fees.
Qed.

Lemma usable_unit_bool s u unit :
  units_lookup STORAGE_UNITS u = Some unit →
  (usable_unit s u ↔ is_free_plan s && negb (is_free_plan_allowed unit) = false).
Proof.
  intros Hu. unfold usable_unit. split.
  - intros (unit' & Hu' & Hp). rewrite Hu in Hu'. injection Hu' as <-.
    destruct (is_free_plan s); [by rewrite Hp | done].
  - intros Hp. exists unit. split; [done |]. intros Hfree.
    rewrite Hfree in Hp. by destruct (is_free_plan_allowed unit).
Qed.

(** Goals of the outcome tables: an equation between responses against the
    condition for it, with the facts of the case in the context. *)
Ltac refute_case H :=
  destruct_and?;
  first
    [ done
    | congruence
    | match goal with
      | H' : is_Some None |- _ => by destruct H' as [? ?]
      | H' : ∃ _, _ |- _ => destruct H' as [? H']; destruct_and?; congruence
      end ].

Ltac outcome_case :=
  first
    [ by (intros ?; discriminate)
    | split;
      [ let H := fresh "H" in
        intros H;
        first [ discriminate H
              | match type of H with
                | ex _ => by (destruct H as [? H]; discriminate H)
                end
              | done
              | by split_and?
              | by (split_and?; eauto) ]
      | let H := fresh "H" in
        intros H;
        first [ done
              | by eexists
              | by (exfalso; refute_case H) ] ] ].

(** X5.  The outcome of an upload whose sizes are within [MAX_EXACT_KB],
    check by check and in the order the handler applies them: a registered
    name is reported first, then an unknown unit, then a unit the free plan
    does not allow, then the free-plan limit; the upload is accepted
    exactly when all four pass.  The two rejections of delete and update
    never occur. *)
Theorem upload_outcomes (s : StorageManager) (t : datetime) (u f : string)
    (n : Z) :
  command_in_range s (Upload t u f n) →
  let r := (handle_upload s t u f n).2 in
  (r = Rejected UPLOAD FileAlreadyExists ↔ is_Some (files s !! f)) ∧
  (r = Rejected UPLOAD InvalidStorageName ↔
     files s !! f = None ∧ units_lookup STORAGE_UNITS u = None) ∧
  (r = Rejected UPLOAD NotOnFreePlan ↔
     files s !! f = None ∧ is_Some (units_lookup STORAGE_UNITS u) ∧
     ¬ usable_unit s u) ∧
  (r = Rejected UPLOAD FreePlanLimitExceeded ↔
     files s !! f = None ∧ usable_unit s u ∧
     upload_limit_exceeded s (_get_month_key t) u n = true) ∧
  ((∃ fees, r = Accepted UPLOAD fees) ↔
     files s !! f = None ∧ usable_unit s u ∧
     upload_limit_exceeded s (_get_month_key t) u n = false) ∧
  r ≠ Rejected UPLOAD FileDoesNotExist ∧ r ≠ Rejected UPLOAD FileNotInStorage.
Proof.
  intros _. cbv zeta. rewrite handle_upload_response.
  destruct (decide (is_Some (files s !! f))) as [Hf | Hf].
  { assert (files s !! f ≠ None) as Hf' by by apply not_eq_None_Some.
    split_and!; outcome_case. }
  assert (files s !! f = None) as Hf' by by apply eq_None_not_Some.
  destruct (units_lookup STORAGE_UNITS u) as [unit|] eqn:Hu.
  2: { assert (¬ usable_unit s u) as Hnu.
       { intros (? & Hu' & _). by rewrite Hu in Hu'. }
       split_and!; outcome_case. }
  assert (is_Some (Some unit)) as Hsome by by eexists.
  pose proof (usable_unit_bool s u unit Hu) as Hub.
  destruct (is_free_plan s && negb (is_free_plan_allowed unit)) eqn:Hp.
  { assert (¬ usable_unit s u) as Hnu by (rewrite Hub; done).
    clear Hub. split_and!; outcome_case. }
  assert (usable_unit s u) as Hus by (by apply Hub).
  clear Hub.
  destruct (upload_limit_exceeded s (_get_month_key t) u n) eqn:Hlim;
    split_and!; outcome_case.
Qed.

(** One KB above the limit on a new manager. *)
Lemma upload_outcomes_witness :
  command_in_range (new_manager true)
    (Upload jan5 "storage_A1" "f1" 95200001) ∧
  (handle_upload (new_manager true) jan5 "storage_A1" "f1" 95200001).2
    = Rejected UPLOAD FreePlanLimitExceeded.
Proof.
  assert (command_in_range (new_manager true)
    (Upload jan5 "storage_A1" "f1" 95200001)) as Hcmd.
  { split; [solve_in_range |]. unfold stats_in_range, kb_in_range.
    split_and?; range_leaf. }
  split; [exact Hcmd |].
  apply (proj1 (proj2 (proj2 (proj2
    (upload_outcomes (new_manager true) jan5 "storage_A1" "f1" 95200001
       Hcmd))))).
  split; [vm_compute; reflexivity |]. split.
  - eexists. split; [vm_compute; reflexivity | done].
  - vm_compute. reflexivity.
Defined.

(** X6.  The outcome of a delete whose sizes are within [MAX_EXACT_KB],
    check by check and in the order the handler applies them: an unknown unit is reported first, then a unit
    the free plan does not allow, then a missing file, then a file stored
    in another unit, then the free-plan limit (a delete adds the file's
    size to the month's update traffic, so it can be over the limit); the
    delete is accepted exactly when all five pass. *)
Theorem delete_outcomes (s : StorageManager) (t : datetime) (u f : string) :
  command_in_range s (Delete t u f) →
  let r := (handle_delete s t u f).2 in
  (r = Rejected DELETE InvalidStorageName ↔
     units_lookup STORAGE_UNITS u = None) ∧
  (r = Rejected DELETE NotOnFreePlan ↔
     is_Some (units_lookup STORAGE_UNITS u) ∧ ¬ usable_unit s u) ∧
  (r = Rejected DELETE FileDoesNotExist ↔
     usable_unit s u ∧ files s !! f = None) ∧
  (r = Rejected DELETE FileNotInStorage ↔
     usable_unit s u ∧
     ∃ file, files s !! f = Some file ∧ File_storage file ≠ u) ∧
  (r = Rejected DELETE FreePlanLimitExceeded ↔
     usable_unit s u ∧
     ∃ file, files s !! f = Some file ∧ File_storage file = u ∧
       delete_limit_exceeded s (_get_month_key t) u (File_size file) = true) ∧
  ((∃ fees, r = Accepted DELETE fees) ↔
     usable_unit s u ∧
     ∃ file, files s !! f = Some file ∧ File_storage file = u ∧
       delete_limit_exceeded s (_get_month_key t) u (File_size file) = false) ∧
  r ≠ Rejected DELETE FileAlreadyExists.
Proof.
  intros _. cbv zeta. rewrite handle_delete_response.
  destruct (units_lookup STORAGE_UNITS u) as [unit|] eqn:Hu.
  2: { assert (¬ usable_unit s u) as Hnu.
       { intros (? & Hu' & _). by rewrite Hu in Hu'. }
       split_and!; outcome_case. }
  assert (is_Some (Some unit)) as Hsome by by eexists.
  pose proof (usable_unit_bool s u unit Hu) as Hub.
  destruct (is_free_plan s && negb (is_free_plan_allowed unit)) eqn:Hp.
  { assert (¬ usable_unit s u) as Hnu by (rewrite Hub; done).
    clear Hub. split_and!; outcome_case. }
  assert (usable_unit s u) as Hus by (by apply Hub).
  clear Hub.
  destruct (files s !! f) as [file|] eqn:Hf.
  2: { split_and!; outcome_case. }
  destruct (bool_decide (File_storage file = u)) eqn:Hs; cbn [negb].
  2: { apply bool_decide_eq_false in Hs. split_and!; outcome_case. }
  apply bool_decide_eq_true in Hs.
  destruct (delete_limit_exceeded s (_get_month_key t) u (File_size file))
    eqn:Hlim; split_and!; outcome_case.
Qed.

(** After an upload that fills the limit, the delete of the same file is
    over it. *)
Lemma delete_outcomes_witness :
  command_in_range
    (run (new_manager true) [Upload jan5 "storage_A1" "f1" 95200000])
    (Delete jan20 "storage_A1" "f1") ∧
  (handle_delete
     (run (new_manager true) [Upload jan5 "storage_A1" "f1" 95200000])
     jan20 "storage_A1" "f1").2
    = Rejected DELETE FreePlanLimitExceeded.
Proof.
  assert (files
    (run (new_manager true) [Upload jan5 "storage_A1" "f1" 95200000])
    !! "f1" = Some (mkFile "f1" 95200000 "storage_A1")) as Hf
    by (vm_compute; reflexivity).
  assert (command_in_range
    (run (new_manager true) [Upload jan5 "storage_A1" "f1" 95200000])
    (Delete jan20 "storage_A1" "f1")) as Hcmd.
  { split; [solve_in_range |]. intros file Hfile.
    rewrite Hf in Hfile. injection Hfile as <-.
    unfold stats_in_range, kb_in_range. split_and?; range_leaf. }
  split; [exact Hcmd |].
  apply (proj1 (proj2 (proj2 (proj2 (proj2
    (delete_outcomes _ jan20 "storage_A1" "f1" Hcmd)))))).
  split.
  - eexists. split; [vm_compute; reflexivity | done].
  - eexists. split; [exact Hf |]. split; [reflexivity |].
    vm_compute. reflexivity.
Defined.

(** X7.  The outcome of an update whose sizes are within [MAX_EXACT_KB]:
    the same five checks in the same order as for a delete, the limit being
    checked for the new size; the update is accepted exactly when all five
    pass. *)
Theorem update_outcomes (s : StorageManager) (t : datetime) (u f : string)
    (n : Z) :
  command_in_range s (Update t u f n) →
  let r := (handle_update s t u f n).2 in
  (r = Rejected UPDATE InvalidStorageName ↔
     units_lookup STORAGE_UNITS u = None) ∧
  (r = Rejected UPDATE NotOnFreePlan ↔
     is_Some (units_lookup STORAGE_UNITS u) ∧ ¬ usable_unit s u) ∧
  (r = Rejected UPDATE FileDoesNotExist ↔
     usable_unit s u ∧ files s !! f = None) ∧
  (r = Rejected UPDATE FileNotInStorage ↔
     usable_unit s u ∧
     ∃ file, files s !! f = Some file ∧ File_storage file ≠ u) ∧
  (r = Rejected UPDATE FreePlanLimitExceeded ↔
     usable_unit s u ∧
     ∃ file, files s !! f = Some file ∧ File_storage file = u ∧
       update_limit_exceeded s (_get_month_key t) u (File_size file) n
         = true) ∧
  ((∃ fees, r = Accepted UPDATE fees) ↔
     usable_unit s u ∧
     ∃ file, files s !! f = Some file ∧ File_storage file = u ∧
       update_limit_exceeded s (_get_month_key t) u (File_size file) n
         = false) ∧
  r ≠ Rejected UPDATE FileAlreadyExists.
Proof.
  intros _. cbv zeta. rewrite handle_update_response.
  destruct (units_lookup STORAGE_UNITS u) as [unit|] eqn:Hu.
  2: { assert (¬ usable_unit s u) as Hnu.
       { intros (? & Hu' & _). by rewrite Hu in Hu'. }
       split_and!; outcome_case. }
  assert (is_Some (Some unit)) as Hsome by by eexists.
  pose proof (usable_unit_bool s u unit Hu) as Hub.
  destruct (is_free_plan s && negb (is_free_plan_allowed unit)) eqn:Hp.
  { assert (¬ usable_unit s u) as Hnu by (rewrite Hub; done).
    clear Hub. split_and!; outcome_case. }
  assert (usable_unit s u) as Hus by (by apply Hub).
  clear Hub.
  destruct (files s !! f) as [file|] eqn:Hf.
  2: { split_and!; outcome_case. }
  destruct (bool_decide (File_storage file = u)) eqn:Hs; cbn [negb].
  2: { apply bool_decide_eq_false in Hs. split_and!; outcome_case. }
  apply bool_decide_eq_true in Hs.
  destruct (update_limit_exceeded s (_get_month_key t) u (File_size file) n)
    eqn:Hlim; split_and!; outcome_case.
Qed.

(** A file of 500 KB updated to 30 KB. *)
Lemma update_outcomes_witness :
  command_in_range
    (run (new_manager true) [Upload jan5 "storage_A1" "f1" 500])
    (Update jan20 "storage_A1" "f1" 30) ∧
  ∃ fees,
    (handle_update
       (run (new_manager true) [Upload jan5 "storage_A1" "f1" 500])
       jan20 "storage_A1" "f1" 30).2 = Accepted UPDATE fees.
Proof.
  assert (files (run (new_manager true) [Upload jan5 "storage_A1" "f1" 500])
    !! "f1" = Some (mkFile "f1" 500 "storage_A1")) as Hf
    by (vm_compute; reflexivity).
  assert (command_in_range
    (run (new_manager true) [Upload jan5 "storage_A1" "f1" 500])
    (Update jan20 "storage_A1" "f1" 30)) as Hcmd.
  { split; [solve_in_range |]. intros file Hfile.
    rewrite Hf in Hfile. injection Hfile as <-.
    unfold stats_in_range, kb_in_range. split_and?; range_leaf. }
  split; [exact Hcmd |].
  apply (proj1 (proj2 (proj2 (proj2 (proj2 (proj2
    (update_outcomes _ jan20 "storage_A1" "f1" 30 Hcmd))))))).
  split.
  - eexists. split; [vm_compute; reflexivity | done].
  - eexists. split; [exact Hf |]. split; [reflexivity |].
    vm_compute. reflexivity.
Defined.

(** * Bounds on the fees *)

Lemma kb_to_mb_pos kb : 0 < kb → 0 < kb_to_mb kb.
Proof.
  intros Hkb. unfold kb_to_mb, KB_TO_MB_DIVISOR.
  assert (- kb / 1000 < 0) by (apply Z.div_lt_upper_bound; lia). lia.
Qed.

Lemma kb_to_mb_mono a b : a ≤ b → kb_to_mb a ≤ kb_to_mb b.
Proof.
  intros Hab. unfold kb_to_mb, KB_TO_MB_DIVISOR.
  assert (- b / 1000 ≤ - a / 1000) by (apply Z.div_le_mono; lia). lia.
Qed.

Lemma Qceiling_pos x : (0 < x)%Q → 0 < Qceiling x.
Proof.
  intros Hx. rewrite Zlt_Qlt.
  eapply Qlt_le_trans; [exact Hx | apply Qle_ceiling].
Qed.

Lemma fee_dec_pos mb rate : 0 < mb → (0 < rate)%Q → (0 < fee_dec mb rate)%Q.
Proof.
  intros Hmb Hr. unfold fee_dec.
  apply Qmult_lt_0_compat; [| done].
  change 0%Q with (inject_Z 0). by rewrite <- Zlt_Qlt.
Qed.

Lemma fee_dec_mono a b rate :
  a ≤ b → (0 <= rate)%Q → (fee_dec a rate <= fee_dec b rate)%Q.
Proof.
  intros Hab Hr. unfold fee_dec.
  apply Qmult_le_compat_r; [| done]. by rewrite <- Zle_Qle.
Qed.

Lemma rates_positive p :
  p ∈ STORAGE_UNITS →
  (0 < store_fee_per_mb p.2)%Q ∧ (0 < update_fee_per_mb p.2)%Q.
Proof.
  intros Hp. apply list_elem_of_In in Hp. unfold STORAGE_UNITS in Hp.
  simpl in Hp. destruct Hp as [<- | [<- | [<- | [<- | []]]]]; by split.
Qed.

Lemma unit_storage_fee_pos p kb :
  p ∈ STORAGE_UNITS → 0 < kb → 1 ≤ unit_storage_fee p.2 kb.
Proof.
  intros Hp Hkb. unfold unit_storage_fee.
  rewrite (proj2 (Z.ltb_lt 0 kb) Hkb).
  assert (0 < Qceiling (fee_dec (kb_to_mb kb) (store_fee_per_mb p.2))); [| lia].
  apply Qceiling_pos, fee_dec_pos; [by apply kb_to_mb_pos |].
  by apply rates_positive.
Qed.

Lemma unit_update_fee_pos p kb :
  p ∈ STORAGE_UNITS → 0 < kb → 1 ≤ unit_update_fee p.2 kb.
Proof.
  intros Hp Hkb. unfold unit_update_fee.
  rewrite (proj2 (Z.ltb_lt 0 kb) Hkb).
  assert (0 < Qceiling (fee_dec (kb_to_mb kb) (update_fee_per_mb p.2))); [| lia].
  apply Qceiling_pos, fee_dec_pos; [by apply kb_to_mb_pos |].
  by apply rates_positive.
Qed.

Lemma unit_storage_fee_nonneg p kb :
  p ∈ STORAGE_UNITS → 0 ≤ unit_storage_fee p.2 kb.
Proof.
  intros Hp. destruct (Z.ltb_spec 0 kb) as [Hkb | Hkb].
  - pose proof (unit_storage_fee_pos p kb Hp Hkb). lia.
  - unfold unit_storage_fee. by rewrite (proj2 (Z.ltb_ge 0 kb) Hkb).
Qed.

Lemma unit_update_fee_nonneg p kb :
  p ∈ STORAGE_UNITS → 0 ≤ unit_update_fee p.2 kb.
Proof.
  intros Hp. destruct (Z.ltb_spec 0 kb) as [Hkb | Hkb].
  - pose proof (unit_update_fee_pos p kb Hp Hkb). lia.
  - unfold unit_update_fee. by rewrite (proj2 (Z.ltb_ge 0 kb) Hkb).
Qed.

Lemma sumZ_map_le {A} (g h : A → Z) (l : list A) :
  (∀ x, x ∈ l → g x ≤ h x) → sumZ (map g l) ≤ sumZ (map h l).
Proof.
  induction l as [| x l IH]; intros Hl; [done |].
  cbn [map]. rewrite !sumZ_cons.
  pose proof (Hl x ltac:(left)).
  pose proof (IH (λ y Hy, Hl y (list_elem_of_further _ _ _ Hy))). lia.
Qed.

Lemma sumZ_map_nonneg {A} (g : A → Z) (l : list A) :
  (∀ x, x ∈ l → 0 ≤ g x) → 0 ≤ sumZ (map g l).
Proof.
  intros Hl. rewrite <- (sumZ_map_zero (λ _ : A, 0) l) by done.
  by apply sumZ_map_le.
Qed.

Lemma sumZ_map_elem {A} (g : A → Z) (l : list A) x :
  (∀ y, y ∈ l → 0 ≤ g y) → x ∈ l → g x ≤ sumZ (map g l).
Proof.
  induction l as [| y l IH]; intros Hl Hx; [by apply elem_of_nil in Hx |].
  cbn [map]. rewrite sumZ_cons.
  pose proof (Hl y ltac:(left)).
  pose proof (sumZ_map_nonneg g l
    (λ z Hz, Hl z (list_elem_of_further _ _ _ Hz))).
  apply elem_of_cons in Hx as [-> | Hx]; [lia |].
  pose proof (IH (λ z Hz, Hl z (list_elem_of_further _ _ _ Hz)) Hx). lia.
Qed.

Lemma sumQ_le_sumZ {A} (g : A → Q) (h : A → Z) (l : list A) :
  (∀ x, x ∈ l → (g x <= inject_Z (h x))%Q) →
  (sumQ (map g l) <= inject_Z (sumZ (map h l)))%Q.
Proof.
  induction l as [| x l IH]; intros Hl; [done |].
  cbn [map]. rewrite sumQ_cons, sumZ_cons, inject_Z_plus.
  apply Qplus_le_compat; [by apply Hl; left |].
  apply IH. intros y Hy. apply Hl. by right.
Qed.

Lemma unit_storage_dec_le_fee u kb :
  (unit_storage_dec u kb <= inject_Z (unit_storage_fee u kb))%Q.
Proof.
  unfold unit_storage_dec, unit_storage_fee.
  destruct (0 <? kb); [apply Qle_ceiling | done].
Qed.

Lemma unit_update_dec_le_fee u kb :
  (unit_update_dec u kb <= inject_Z (unit_update_fee u kb))%Q.
Proof.
  unfold unit_update_dec, unit_update_fee.
  destruct (0 <? kb); [apply Qle_ceiling | done].
Qed.

Lemma unit_storage_dec_nonneg p kb :
  p ∈ STORAGE_UNITS → (0 <= unit_storage_dec p.2 kb)%Q.
Proof.
  intros Hp. unfold unit_storage_dec.
  destruct (Z.ltb_spec 0 kb) as [Hkb | Hkb]; [| done].
  apply Qlt_le_weak, fee_dec_pos; [by apply kb_to_mb_pos |].
  by apply rates_positive.
Qed.

Lemma unit_update_dec_nonneg p kb :
  p ∈ STORAGE_UNITS → (0 <= unit_update_dec p.2 kb)%Q.
Proof.
  intros Hp. unfold unit_update_dec.
  destruct (Z.ltb_spec 0 kb) as [Hkb | Hkb]; [| done].
  apply Qlt_le_weak, fee_dec_pos; [by apply kb_to_mb_pos |].
  by apply rates_positive.
Qed.

Lemma Qceiling_max0_nonneg x : 0 ≤ Qceiling (Qmax 0 x).
Proof.
  change 0 with (Qceiling 0) at 1. apply Qceiling_resp_le, Q.le_max_l.
Qed.

(** X8.  Fees are never negative, whatever the ledger holds, and none of
    the configured rates is small enough to round to nothing: a checked
    unit with a positive maximum size makes the storage fee at least 1, and
    in a month not yet settled a checked unit with positive update traffic
    makes the update fee at least 1. *)
Theorem fees_bounds_below (s : StorageManager) (mk : string) :
  let f := (_calculate_total_fees s mk).2 in
  let v := stat_view (month_view s mk) in
  0 ≤ storage_fee f ∧ 0 ≤ update_fee f ∧ 0 ≤ usage_fee f ∧
  (∀ p, p ∈ checked_units (is_free_plan s) → 0 < max_size (v p.1) →
        1 ≤ storage_fee f) ∧
  (∀ p, p ∈ checked_units (is_free_plan s) →
        mk ∉ update_fee_settled_for_month s → 0 < update_kb_sum (v p.1) →
        1 ≤ update_fee f).
Proof.
  cbv zeta. rewrite calculate_total_fees_fees. unfold fees_of_view.
  cbn [storage_fee update_fee usage_fee].
  set (units := checked_units (is_free_plan s)).
  assert (∀ p, p ∈ units → p ∈ STORAGE_UNITS) as Hsub
    by (intros p; apply checked_units_sub).
  split_and!.
  - apply sumZ_map_nonneg. intros p Hp. by apply unit_storage_fee_nonneg, Hsub.
  - apply sumZ_map_nonneg. intros p Hp. by apply unit_update_fee_nonneg, Hsub.
  - apply Qceiling_max0_nonneg.
  - intros p Hp Hpos.
    etrans; [apply (unit_storage_fee_pos p _ (Hsub p Hp) Hpos) |].
    apply (sumZ_map_elem
      (λ q : string * StorageUnit,
         unit_storage_fee q.2 (max_size (stat_view (month_view s mk) q.1))));
      [| done].
    intros q Hq. by apply unit_storage_fee_nonneg, Hsub.
  - intros p Hp Hns Hpos.
    rewrite (bool_decide_eq_false_2 _ Hns).
    etrans; [apply (unit_update_fee_pos p _ (Hsub p Hp) Hpos) |].
    apply (sumZ_map_elem
      (λ q : string * StorageUnit,
         unit_update_fee q.2
           (charged_update_kb false (stat_view (month_view s mk) q.1))));
      [| done].
    intros q Hq. by apply unit_update_fee_nonneg, Hsub.
Qed.

Lemma sim_total_view_with v u entry kb :
  update_kb_sum entry = update_kb_sum (v u) + kb →
  sim_total v u (max_size entry) kb =
    sumZ (map (λ p : string * StorageUnit,
            unit_storage_fee p.2 (max_size (view_with v u entry p.1)))
          (checked_units true))
    + sumZ (map (λ p : string * StorageUnit,
            unit_update_fee p.2 (update_kb_sum (view_with v u entry p.1)))
          (checked_units true)).
Proof.
  intros He. unfold sim_total. rewrite <- sumZ_map_add. f_equal.
  apply map_ext. intros p. unfold sim_max_kb, sim_update_kb, view_with.
  destruct (decide (p.1 = u)) as [-> | _]; [by rewrite He | done].
Qed.

Lemma cap_from_sim v u entry kb settled :
  update_kb_sum entry = update_kb_sum (v u) + kb →
  sim_total v u (max_size entry) kb ≤ 1000 →
  storage_fee (fees_of_view true settled (view_with v u entry))
  + update_fee (fees_of_view true settled (view_with v u entry)) ≤ 1000 ∧
  usage_fee (fees_of_view true settled (view_with v u entry)) = 0.
Proof.
  intros He Hsim. rewrite (sim_total_view_with v u entry kb He) in Hsim.
  unfold fees_of_view. cbn [storage_fee update_fee usage_fee].
  set (w := view_with v u entry) in *.
  set (units := checked_units true) in *.
  assert (∀ p, p ∈ units → p ∈ STORAGE_UNITS) as Hsub
    by (intros p; apply checked_units_sub).
  set (S1 := sumZ (map (λ p : string * StorageUnit,
                     unit_storage_fee p.2 (max_size (w p.1))) units)) in *.
  set (S2 := sumZ (map (λ p : string * StorageUnit,
                     unit_update_fee p.2 (update_kb_sum (w p.1))) units)) in *.
  set (S2' := sumZ (map (λ p : string * StorageUnit,
                      unit_update_fee p.2 (charged_update_kb settled (w p.1)))
                    units)).
  assert (S2' ≤ S2) as Hle.
  { apply sumZ_map_le. intros p Hp. unfold charged_update_kb.
    destruct settled; [| done].
    pose proof (unit_update_fee_nonneg p (update_kb_sum (w p.1)) (Hsub p Hp)).
    pose proof (unit_update_fee_nonneg p 0 (Hsub p Hp)).
    unfold unit_update_fee at 1. cbn [Z.ltb Z.compare]. lia. }
  split; [lia |].
  pose proof (sumQ_le_sumZ
    (λ p : string * StorageUnit, unit_storage_dec p.2 (max_size (w p.1)))
    (λ p : string * StorageUnit, unit_storage_fee p.2 (max_size (w p.1)))
    units (λ p _, unit_storage_dec_le_fee _ _)) as H1.
  pose proof (sumQ_le_sumZ
    (λ p : string * StorageUnit,
       unit_update_dec p.2 (charged_update_kb settled (w p.1)))
    (λ p : string * StorageUnit,
       unit_update_fee p.2 (charged_update_kb settled (w p.1)))
    units (λ p _, unit_update_dec_le_fee _ _)) as H2.
  fold S1 in H1. fold S2' in H2.
  assert (inject_Z (S1 + S2') <= 1000)%Q as H3.
  { change 1000%Q with (inject_Z 1000). rewrite <- Zle_Qle. lia. }
  rewrite inject_Z_plus in H3.
  rewrite (Qceiling_comp _ 0); [done |].
  apply Q.max_l. lra.
Qed.

Lemma limit_not_exceeded_sim (free : bool) (total : Z) :
  free = true → free && (1000 <? total) = false → total ≤ 1000.
Proof. intros -> H. cbn [andb] in H. by apply Z.ltb_ge in H. Qed.

(** X9.  On the free plan every accepted upload, delete or update reports
    fees within the cap: the storage fee and the update fee add up to at
    most 1000 and the usage fee is 0. *)
Theorem free_plan_cap (s : StorageManager) (c : Command) (op : OpName)
    (fees : Fees) :
  is_free_plan s = true →
  (step s c).2 = Accepted op fees →
  storage_fee fees + update_fee fees ≤ 1000 ∧ usage_fee fees = 0.
Proof.
  intros Hfree Hacc.
  destruct c as [t u f n | t u f | t u f n | t]; cbn [step] in Hacc.
  - rewrite handle_upload_response in Hacc.
    destruct (decide _); [discriminate |].
    destruct (units_lookup STORAGE_UNITS u); [| discriminate].
    destruct (is_free_plan s && negb _); [discriminate |].
    destruct (upload_limit_exceeded s (_get_month_key t) u n) eqn:Hlim;
      [discriminate |].
    injection Hacc as _ <-. rewrite Hfree.
    apply (cap_from_sim _ _ _ n); [reflexivity |].
    by apply (limit_not_exceeded_sim (is_free_plan s)).
  - rewrite handle_delete_response in Hacc.
    destruct (units_lookup STORAGE_UNITS u); [| discriminate].
    destruct (is_free_plan s && negb _); [discriminate |].
    destruct (files s !! f) as [file|]; [| discriminate].
    destruct (negb _); [discriminate |].
    destruct (delete_limit_exceeded s (_get_month_key t) u (File_size file))
      eqn:Hlim; [discriminate |].
    injection Hacc as _ <-. rewrite Hfree.
    apply (cap_from_sim _ _ _ (File_size file)); [reflexivity |].
    by apply (limit_not_exceeded_sim (is_free_plan s)).
  - rewrite handle_update_response in Hacc.
    destruct (units_lookup STORAGE_UNITS u); [| discriminate].
    destruct (is_free_plan s && negb _); [discriminate |].
    destruct (files s !! f) as [file|]; [| discriminate].
    destruct (negb _); [discriminate |].
    destruct (update_limit_exceeded s (_get_month_key t) u (File_size file) n)
      eqn:Hlim; [discriminate |].
    injection Hacc as _ <-. rewrite Hfree.
    apply (cap_from_sim _ _ _ (File_size file + n)); [reflexivity |].
    by apply (limit_not_exceeded_sim (is_free_plan s)).
  - unfold handle_calc in Hacc.
    destruct (_get_previous_month_key t); [| discriminate].
    destruct (_calculate_total_fees s s0). discriminate.
Qed.

Lemma free_plan_cap_witness :
  is_free_plan (new_manager true) = true ∧
  (step (new_manager true) (Upload jan5 "storage_A1" "f1" 95200000)).2
    = Accepted UPLOAD (mkFees 952 48 0) ∧
  storage_fee (mkFees 952 48 0) + update_fee (mkFees 952 48 0) ≤ 1000 ∧
  usage_fee (mkFees 952 48 0) = 0.
Proof.
  assert ((step (new_manager true) (Upload jan5 "storage_A1" "f1" 95200000)).2
    = Accepted UPLOAD (mkFees 952 48 0)) as H by (vm_compute; reflexivity).
  split; [reflexivity |]. split; [exact H |].
  exact (free_plan_cap (new_manager true) _ _ _ eq_refl H).
Defined.

Lemma fees_bounds_below_witness :
  ("storage_A1", mkStorageUnit "A" (1 # 100) (5 # 10000) true)
    ∈ checked_units
        (is_free_plan
           (run (new_manager true) [Upload jan5 "storage_A1" "f1" 500])) ∧
  0 < max_size
        (stat_view
           (month_view
              (run (new_manager true) [Upload jan5 "storage_A1" "f1" 500])
              "2024-01") "storage_A1") ∧
  1 ≤ storage_fee
        (_calculate_total_fees
           (run (new_manager true) [Upload jan5 "storage_A1" "f1" 500])
           "2024-01").2.
Proof.
  assert (("storage_A1", mkStorageUnit "A" (1 # 100) (5 # 10000) true)
    ∈ checked_units
        (is_free_plan
           (run (new_manager true) [Upload jan5 "storage_A1" "f1" 500])))
    as Hin.
  { assert (is_free_plan
      (run (new_manager true) [Upload jan5 "storage_A1" "f1" 500]) = true)
      as -> by (vm_compute; reflexivity).
    unfold checked_units, STORAGE_UNITS. cbn [List.filter snd negb orb
      is_free_plan_allowed]. left. }
  assert (0 < max_size
    (stat_view
       (month_view
          (run (new_manager true) [Upload jan5 "storage_A1" "f1" 500])
          "2024-01") "storage_A1")) as Hpos by (vm_compute; reflexivity).
  split; [exact Hin |]. split; [exact Hpos |].
  exact (proj1 (proj2 (proj2 (proj2 (fees_bounds_below
    (run (new_manager true) [Upload jan5 "storage_A1" "f1" 500]) "2024-01"))))
    _ Hin Hpos).
Defined.

(** * Operations composed *)

Lemma handle_upload_accepted_inv s t u f n s1 op fees :
  handle_upload s t u f n = (s1, Accepted op fees) →
  upload_allowed s u f ∧
  upload_limit_exceeded s (_get_month_key t) u n = false.
Proof.
  intros E. destruct (upload_allowed_dec s u f) as [Hok | Hno].
  - split; [done |].
    destruct (handle_upload_dynamic s t u f n Hok) as (s2 & _ & _ & E2).
    rewrite E in E2.
    by destruct (upload_limit_exceeded s (_get_month_key t) u n).
  - destruct (handle_upload_static s t u f n Hno) as (why & E2 & _).
    congruence.
Qed.

Lemma handle_delete_accepted_inv s t u f s1 op fees :
  handle_delete s t u f = (s1, Accepted op fees) →
  ∃ file, file_in_unit s u f file ∧
    delete_limit_exceeded s (_get_month_key t) u (File_size file) = false.
Proof.
  intros E. destruct (file_in_unit_dec s u f) as [[file Hok] | Hno].
  - exists file. split; [done |].
    destruct (handle_delete_dynamic s t u f file Hok) as (s2 & _ & _ & E2).
    rewrite E in E2.
    by destruct (delete_limit_exceeded s (_get_month_key t) u (File_size file)).
  - destruct (handle_delete_static s t u f Hno) as (why & E2 & _).
    congruence.
Qed.

(** X10.  An accepted upload followed by an accepted delete of the same
    file leaves the registry as it was and every unit's occupancy as it
    was.  The pair is still charged: when both fall in the same month, the
    unit's update traffic has grown by twice the size and its maximum size
    has seen the file. *)
Theorem upload_then_delete (s s1 s2 : StorageManager) (t1 t2 : datetime)
    (u f : string) (n : Z) (fees1 fees2 : Fees) :
  handle_upload s t1 u f n = (s1, Accepted UPLOAD fees1) →
  handle_delete s1 t2 u f = (s2, Accepted DELETE fees2) →
  files s2 = files s ∧
  (∀ k, size_get (current_storage_size s2) k
        = size_get (current_storage_size s) k) ∧
  (_get_month_key t2 = _get_month_key t1 →
   stats_lookup s2 (_get_month_key t1) u =
     Some (mkMonthlyStats
             (Z.max (max_size (stat_view (month_view s (_get_month_key t1)) u))
                    (size_get (current_storage_size s) u + n))
             (update_kb_sum (stat_view (month_view s (_get_month_key t1)) u)
              + n + n))).
Proof.
  intros E1 E2.
  destruct (handle_upload_accepted_inv _ _ _ _ _ _ _ _ E1) as (Hok1 & Hlim1).
  destruct (handle_upload_accepted s t1 u f n Hok1 Hlim1)
    as (s1' & fees1' & E1' & Hfi1 & Ho1 & Hst1).
  rewrite E1 in E1'. injection E1' as <- _.
  destruct (handle_delete_accepted_inv _ _ _ _ _ _ _ E2)
    as (file & Hok2 & Hlim2).
  destruct (handle_delete_accepted s1 t2 u f file Hok2 Hlim2)
    as (s2' & fees2' & E2' & Hfi2 & Ho2 & Hst2).
  rewrite E2 in E2'. injection E2' as <- _.
  assert (file = mkFile f n u) as ->.
  { destruct Hok2 as (_ & Hf & _). rewrite Hfi1, lookup_insert_eq in Hf.
    by injection Hf as <-. }
  cbn [File_size] in *.
  split; [| split].
  - rewrite Hfi2, Hfi1. apply delete_insert_id. apply Hok1.
  - intros k. rewrite Ho2, Ho1, !size_get_insert.
    destruct (decide (u = k)) as [-> | _]; [| done].
    destruct (decide (k = k)); [lia | done].
  - intros Hmk. rewrite Hmk in Hst2.
    rewrite (stats_updated_new _ _ _ _ _ Hst2).
    rewrite (stats_lookup_view _ _ _ _ (stats_updated_new _ _ _ _ _ Hst1)).
    reflexivity.
Qed.

Lemma upload_then_delete_witness :
  handle_upload (new_manager false) jan5 "storage_B1" "f1" 700
    = ((handle_upload (new_manager false) jan5 "storage_B1" "f1" 700).1,
       Accepted UPLOAD (mkFees 1 1 0)) ∧
  handle_delete (handle_upload (new_manager false) jan5 "storage_B1" "f1" 700).1
      jan20 "storage_B1" "f1"
    = ((handle_delete
          (handle_upload (new_manager false) jan5 "storage_B1" "f1" 700).1
          jan20 "storage_B1" "f1").1,
       Accepted DELETE (mkFees 1 1 0)) ∧
  files (handle_delete
           (handle_upload (new_manager false) jan5 "storage_B1" "f1" 700).1
           jan20 "storage_B1" "f1").1
    = files (new_manager false).
Proof.
  assert (handle_upload (new_manager false) jan5 "storage_B1" "f1" 700
    = ((handle_upload (new_manager false) jan5 "storage_B1" "f1" 700).1,
       Accepted UPLOAD (mkFees 1 1 0))) as H1 by (vm_compute; reflexivity).
  assert (handle_delete
      (handle_upload (new_manager false) jan5 "storage_B1" "f1" 700).1
      jan20 "storage_B1" "f1"
    = ((handle_delete
          (handle_upload (new_manager false) jan5 "storage_B1" "f1" 700).1
          jan20 "storage_B1" "f1").1,
       Accepted DELETE (mkFees 1 1 0))) as H2 by (vm_compute; reflexivity).
  split; [exact H1 |]. split; [exact H2 |].
  exact (proj1 (upload_then_delete _ _ _ _ _ _ _ _ _ _ H1 H2)).
Defined.

(** * Admission is monotone in the size *)

Lemma unit_storage_fee_mono p a b :
  p ∈ STORAGE_UNITS → a ≤ b → unit_storage_fee p.2 a ≤ unit_storage_fee p.2 b.
Proof.
  intros Hp Hab. destruct (Z.ltb_spec 0 a) as [Ha | Ha].
  - unfold unit_storage_fee.
    rewrite (proj2 (Z.ltb_lt 0 a) Ha), (proj2 (Z.ltb_lt 0 b)) by lia.
    apply Qceiling_resp_le, fee_dec_mono; [by apply kb_to_mb_mono |].
    by apply Qlt_le_weak, rates_positive.
  - unfold unit_storage_fee at 1. rewrite (proj2 (Z.ltb_ge 0 a) Ha).
    by apply unit_storage_fee_nonneg.
Qed.

Lemma unit_update_fee_mono p a b :
  p ∈ STORAGE_UNITS → a ≤ b → unit_update_fee p.2 a ≤ unit_update_fee p.2 b.
Proof.
  intros Hp Hab. destruct (Z.ltb_spec 0 a) as [Ha | Ha].
  - unfold unit_update_fee.
    rewrite (proj2 (Z.ltb_lt 0 a) Ha), (proj2 (Z.ltb_lt 0 b)) by lia.
    apply Qceiling_resp_le, fee_dec_mono; [by apply kb_to_mb_mono |].
    by apply Qlt_le_weak, rates_positive.
  - unfold unit_update_fee at 1. rewrite (proj2 (Z.ltb_ge 0 a) Ha).
    by apply unit_update_fee_nonneg.
Qed.

Lemma sim_total_mono v u pmax pmax' kb kb' :
  pmax' ≤ pmax → kb' ≤ kb →
  sim_total v u pmax' kb' ≤ sim_total v u pmax kb.
Proof.
  intros Hp Hk. unfold sim_total. apply sumZ_map_le. intros p Hin.
  apply checked_units_sub in Hin.
  pose proof (unit_storage_fee_mono p
    (sim_max_kb v u pmax' p.1) (sim_max_kb v u pmax p.1) Hin).
  pose proof (unit_update_fee_mono p
    (sim_update_kb v u kb' p.1) (sim_update_kb v u kb p.1) Hin).
  unfold sim_max_kb, sim_update_kb in *.
  destruct (decide (p.1 = u)); lia.
Qed.

Lemma limit_bool_mono (free : bool) (a b : Z) :
  a ≤ b → free && (1000 <? b) = false → free && (1000 <? a) = false.
Proof.
  intros Hab. destruct free; [| done]. cbn [andb].
  rewrite !Z.ltb_ge. lia.
Qed.

(** X11.  The free-plan limit is monotone in the size: if an upload of [n]
    KB is accepted, so is the same upload with any smaller size, and if an
    update to [n] KB is accepted, so is the same update to any smaller
    size. *)
Theorem smaller_sizes_are_admitted (s : StorageManager) (t : datetime)
    (u f : string) (n n' : Z) :
  n' ≤ n →
  ((∃ fees, (handle_upload s t u f n).2 = Accepted UPLOAD fees) →
   ∃ fees', (handle_upload s t u f n').2 = Accepted UPLOAD fees') ∧
  ((∃ fees, (handle_update s t u f n).2 = Accepted UPDATE fees) →
   ∃ fees', (handle_update s t u f n').2 = Accepted UPDATE fees').
Proof.
  intros Hle. split.
  - rewrite !handle_upload_response.
    destruct (decide _); [by intros [? ?] |].
    destruct (units_lookup STORAGE_UNITS u); [| by intros [? ?]].
    destruct (is_free_plan s && negb _); [by intros [? ?] |].
    destruct (upload_limit_exceeded s (_get_month_key t) u n) eqn:Hlim;
      [by intros [? ?] |].
    intros _.
    assert (upload_limit_exceeded s (_get_month_key t) u n' = false) as ->;
      [| by eexists].
    unfold upload_limit_exceeded in *. cbv zeta in *.
    eapply limit_bool_mono; [| exact Hlim].
    apply sim_total_mono; lia.
  - rewrite !handle_update_response.
    destruct (units_lookup STORAGE_UNITS u); [| by intros [? ?]].
    destruct (is_free_plan s && negb _); [by intros [? ?] |].
    destruct (files s !! f) as [file|]; [| by intros [? ?]].
    destruct (negb _); [by intros [? ?] |].
    destruct (update_limit_exceeded s (_get_month_key t) u (File_size file) n)
      eqn:Hlim; [by intros [? ?] |].
    intros _.
    assert (update_limit_exceeded s (_get_month_key t) u (File_size file) n'
            = false) as ->; [| by eexists].
    unfold update_limit_exceeded in *. cbv zeta in *.
    eapply limit_bool_mono; [| exact Hlim].
    apply sim_total_mono; lia.
Qed.

Lemma smaller_sizes_are_admitted_witness :
  95199000 ≤ 95200000 ∧
  (∃ fees, (handle_upload (new_manager true) jan5 "storage_A1" "f1"
              95200000).2 = Accepted UPLOAD fees) ∧
  ∃ fees', (handle_upload (new_manager true) jan5 "storage_A1" "f1"
              95199000).2 = Accepted UPLOAD fees'.
Proof.
  assert (95199000 ≤ 95200000) as Hle by lia.
  assert (∃ fees, (handle_upload (new_manager true) jan5 "storage_A1" "f1"
              95200000).2 = Accepted UPLOAD fees) as Hacc.
  { exists (mkFees 952 48 0). vm_compute. reflexivity. }
  split; [exact Hle |]. split; [exact Hacc |].
  exact (proj1 (smaller_sizes_are_admitted (new_manager true) jan5
    "storage_A1" "f1" 95200000 95199000 Hle) Hacc).
Defined.

(** * Who writes what *)

Lemma commit_step_frame mk u s s' :
  commit_step mk u s s' →
  is_free_plan s' = is_free_plan s ∧
  calc_reported_sizes_snapshot s' = calc_reported_sizes_snapshot s ∧
  update_fee_settled_for_month s' = update_fee_settled_for_month s ∧
  last_month_eom_storage_sizes s' = last_month_eom_storage_sizes s.
Proof. by intros (? & ? & ? & ? & _). Qed.

(** X12.  Operations and month close write disjoint parts of the manager.
    An upload, delete or update never changes the snapshots, the settled
    months or the seed table, and touches no month of the statistics but
    the one of its timestamp.  Month close never changes the registry or
    the occupancy, and touches no month of the statistics but the one it
    resolves to.  No command changes the plan. *)
Theorem writes_are_separate (s : StorageManager) (c : Command) :
  is_free_plan (step s c).1 = is_free_plan s ∧
  (∀ mk, op_month_key c = Some mk →
     calc_reported_sizes_snapshot (step s c).1
       = calc_reported_sizes_snapshot s ∧
     update_fee_settled_for_month (step s c).1
       = update_fee_settled_for_month s ∧
     last_month_eom_storage_sizes (step s c).1
       = last_month_eom_storage_sizes s ∧
     ∀ k, k ≠ mk → monthly_stats (step s c).1 !! k = monthly_stats s !! k) ∧
  (∀ t, c = Calc t →
     files (step s c).1 = files s ∧
     current_storage_size (step s c).1 = current_storage_size s ∧
     ∀ k, _get_previous_month_key t ≠ Some k →
          monthly_stats (step s c).1 !! k = monthly_stats s !! k).
Proof.
  split; [apply step_frame |]. split.
  - intros mk Hop.
    destruct (op_shape s c mk Hop)
      as [(Hl & _) | (u & s2 & s3 & op & Hl & Hc & _ & _ & ->)].
    + destruct Hl as ((_ & _ & _ & ? & ? & ?) & ? & _). done.
    + cbn [fst].
      destruct (calculate_total_fees_spec s3 mk) as (Hl3 & _).
      destruct Hl as ((_ & _ & _ & Hsn & Hse & He) & Ho & _).
      destruct Hl3 as ((_ & _ & _ & Hsn3 & Hse3 & He3) & Ho3 & _).
      pose proof (commit_step_frame _ _ _ _ Hc) as (_ & Hsnc & Hsec & Hec).
      split_and!; [congruence.. |].
      intros k Hk.
      by rewrite (Ho3 k Hk), (commit_step_other _ _ _ _ k Hc Hk), (Ho k Hk).
  - intros t ->. cbn [step].
    destruct (_get_previous_month_key t) as [mk|] eqn:Hk.
    + rewrite (handle_calc_spec s t mk Hk).
      cbn [fst files current_storage_size monthly_stats].
      split; [done |]. split; [done |].
      intros k Hne.
      destruct (calculate_total_fees_spec s mk) as ((_ & Ho & _) & _).
      apply Ho. congruence.
    + by rewrite (handle_calc_raise s t Hk).
Qed.

Lemma writes_are_separate_witness :
  op_month_key (Upload jan5 "storage_A1" "f1" 500) = Some "2024-01" ∧
  calc_reported_sizes_snapshot
    (step (new_manager true) (Upload jan5 "storage_A1" "f1" 500)).1
    = calc_reported_sizes_snapshot (new_manager true).
Proof.
  assert (op_month_key (Upload jan5 "storage_A1" "f1" 500) = Some "2024-01")
    as H by (vm_compute; reflexivity).
  split; [exact H |].
  exact (proj1 (proj1 (proj2 (writes_are_separate (new_manager true)
    (Upload jan5 "storage_A1" "f1" 500))) "2024-01" H)).
Defined.

(** X13.  Month close for a month it has not closed before, with sizes
    within [MAX_EXACT_KB], reports the occupancy of the four units as it is
    at that moment, together with the fees of the month. *)
Theorem first_month_close_reports_occupancy (s : StorageManager)
    (t : datetime) (mk : string) :
  _get_previous_month_key t = Some mk →
  calc_reported_sizes_snapshot s !! mk = None →
  command_in_range s (Calc t) →
  (handle_calc s t).2 =
    CalcReport (size_get (current_storage_size s) "storage_A1")
               (size_get (current_storage_size s) "storage_A2")
               (size_get (current_storage_size s) "storage_B1")
               (size_get (current_storage_size s) "storage_B2")
               (_calculate_total_fees s mk).2.
Proof.
  intros Hk Hnone _. rewrite (handle_calc_response s t mk Hk).
  unfold snapshot_for. rewrite Hnone.
  assert (∀ u, u ∈ STORAGE_UNITS.*1 →
    size_get (take_snapshot (current_storage_size s)
                (last_month_eom_storage_sizes s)).1 u
    = size_get (current_storage_size s) u) as Hsz.
  { intros u Hu. unfold size_get at 1.
    rewrite (proj1 (take_snapshot_lookup _ _ u)).
    by rewrite (bool_decide_eq_true_2 _ Hu). }
  rewrite !Hsz; [done | | | |];
    unfold STORAGE_UNITS; cbn [fmap list_fmap fst]; set_solver.
Qed.

Lemma first_month_close_reports_occupancy_witness :
  _get_previous_month_key feb1 = Some "2024-01" ∧
  calc_reported_sizes_snapshot
    (run (new_manager true) [Upload jan5 "storage_A1" "f1" 500])
    !! "2024-01" = None ∧
  command_in_range (run (new_manager true) [Upload jan5 "storage_A1" "f1" 500])
    (Calc feb1) ∧
  (handle_calc (run (new_manager true) [Upload jan5 "storage_A1" "f1" 500])
     feb1).2 =
    CalcReport
      (size_get
         (current_storage_size
            (run (new_manager true) [Upload jan5 "storage_A1" "f1" 500]))
         "storage_A1")
      (size_get
         (current_storage_size
            (run (new_manager true) [Upload jan5 "storage_A1" "f1" 500]))
         "storage_A2")
      (size_get
         (current_storage_size
            (run (new_manager true) [Upload jan5 "storage_A1" "f1" 500]))
         "storage_B1")
      (size_get
         (current_storage_size
            (run (new_manager true) [Upload jan5 "storage_A1" "f1" 500]))
         "storage_B2")
      (_calculate_total_fees
         (run (new_manager true) [Upload jan5 "storage_A1" "f1" 500])
         "2024-01").2.
Proof.
  assert (_get_previous_month_key feb1 = Some "2024-01") as Hk
    by (vm_compute; reflexivity).
  assert (calc_reported_sizes_snapshot
    (run (new_manager true) [Upload jan5 "storage_A1" "f1" 500])
    !! "2024-01" = None) as Hn by (vm_compute; reflexivity).
  assert (command_in_range
    (run (new_manager true) [Upload jan5 "storage_A1" "f1" 500]) (Calc feb1))
    as Hcmd.
  { intros mk Hmk. rewrite Hk in Hmk. injection Hmk as <-.
    split; solve_in_range. }
  split; [exact Hk |]. split; [exact Hn |]. split; [exact Hcmd |].
  exact (first_month_close_reports_occupancy _ feb1 "2024-01" Hk Hn Hcmd).
Defined.

(** * Month keys *)

Lemma pretty_N_char_no_dash x : pretty_N_char x ≠ "-"%char.
Proof. unfold pretty_N_char. by repeat case_match. Qed.

Lemma pretty_N_go_no_dash x s : no_dash s → no_dash (pretty_N_go x s).
Proof.
  revert s. induction (N.lt_wf_0 x) as [x _ IH]; intros s Hs.
  assert (x = 0 ∨ 0 < x)%N as [-> | Hx] by lia.
  - by rewrite pretty_N_go_0.
  - rewrite pretty_N_go_step by done. apply IH.
    + by apply N.div_lt.
    + split; [apply pretty_N_char_no_dash | done].
Qed.

Lemma pretty_nat_no_dash (n : nat) : no_dash (pretty n).
Proof.
  unfold pretty, pretty_nat, pretty, pretty_N.
  case_decide; [by split |]. by apply pretty_N_go_no_dash.
Qed.

Lemma pretty_N_go_head x s :
  (0 < x)%N →
  ∃ c rest, pretty_N_go x s = String c rest ∧ c ≠ "0"%char.
Proof.
  revert s. induction (N.lt_wf_0 x) as [x _ IH]; intros s Hx.
  rewrite pretty_N_go_step by done.
  destruct (N.eq_0_gt_0_cases (x `div` 10)) as [Hd | Hd].
  - rewrite Hd, pretty_N_go_0. eexists _, _. split; [done |].
    assert (x < 10)%N by (by apply N.div_small_iff in Hd).
    rewrite N.mod_small by done.
    assert (x = 1 ∨ x = 2 ∨ x = 3 ∨ x = 4 ∨ x = 5 ∨ x = 6
            ∨ x = 7 ∨ x = 8 ∨ x = 9)%N as Hc by lia.
    destruct Hc as [-> | [-> | [-> | [-> | [-> | [-> | [-> | [-> | ->]]]]]]]];
      done.
  - apply IH; [by apply N.div_lt | done].
Qed.

Lemma pretty_nat_head (n : nat) :
  (0 < n)%nat → ∃ c rest, pretty n = String c rest ∧ c ≠ "0"%char.
Proof.
  intros Hn. unfold pretty, pretty_nat, pretty, pretty_N.
  case_decide; [lia |]. apply pretty_N_go_head. lia.
Qed.

Lemma append_dash_inj a b x y :
  no_dash a → no_dash b →
  a +:+ String "-" x = b +:+ String "-" y → a = b ∧ x = y.
Proof.
  revert b. induction a as [| c a IH]; intros [| d b] Ha Hb E; simpl in E.
  - by injection E as ->.
  - injection E as <- _. by destruct Hb as [Hb _].
  - injection E as -> _. by destruct Ha as [Ha _].
  - injection E as -> E. destruct Ha as [_ Ha], Hb as [_ Hb].
    destruct (IH b Ha Hb E) as [-> ->]. done.
Qed.

Lemma append_char c x : String c "" +:+ x = String c x.
Proof. reflexivity. Qed.

Lemma fmt_02d_inj m1 m2 : fmt_02d m1 = fmt_02d m2 → m1 = m2.
Proof.
  unfold fmt_02d.
  destruct (Nat.ltb_spec m1 10) as [H1 | H1],
           (Nat.ltb_spec m2 10) as [H2 | H2]; rewrite ?append_char; intros E.
  - injection E as E. by apply (inj pretty) in E.
  - destruct (pretty_nat_head m2 ltac:(lia)) as (c & rest & Ep & Hc).
    rewrite Ep in E. injection E as <- _. done.
  - destruct (pretty_nat_head m1 ltac:(lia)) as (c & rest & Ep & Hc).
    rewrite Ep in E. injection E as -> _. done.
  - by apply (inj pretty) in E.
Qed.

Lemma month_key_of_inj y1 m1 y2 m2 :
  month_key_of y1 m1 = month_key_of y2 m2 → y1 = y2 ∧ m1 = m2.
Proof.
  unfold month_key_of. rewrite !append_char. intros E.
  apply append_dash_inj in E as [Ey Em]; try apply pretty_nat_no_dash.
  split; [by apply (inj pretty) in Ey | by apply fmt_02d_inj].
Qed.

(** X14.  Month keys do not collide: two timestamps get the same key only
    when they have the same year and the same month, so the ledger never
    merges two calendar months. *)
Theorem month_key_separates_months (t1 t2 : datetime) :
  _get_month_key t1 = _get_month_key t2 ↔
  year t1 = year t2 ∧ month t1 = month t2.
Proof.
  unfold _get_month_key. split.
  - apply month_key_of_inj.
  - by intros [-> ->].
Qed.

(** X15.  Month close resolves to the calendar month before its timestamp
    and to no other: unless the timestamp lies in January of year 1, where
    the computation leaves the range of dates, the key it resolves to is
    the key of a timestamp [t'] exactly when [t'] lies in December of the
    year before (for a January timestamp) or in the month before of the
    same year. *)
Theorem month_close_resolves_to_previous_month (t t' : datetime) :
  (1 ≤ month t)%nat →
  ¬ (month t = 1%nat ∧ (year t ≤ 1)%nat) →
  _get_previous_month_key t = Some (_get_month_key t') ↔
  (if (month t =? 1)%nat
   then year t' = (year t - 1)%nat ∧ month t' = 12%nat
   else year t' = year t ∧ month t' = (month t - 1)%nat).
Proof.
  intros Hm Hnot. unfold _get_previous_month_key, _get_month_key.
  destruct (Nat.eqb_spec (month t) 1) as [H1 | H1].
  - destruct (Nat.leb_spec (year t) 1) as [Hy | Hy]; [exfalso; by apply Hnot |].
    split.
    + intros [= E]. apply month_key_of_inj in E as [<- <-]. done.
    + by intros [-> ->].
  - split.
    + intros [= E]. apply month_key_of_inj in E as [<- <-]. done.
    + by intros [-> ->].
Qed.

Lemma month_close_resolves_to_previous_month_witness :
  (1 ≤ month feb1)%nat ∧
  ¬ (month feb1 = 1%nat ∧ (year feb1 ≤ 1)%nat) ∧
  _get_previous_month_key feb1 = Some (_get_month_key jan5).
Proof.
  assert (1 ≤ month feb1)%nat as Hm by (cbn; lia).
  assert (¬ (month feb1 = 1%nat ∧ (year feb1 ≤ 1)%nat)) as Hn
    by (cbn; intros [? _]; lia).
  split; [exact Hm |]. split; [exact Hn |].
  apply (proj2 (month_close_resolves_to_previous_month feb1 jan5 Hm Hn)).
  cbn. done.
Defined.

(** * The dispatcher and the main loop *)

Lemma handler_pair {A B C} (h : A * B) (g : B → C) :
  (let '(m, r) := h in (m, g r)) = (h.1, g h.2).
Proof. by destruct h. Qed.

Lemma process_command_cases (lib : TextLib) (m : StorageManager)
    (line : string) :
  (∃ msg, process_command lib m line = (m, Some msg) ∧
     (msg = ERROR_EMPTY ∨ msg = ERROR_VALUE ∨
      ∃ verb, msg = verb +:+ ": invalid command format")) ∨
  (∃ c, process_command lib m line = ((step m c).1, render (step m c).2) ∧
        line_timestamp lib line = Some (command_timestamp c) ∧
        ∀ n, command_size c = Some n → line_size lib line = Some n).
Proof.
  unfold process_command, line_timestamp, line_size, line_words. cbv zeta.
  destruct (str_split lib (str_strip lib line)) as [| p0 rest] eqn:Hparts.
  { left. eexists. split; [done | by left]. }
  destruct (fromisoformat lib p0) as [t|] eqn:Hts.
  2: { left. eexists. split; [done | by right; left]. }
  destruct ((p0 :: rest) !! 1%nat) as [p1|].
  2: { left. eexists. split; [done | by right; left]. }
  destruct (bool_decide (str_upper lib p1 = "UPLOAD")
            && (length (p0 :: rest) =? 5)%nat).
  { destruct ((p0 :: rest) !! 2%nat) as [p2|];
      [| left; eexists; split; [done | by right; left]].
    destruct ((p0 :: rest) !! 3%nat) as [p3|];
      [| left; eexists; split; [done | by right; left]].
    destruct ((p0 :: rest) !! 4%nat) as [p4|];
      [| left; eexists; split; [done | by right; left]].
    destruct (int_of_str lib p4) as [size|] eqn:Hp4;
      [| left; eexists; split; [done | by right; left]].
    right. exists (Upload t p2 p3 size). split; [apply handler_pair |].
    split; [done |]. intros n [= <-]. cbn [mbind option_bind]. by rewrite Hp4. }
  destruct (bool_decide (str_upper lib p1 = "DELETE")
            && (length (p0 :: rest) =? 4)%nat).
  { destruct ((p0 :: rest) !! 2%nat) as [p2|];
      [| left; eexists; split; [done | by right; left]].
    destruct ((p0 :: rest) !! 3%nat) as [p3|];
      [| left; eexists; split; [done | by right; left]].
    right. exists (Delete t p2 p3). split; [apply handler_pair |].
    split; [done | by intros n [=]]. }
  destruct (bool_decide (str_upper lib p1 = "UPDATE")
            && (length (p0 :: rest) =? 5)%nat).
  { destruct ((p0 :: rest) !! 2%nat) as [p2|];
      [| left; eexists; split; [done | by right; left]].
    destruct ((p0 :: rest) !! 3%nat) as [p3|];
      [| left; eexists; split; [done | by right; left]].
    destruct ((p0 :: rest) !! 4%nat) as [p4|];
      [| left; eexists; split; [done | by right; left]].
    destruct (int_of_str lib p4) as [size|] eqn:Hp4;
      [| left; eexists; split; [done | by right; left]].
    right. exists (Update t p2 p3 size). split; [apply handler_pair |].
    split; [done |]. intros n [= <-]. cbn [mbind option_bind]. by rewrite Hp4. }
  destruct (bool_decide (str_upper lib p1 = "CALC")
            && (length (p0 :: rest) =? 2)%nat).
  { right. exists (Calc t). split; [apply handler_pair |].
    split; [done | by intros n [=]]. }
  left. eexists. split; [done |]. right. right. by eexists.
Qed.

Lemma process_command_state lib m line :
  (process_command lib m line).1 = m ∨
  ∃ c, (process_command lib m line).1 = (step m c).1.
Proof.
  destruct (process_command_cases lib m line)
    as [(msg & -> & _) | (c & -> & _)]; [by left | right; by exists c].
Qed.

Lemma main_loop_reaches lib lines :
  ∀ m printed, ∃ cs,
    (main_loop lib m lines printed).1.1 = run m cs ∧
    (length cs ≤ length lines)%nat.
Proof.
  induction lines as [| line rest IH]; intros m printed; cbn [main_loop].
  - exists []. split; [done | cbn; lia].
  - destruct (bool_decide (str_strip lib line = "")).
    { destruct (IH m printed) as (cs & E & Hl). exists cs.
      split; [done | cbn [length]; lia]. }
    pose proof (process_command_state lib m line) as Hst.
    destruct (process_command lib m line) as [m' [out|]]; cbn [fst] in Hst.
    + destruct (IH m' (printed ++ [out])) as (cs & E & Hl).
      destruct Hst as [-> | (c & ->)].
      * exists cs. split; [done | cbn [length]; lia].
      * exists (c :: cs). split; [done | cbn [length]; lia].
    + cbn [fst]. destruct Hst as [-> | (c & ->)].
      * exists []. split; [done | cbn [length]; lia].
      * exists [c]. split; [done | cbn [length]; lia].
Qed.

(** X17.  Whatever text [main] reads, the manager it ends with is the free
    plan manager after some sequence of well-formed commands, at most one
    per line; so what holds after every command sequence holds after every
    input: the occupancy of each unit is the sum of the sizes of its
    registered files, and every registered file is keyed by its name and
    lives in a free-plan unit. *)
Theorem main_runs_commands (lib : TextLib) (lines : list string) :
  ∃ cs,
    (main lib lines).1.1 = run (new_manager true) cs ∧
    (length cs ≤ length lines)%nat ∧
    conserved (main lib lines).1.1 ∧
    registry_ok (main lib lines).1.1.
Proof.
  unfold main.
  destruct (main_loop_reaches lib lines (new_manager true) []) as (cs & E & Hl).
  exists cs. rewrite E. split; [done |]. split; [done |].
  split; [apply reachable_conserved | apply reachable_registry_ok].
Qed.

Lemma previous_month_key_none t :
  _get_previous_month_key t = None ↔ month t = 1%nat ∧ (year t ≤ 1)%nat.
Proof.
  unfold _get_previous_month_key.
  destruct (Nat.eqb_spec (month t) 1) as [H1 | H1];
    [destruct (Nat.leb_spec (year t) 1) as [Hy | Hy] |].
  - split; [by intros _ | done].
  - split; [done | intros [_ ?]; lia].
  - split; [done | intros [? _]; lia].
Qed.

Lemma render_step_answers m c :
  _get_previous_month_key (command_timestamp c) ≠ None →
  is_Some (render (step m c).2).
Proof.
  intros Hts. destruct c as [t u f n | t u f | t u f n | t]; cbn [step].
  - rewrite handle_upload_response.
    repeat (first [case_decide | case_match]); by eexists.
  - rewrite handle_delete_response.
    repeat (first [case_decide | case_match]); by eexists.
  - rewrite handle_update_response.
    repeat (first [case_decide | case_match]); by eexists.
  - cbn [command_timestamp] in Hts.
    destruct (_get_previous_month_key t) as [mk|] eqn:Hk; [| done].
    rewrite (handle_calc_response _ _ _ Hk). by eexists.
Qed.

Example main_on_three_lines :
  main example_lib
    ["2024-01-05 upload storage_A1 f1 500"; ""; "2024-02-01 MOVE f1";
     "2024-02-01 CALC"]
  = (run (new_manager true)
       [Upload jan5 "storage_A1" "f1" 500; Calc feb1],
     ["UPLOAD: 1 1 0"; "MOVE: invalid command format";
      "CALC: [500 0 0 0] 1 1 0"],
     true).
Proof. vm_compute. reflexivity. Qed.

(** * What an accepted operation does *)

(** X19.  The whole effect of an accepted operation on the registry, the
    occupancy and the statistics.  An accepted upload registers the file
    under its name with the given size and unit; an accepted delete removes
    the entry of a file that was registered in that unit; an accepted
    update replaces the size of such a file and keeps its name and unit.
    The occupancy of the operation's unit moves by the size, by minus the
    file's size, or by the difference of the sizes, and no other unit's
    occupancy moves.  The month's entry for the unit takes the new
    maximum and the added traffic, and no other existing entry changes. *)
Theorem accepted_operation_effects (s s' : StorageManager) (c : Command)
    (op : OpName) (fees : Fees) :
  step s c = (s', Accepted op fees) →
  match c with
  | Upload t u f n =>
    files s !! f = None ∧
    files s' = <[f := mkFile f n u]> (files s) ∧
    current_storage_size s' =
      <[u := size_get (current_storage_size s) u + n]>
        (current_storage_size s) ∧
    stats_updated (_get_month_key t) u
      (λ _, upload_entry s (_get_month_key t) u n) s s'
  | Delete t u f =>
    ∃ file, files s !! f = Some file ∧ File_storage file = u ∧
      files s' = delete f (files s) ∧
      current_storage_size s' =
        <[u := size_get (current_storage_size s) u - File_size file]>
          (current_storage_size s) ∧
      stats_updated (_get_month_key t) u
        (λ _, delete_entry s (_get_month_key t) u (File_size file)) s s'
  | Update t u f n =>
    ∃ file, files s !! f = Some file ∧ File_storage file = u ∧
      files s' = <[f := mkFile (File_name file) n u]> (files s) ∧
      current_storage_size s' =
        <[u := size_get (current_storage_size s) u + (n - File_size file)]>
          (current_storage_size s) ∧
      stats_updated (_get_month_key t) u
        (λ _, update_entry s (_get_month_key t) u (File_size file) n) s s'
  | Calc _ => False
  end.
Proof.
  intros E. destruct c as [t u f n | t u f | t u f n | t]; cbn [step] in E.
  - destruct (handle_upload_accepted_inv _ _ _ _ _ _ _ _ E) as (Hok & Hlim).
    destruct (handle_upload_accepted s t u f n Hok Hlim)
      as (s1 & fees1 & E1 & Hfi & Ho & Hst).
    rewrite E in E1. injection E1 as <- _.
    split; [apply Hok |]. done.
  - destruct (handle_delete_accepted_inv _ _ _ _ _ _ _ E)
      as (file & Hok & Hlim).
    destruct (handle_delete_accepted s t u f file Hok Hlim)
      as (s1 & fees1 & E1 & Hfi & Ho & Hst).
    rewrite E in E1. injection E1 as <- _.
    exists file. destruct Hok as (_ & Hf & Hs). done.
  - assert (∃ file, file_in_unit s u f file ∧
      update_limit_exceeded s (_get_month_key t) u (File_size file) n = false)
      as (file & Hok & Hlim).
    { destruct (file_in_unit_dec s u f) as [[file Hok] | Hno].
      - exists file. split; [done |].
        destruct (handle_update_dynamic s t u f file n Hok)
          as (s2 & _ & _ & E2).
        rewrite E in E2.
        by destruct (update_limit_exceeded s (_get_month_key t) u
                       (File_size file) n).
      - destruct (handle_update_static s t u f n Hno) as (why & E2 & _).
        congruence. }
    destruct (handle_update_accepted s t u f file n Hok Hlim)
      as (s1 & fees1 & E1 & Hfi & Ho & Hst).
    rewrite E in E1. injection E1 as <- _.
    exists file. destruct Hok as (_ & Hf & Hs). done.
  - unfold handle_calc in E.
    destruct (_get_previous_month_key t); [| discriminate].
    destruct (_calculate_total_fees s s0). discriminate.
Qed.

Lemma accepted_operation_effects_witness :
  step (new_manager true) (Upload jan5 "storage_A1" "f1" 500)
    = ((step (new_manager true) (Upload jan5 "storage_A1" "f1" 500)).1,
       Accepted UPLOAD (mkFees 1 1 0)) ∧
  files (step (new_manager true) (Upload jan5 "storage_A1" "f1" 500)).1
    = <[ "f1" := mkFile "f1" 500 "storage_A1" ]> (files (new_manager true)).
Proof.
  assert (step (new_manager true) (Upload jan5 "storage_A1" "f1" 500)
    = ((step (new_manager true) (Upload jan5 "storage_A1" "f1" 500)).1,
       Accepted UPLOAD (mkFees 1 1 0))) as H by (vm_compute; reflexivity).
  split; [exact H |].
  exact (proj1 (proj2 (accepted_operation_effects _ _ _ _ _ H))).
Defined.

(** * The paid plan *)

(** X20.  On a paid plan no operation is ever rejected for the plan or for
    the fee limit: the only rejections left are the duplicate name, the
    unknown unit, the missing file and the file stored elsewhere. *)
Theorem paid_plan_rejections (s : StorageManager) (c : Command) (op : OpName)
    (why : Rejection) :
  is_free_plan s = false →
  (step s c).2 = Rejected op why →
  why ≠ NotOnFreePlan ∧ why ≠ FreePlanLimitExceeded.
Proof.
  intros Hpaid Hrej.
  destruct c as [t u f n | t u f | t u f n | t]; cbn [step] in Hrej.
  - rewrite handle_upload_response in Hrej.
    unfold upload_limit_exceeded in Hrej. cbv zeta in Hrej.
    rewrite Hpaid in Hrej. cbn [andb] in Hrej.
    repeat case_match; try discriminate; by injection Hrej as _ <-.
  - rewrite handle_delete_response in Hrej.
    unfold delete_limit_exceeded in Hrej. cbv zeta in Hrej.
    rewrite Hpaid in Hrej. cbn [andb] in Hrej.
    repeat case_match; try discriminate; by injection Hrej as _ <-.
  - rewrite handle_update_response in Hrej.
    unfold update_limit_exceeded in Hrej. cbv zeta in Hrej.
    rewrite Hpaid in Hrej. cbn [andb] in Hrej.
    repeat case_match; try discriminate; by injection Hrej as _ <-.
  - unfold handle_calc in Hrej.
    destruct (_get_previous_month_key t); [| discriminate].
    destruct (_calculate_total_fees s s0). discriminate.
Qed.

Lemma paid_plan_rejections_witness :
  is_free_plan (new_manager false) = false ∧
  (step (new_manager false) (Delete jan5 "storage_B1" "f1")).2
    = Rejected DELETE FileDoesNotExist ∧
  FileDoesNotExist ≠ NotOnFreePlan.
Proof.
  assert ((step (new_manager false) (Delete jan5 "storage_B1" "f1")).2
    = Rejected DELETE FileDoesNotExist) as H by (vm_compute; reflexivity).
  split; [reflexivity |]. split; [exact H |].
  exact (proj1 (paid_plan_rejections (new_manager false) _ _ _ eq_refl H)).
Defined.

(** A delete can itself be over the limit: after an upload that brings the
    fees to exactly 1000, deleting the file would add its size to the
    month's update traffic, and is rejected. *)
Example delete_over_the_limit :
  responses (new_manager true)
    [Upload jan5 "storage_A1" "f1" 95200000; Delete jan20 "storage_A1" "f1"]
  = [Accepted UPLOAD (mkFees 952 48 0); Rejected DELETE FreePlanLimitExceeded].
Proof. vm_compute. reflexivity. Qed.

(** * A month's storage fee never goes down *)

Lemma accepted_views mk u (g : MonthlyStats → MonthlyStats) s s2 s3 s' md2 :
  lazy_step mk s s2 → monthly_stats s2 !! mk = Some md2 →
  monthly_stats s3
    = <[mk := <[u := g (stat_view md2 u)]> md2]> (monthly_stats s2) →
  last_month_eom_storage_sizes s3 = last_month_eom_storage_sizes s2 →
  lazy_step mk s3 s' →
  ∀ mk' k,
    stat_view (month_view s' mk') k =
      if decide (mk' = mk ∧ k = u) then g (stat_view (month_view s mk) u)
      else stat_view (month_view s mk') k.
Proof.
  intros Hl E2 E3 He3 Hl3 mk' k.
  rewrite (lazy_step_view_any _ _ _ mk' k Hl3).
  pose proof (lazy_step_present_view _ _ _ _ Hl E2) as Hx.
  destruct (decide (mk' = mk)) as [-> | Hmk].
  - unfold month_view at 1. rewrite E3, lookup_insert_eq.
    unfold stat_view at 1.
    destruct (decide (k = u)) as [-> | Hk].
    + rewrite lookup_insert_eq, decide_True by done.
      cbn [default from_option]. unfold id. f_equal.
      by apply month_extends_view.
    + rewrite lookup_insert_ne, decide_False by (try done; by intros [_ ?]).
      by apply (month_extends_view _ _ k).
  - rewrite decide_False by (by intros [? _]).
    rewrite <- (lazy_step_view_any _ _ _ mk' k Hl).
    unfold month_view. rewrite E3, lookup_insert_ne, He3 by done. done.
Qed.

Lemma quiet_views mk s s' mk' k :
  lazy_step mk s s' →
  stat_view (month_view s' mk') k = stat_view (month_view s mk') k.
Proof. apply lazy_step_view_any. Qed.

Lemma step_view_max s c mk k :
  is_Some (monthly_stats s !! mk) →
  max_size (stat_view (month_view s mk) k)
    ≤ max_size (stat_view (month_view (step s c).1 mk) k).
Proof.
  intros [md Hmd].
  destruct c as [t u f n | t u f | t u f n | t]; cbn [step].
  - destruct (upload_allowed_dec s u f) as [Hok | Hno].
    + destruct (handle_upload_dynamic s t u f n Hok) as (s2 & Hl & [md2 E2] & ->).
      destruct (upload_limit_exceeded s (_get_month_key t) u n).
      * cbn [fst]. by rewrite (quiet_views _ _ _ mk k Hl).
      * cbn [fst]. set (mk0 := _get_month_key t) in *.
        pose proof (upload_perform_spec s2 mk0 u f n md2 E2) as Hp.
        set (s3 := upload_perform s2 mk0 u f n) in *.
        destruct (calculate_total_fees_spec s3 mk0) as (Hl3 & _).
        rewrite (accepted_views mk0 u
          (λ st, mkMonthlyStats
             (Z.max (max_size st) (size_get (current_storage_size s2) u + n))
             (update_kb_sum st + n)) s s2 s3 _ md2 Hl E2
          ltac:(by rewrite Hp) ltac:(by rewrite Hp) Hl3 mk k).
        destruct (decide _) as [[-> ->] | _]; cbn [max_size]; lia.
    + destruct (handle_upload_static s t u f n Hno) as (why & -> & _). done.
  - destruct (file_in_unit_dec s u f) as [[file Hok] | Hno].
    + destruct (handle_delete_dynamic s t u f file Hok)
        as (s2 & Hl & [md2 E2] & ->).
      destruct (delete_limit_exceeded s (_get_month_key t) u (File_size file)).
      * cbn [fst]. by rewrite (quiet_views _ _ _ mk k Hl).
      * cbn [fst]. set (mk0 := _get_month_key t) in *.
        pose proof (delete_perform_spec s2 mk0 u f file md2 E2) as Hp.
        set (s3 := delete_perform s2 mk0 u f file) in *.
        destruct (calculate_total_fees_spec s3 mk0) as (Hl3 & _).
        rewrite (accepted_views mk0 u
          (λ st, mkMonthlyStats (max_size st)
                   (update_kb_sum st + File_size file)) s s2 s3 _ md2 Hl E2
          ltac:(by rewrite Hp) ltac:(by rewrite Hp) Hl3 mk k).
        destruct (decide _) as [[-> ->] | _]; cbn [max_size]; lia.
    + destruct (handle_delete_static s t u f Hno) as (why & -> & _).
      cbn [fst].
      by rewrite (quiet_views _ _ _ mk k (ensure_month_init_lazy s _)).
  - destruct (file_in_unit_dec s u f) as [[file Hok] | Hno].
    + destruct (handle_update_dynamic s t u f file n Hok)
        as (s2 & Hl & [md2 E2] & ->).
      destruct (update_limit_exceeded s (_get_month_key t) u (File_size file) n).
      * cbn [fst]. by rewrite (quiet_views _ _ _ mk k Hl).
      * cbn [fst]. set (mk0 := _get_month_key t) in *.
        pose proof (update_perform_spec s2 mk0 u f file n md2 E2) as Hp.
        set (s3 := update_perform s2 mk0 u f file n) in *.
        destruct (calculate_total_fees_spec s3 mk0) as (Hl3 & _).
        rewrite (accepted_views mk0 u
          (λ st, mkMonthlyStats
             (Z.max (max_size st)
                (size_get (current_storage_size s2) u + (n - File_size file)))
             (update_kb_sum st + (File_size file + n))) s s2 s3 _ md2 Hl E2
          ltac:(by rewrite Hp) ltac:(by rewrite Hp) Hl3 mk k).
        destruct (decide _) as [[-> ->] | _]; cbn [max_size]; lia.
    + destruct (handle_update_static s t u f n Hno) as (why & -> & _).
      cbn [fst].
      by rewrite (quiet_views _ _ _ mk k (ensure_month_init_lazy s _)).
  - destruct (step_frame s (Calc t)) as (_ & _ & _ & Hm).
    destruct (Hm mk md Hmd ltac:(done)) as (md' & E' & X).
    cbn [step] in E'. unfold month_view. rewrite E', Hmd.
    by rewrite (month_extends_view _ _ k X).
Qed.

Lemma step_month_present s c mk :
  is_Some (monthly_stats s !! mk) → is_Some (monthly_stats (step s c).1 !! mk).
Proof.
  intros [md Hmd].
  destruct (op_month_key c) as [mk0|] eqn:Hop.
  - destruct (op_shape s c mk0 Hop)
      as [(Hl & _) | (u & s2 & s3 & op & Hl & Hc & _ & _ & ->)].
    + destruct (lazy_step_month _ _ _ _ _ Hl Hmd) as (md' & E' & _).
      by eexists.
    + cbn [fst]. destruct (calculate_total_fees_spec s3 mk0) as (Hl3 & _).
      destruct (lazy_step_month _ _ _ _ _ Hl Hmd) as (md2 & E2 & _).
      assert (is_Some (monthly_stats s3 !! mk)) as [md3 E3].
      { destruct Hc as (_ & _ & _ & _ & md0 & st' & E0 & ->).
        destruct (decide (mk = mk0)) as [-> | Hne].
        - rewrite lookup_insert_eq. by eexists.
        - rewrite lookup_insert_ne by done. by eexists. }
      destruct (lazy_step_month _ _ _ _ _ Hl3 E3) as (md' & E' & _).
      by eexists.
  - destruct (step_frame s c) as (_ & _ & _ & Hm).
    destruct (Hm mk md Hmd) as (md' & E' & _); [by rewrite Hop | by eexists].
Qed.

Lemma run_view_max s cs mk k :
  is_Some (monthly_stats s !! mk) →
  max_size (stat_view (month_view s mk) k)
    ≤ max_size (stat_view (month_view (run s cs) mk) k).
Proof.
  revert s. induction cs as [| c cs IH]; intros s Hp; cbn [run]; [done |].
  etrans; [by apply (step_view_max s c) |].
  by apply IH, step_month_present.
Qed.

(** X21.  Once a month exists in the ledger, its storage fee never goes
    down, whatever commands follow (deletes, shrinking updates and negative
    sizes included): every unit's maximum size only grows, and the fee is
    monotone in it. *)
Theorem storage_fee_never_decreases (s : StorageManager) (cs : list Command)
    (mk : string) :
  is_Some (monthly_stats s !! mk) →
  (∀ k, max_size (stat_view (month_view s mk) k)
        ≤ max_size (stat_view (month_view (run s cs) mk) k)) ∧
  storage_fee (_calculate_total_fees s mk).2
    ≤ storage_fee (_calculate_total_fees (run s cs) mk).2.
Proof.
  intros Hp. split; [intros k; by apply run_view_max |].
  rewrite !calculate_total_fees_fees. unfold fees_of_view.
  cbn [storage_fee]. rewrite (proj1 (run_frame s cs)).
  apply sumZ_map_le. intros p Hin.
  apply unit_storage_fee_mono; [by eapply checked_units_sub |].
  by apply run_view_max.
Qed.

Lemma storage_fee_never_decreases_witness :
  is_Some
    (monthly_stats
       (run (new_manager true) [Upload jan5 "storage_A1" "f1" 150000])
     !! "2024-01") ∧
  storage_fee
    (_calculate_total_fees
       (run (new_manager true) [Upload jan5 "storage_A1" "f1" 150000])
       "2024-01").2
  ≤ storage_fee
      (_calculate_total_fees
         (run (run (new_manager true) [Upload jan5 "storage_A1" "f1" 150000])
              [Delete jan20 "storage_A1" "f1"]) "2024-01").2.
Proof.
  assert (is_Some
    (monthly_stats
       (run (new_manager true) [Upload jan5 "storage_A1" "f1" 150000])
     !! "2024-01")) as H.
  { apply (bool_decide_unpack _). vm_compute. exact I. }
  split; [exact H |].
  exact (proj2 (storage_fee_never_decreases _
    [Delete jan20 "storage_A1" "f1"] "2024-01" H)).
Defined.

(** * Sizes stay in range

    Every command moves a size by at most twice the size it carries, so
    input with small sizes keeps the manager far inside the range of exact
    arithmetic. *)

Lemma stat_view_seeded (eom : gmap string Z) k :
  stat_view (seeded eom) k = mkMonthlyStats (size_get eom k) 0.
Proof.
  unfold stat_view, seeded, size_get. rewrite lookup_fmap.
  by destruct (eom !! k).
Qed.

(** The views, the registry and the tables after an upload, delete or
    update: a rejected one changes no view; an accepted one replaces the
    entry of its unit in its month. *)
Lemma op_views s c mk :
  op_month_key c = Some mk →
  last_month_eom_storage_sizes (step s c).1 = last_month_eom_storage_sizes s ∧
  calc_reported_sizes_snapshot (step s c).1 = calc_reported_sizes_snapshot s ∧
  ((files (step s c).1 = files s ∧
    current_storage_size (step s c).1 = current_storage_size s ∧
    ∀ mk' k, stat_view (month_view (step s c).1 mk') k
             = stat_view (month_view s mk') k)
   ∨
   ∃ u e file' d,
     (∀ mk' k, stat_view (month_view (step s c).1 mk') k =
        if decide (mk' = mk ∧ k = u) then e
        else stat_view (month_view s mk') k) ∧
     current_storage_size (step s c).1 =
       <[u := size_get (current_storage_size s) u + d]>
         (current_storage_size s) ∧
     (∀ f file, files (step s c).1 !! f = Some file →
        files s !! f = Some file ∨ file = file') ∧
     match c with
     | Upload _ u0 f n =>
       u = u0 ∧ e = upload_entry s mk u n ∧ d = n ∧ File_size file' = n
     | Delete _ u0 f =>
       u = u0 ∧ files s !! f = Some file' ∧
       e = delete_entry s mk u (File_size file') ∧ d = - File_size file'
     | Update _ u0 f n =>
       u = u0 ∧ File_size file' = n ∧
       ∃ file, files s !! f = Some file ∧
         e = update_entry s mk u (File_size file) n ∧
         d = n - File_size file
     | Calc _ => False
     end).
Proof.
  intros Hop.
  destruct c as [t u f n | t u f | t u f n | t]; cbn [op_month_key] in Hop;
    [injection Hop as <- | injection Hop as <- | injection Hop as <- | done];
    cbn [step].
  - destruct (upload_allowed_dec s u f) as [Hok | Hno].
    + destruct (handle_upload_dynamic s t u f n Hok)
        as (s2 & Hl & [md2 E2] & ->).
      pose proof Hl as ((Hfree & Hfs & Hocc & Hsn & Hse & Heom) & _).
      destruct (upload_limit_exceeded s (_get_month_key t) u n); cbn [fst].
      * split; [done |]. split; [done |]. left.
        split; [done |]. split; [done |]. intros mk' k.
        by apply quiet_views with (mk := _get_month_key t).
      * set (mk0 := _get_month_key t) in *.
        pose proof (upload_perform_spec s2 mk0 u f n md2 E2) as Hp.
        set (s3 := upload_perform s2 mk0 u f n) in *.
        destruct (calculate_total_fees_spec s3 mk0) as (Hl3 & _).
        pose proof Hl3 as ((_ & Hfs3 & Hocc3 & Hsn3 & _ & Heom3) & _).
        pose proof (accepted_views mk0 u
          (λ st, mkMonthlyStats
             (Z.max (max_size st) (size_get (current_storage_size s2) u + n))
             (update_kb_sum st + n)) s s2 s3 _ md2 Hl E2
          ltac:(by rewrite Hp) ltac:(by rewrite Hp) Hl3) as Hv.
        split; [by rewrite Heom3, Hp |]. split; [by rewrite Hsn3, Hp |].
        right. exists u, (upload_entry s mk0 u n), (mkFile f n u), n.
        split; [| split; [| split]].
        -- intros mk' k. rewrite Hv. unfold upload_entry. by rewrite Hocc.
        -- rewrite Hocc3, Hp. cbn [current_storage_size]. by rewrite Hocc.
        -- intros f' file'. rewrite Hfs3, Hp. cbn [files]. rewrite Hfs.
           destruct (decide (f' = f)) as [-> | Hne].
           ++ rewrite lookup_insert_eq. intros [= <-]. by right.
           ++ rewrite lookup_insert_ne by done. by left.
        -- done.
    + destruct (handle_upload_static s t u f n Hno) as (why & -> & _).
      cbn [fst]. split; [done |]. split; [done |]. by left.
  - destruct (file_in_unit_dec s u f) as [[file Hok] | Hno].
    + destruct (handle_delete_dynamic s t u f file Hok)
        as (s2 & Hl & [md2 E2] & ->).
      pose proof Hl as ((Hfree & Hfs & Hocc & Hsn & Hse & Heom) & _).
      destruct Hok as (Hunit & Hfile & Hst).
      destruct (delete_limit_exceeded s (_get_month_key t) u (File_size file));
        cbn [fst].
      * split; [done |]. split; [done |]. left.
        split; [done |]. split; [done |]. intros mk' k.
        by apply quiet_views with (mk := _get_month_key t).
      * set (mk0 := _get_month_key t) in *.
        pose proof (delete_perform_spec s2 mk0 u f file md2 E2) as Hp.
        set (s3 := delete_perform s2 mk0 u f file) in *.
        destruct (calculate_total_fees_spec s3 mk0) as (Hl3 & _).
        pose proof Hl3 as ((_ & Hfs3 & Hocc3 & Hsn3 & _ & Heom3) & _).
        pose proof (accepted_views mk0 u
          (λ st, mkMonthlyStats (max_size st)
                   (update_kb_sum st + File_size file)) s s2 s3 _ md2 Hl E2
          ltac:(by rewrite Hp) ltac:(by rewrite Hp) Hl3) as Hv.
        split; [by rewrite Heom3, Hp |]. split; [by rewrite Hsn3, Hp |].
        right.
        exists u, (delete_entry s mk0 u (File_size file)), file,
          (- File_size file).
        split; [| split; [| split]].
        -- intros mk' k. by rewrite Hv.
        -- rewrite Hocc3, Hp. cbn [current_storage_size].
           rewrite Hst, Hocc. f_equal.
        -- intros f' file'. rewrite Hfs3, Hp. cbn [files]. rewrite Hfs.
           intros [_ H]%lookup_delete_Some. by left.
        -- done.
    + destruct (handle_delete_static s t u f Hno) as (why & -> & _).
      cbn [fst].
      pose proof (ensure_month_init_lazy s (_get_month_key t)) as Hl.
      pose proof Hl as ((Hfree & Hfs & Hocc & Hsn & Hse & Heom) & _).
      split; [done |]. split; [done |]. left.
      split; [done |]. split; [done |]. intros mk' k.
      by apply quiet_views with (mk := _get_month_key t).
  - destruct (file_in_unit_dec s u f) as [[file Hok] | Hno].
    + destruct (handle_update_dynamic s t u f file n Hok)
        as (s2 & Hl & [md2 E2] & ->).
      pose proof Hl as ((Hfree & Hfs & Hocc & Hsn & Hse & Heom) & _).
      destruct Hok as (Hunit & Hfile & Hst).
      destruct (update_limit_exceeded s (_get_month_key t) u (File_size file) n);
        cbn [fst].
      * split; [done |]. split; [done |]. left.
        split; [done |]. split; [done |]. intros mk' k.
        by apply quiet_views with (mk := _get_month_key t).
      * set (mk0 := _get_month_key t) in *.
        pose proof (update_perform_spec s2 mk0 u f file n md2 E2) as Hp.
        set (s3 := update_perform s2 mk0 u f file n) in *.
        destruct (calculate_total_fees_spec s3 mk0) as (Hl3 & _).
        pose proof Hl3 as ((_ & Hfs3 & Hocc3 & Hsn3 & _ & Heom3) & _).
        pose proof (accepted_views mk0 u
          (λ st, mkMonthlyStats
             (Z.max (max_size st)
                (size_get (current_storage_size s2) u + (n - File_size file)))
             (update_kb_sum st + (File_size file + n))) s s2 s3 _ md2 Hl E2
          ltac:(by rewrite Hp) ltac:(by rewrite Hp) Hl3) as Hv.
        split; [by rewrite Heom3, Hp |]. split; [by rewrite Hsn3, Hp |].
        right.
        exists u, (update_entry s mk0 u (File_size file) n),
          (mkFile (File_name file) n (File_storage file)),
          (n - File_size file).
        split; [| split; [| split]].
        -- intros mk' k. rewrite Hv. unfold update_entry. by rewrite Hocc.
        -- rewrite Hocc3, Hp. cbn [current_storage_size]. by rewrite Hocc.
        -- intros f' file'. rewrite Hfs3, Hp. cbn [files]. rewrite Hfs.
           destruct (decide (f' = f)) as [-> | Hne].
           ++ rewrite lookup_insert_eq. intros [= <-]. by right.
           ++ rewrite lookup_insert_ne by done. by left.
        -- split; [done |]. split; [done |]. by exists file.
    + destruct (handle_update_static s t u f n Hno) as (why & -> & _).
      cbn [fst].
      pose proof (ensure_month_init_lazy s (_get_month_key t)) as Hl.
      pose proof Hl as ((Hfree & Hfs & Hocc & Hsn & Hse & Heom) & _).
      split; [done |]. split; [done |]. left.
      split; [done |]. split; [done |]. intros mk' k.
      by apply quiet_views with (mk := _get_month_key t).
Qed.

(** The tables and the views after month close. *)
Lemma calc_views s t mk :
  _get_previous_month_key t = Some mk →
  files (step s (Calc t)).1 = files s ∧
  current_storage_size (step s (Calc t)).1 = current_storage_size s ∧
  (∀ u, size_get (last_month_eom_storage_sizes (step s (Calc t)).1) u
        = size_get (last_month_eom_storage_sizes s) u ∨
        size_get (last_month_eom_storage_sizes (step s (Calc t)).1) u
        = size_get (current_storage_size s) u) ∧
  (∀ mk' sn u,
     calc_reported_sizes_snapshot (step s (Calc t)).1 !! mk' = Some sn →
     calc_reported_sizes_snapshot s !! mk' = Some sn ∨
     size_get sn u = size_get (current_storage_size s) u ∨
     size_get sn u = 0) ∧
  (∀ mk' k,
     stat_view (month_view (step s (Calc t)).1 mk') k
       = stat_view (month_view s mk') k ∨
     stat_view (month_view (step s (Calc t)).1 mk') k
       = mkMonthlyStats
           (size_get (last_month_eom_storage_sizes (step s (Calc t)).1) k) 0).
Proof.
  intros Hk. cbn [step]. rewrite (handle_calc_spec s t mk Hk).
  cbn [fst files current_storage_size last_month_eom_storage_sizes
       calc_reported_sizes_snapshot].
  split; [done |]. split; [done |].
  assert (∀ u, size_get (snapshot_for s mk) u
               = size_get (current_storage_size s) u ∨
               size_get (snapshot_for s mk) u = 0 ∨
               is_Some (calc_reported_sizes_snapshot s !! mk)) as Hsnap.
  { intros u. unfold snapshot_for.
    destruct (calc_reported_sizes_snapshot s !! mk) as [sn|];
      [right; right; by eexists |].
    assert (size_get
              (take_snapshot (current_storage_size s)
                 (last_month_eom_storage_sizes s)).1 u
            = if bool_decide (u ∈ STORAGE_UNITS.*1)
              then size_get (current_storage_size s) u else 0) as ->.
    { unfold size_get at 1. rewrite (proj1 (take_snapshot_lookup _ _ u)).
      by case_bool_decide. }
    case_bool_decide; [by left | by right; left]. }
  split; [| split].
  - intros u. unfold eom_after_calc.
    destruct (calc_reported_sizes_snapshot s !! mk); [by left |].
    assert (size_get
              (take_snapshot (current_storage_size s)
                 (last_month_eom_storage_sizes s)).2 u
            = if bool_decide (u ∈ STORAGE_UNITS.*1)
              then size_get (current_storage_size s) u
              else size_get (last_month_eom_storage_sizes s) u) as ->.
    { unfold size_get at 1. rewrite (proj2 (take_snapshot_lookup _ _ u)).
      by case_bool_decide. }
    case_bool_decide; [by right | by left].
  - intros mk' sn u. destruct (decide (mk' = mk)) as [-> | Hne].
    + rewrite lookup_insert_eq. intros [= <-].
      destruct (Hsnap u) as [H | [H | [sn Hsn]]]; [by right; left | by right; right |].
      left. by rewrite (snapshot_for_stored _ _ _ Hsn).
    + rewrite lookup_insert_ne by done. by left.
  - intros mk' k.
    destruct (calculate_total_fees_spec s mk) as (Hl & _).
    destruct (monthly_stats (_calculate_total_fees s mk).1 !! mk')
      as [md|] eqn:E.
    + left. rewrite <- (lazy_step_view_any _ _ _ mk' k Hl).
      unfold month_view. cbn [monthly_stats]. by rewrite E.
    + right. unfold month_view.
      cbn [monthly_stats last_month_eom_storage_sizes]. rewrite E.
      apply stat_view_seeded.
Qed.

Lemma within_mono B B' x : B ≤ B' → within B x → within B' x.
Proof. unfold within. lia. Qed.

Lemma sizes_within_new b B free :
  0 ≤ b → 0 ≤ B → sizes_within b B (new_manager free).
Proof.
  intros Hb HB. unfold sizes_within, within, new_manager, month_view.
  cbn [files current_storage_size last_month_eom_storage_sizes monthly_stats
       calc_reported_sizes_snapshot].
  split_and!.
  - intros f file. by rewrite lookup_empty.
  - intros u. unfold size_get. rewrite lookup_empty. cbn. lia.
  - intros u. unfold size_get. rewrite lookup_empty. cbn. lia.
  - intros mk u. rewrite lookup_empty, stat_view_seeded.
    unfold size_get. rewrite lookup_empty. cbn. lia.
  - intros mk sn u. by rewrite lookup_empty.
Qed.

Lemma sizes_within_mono b B B' s :
  B ≤ B' → sizes_within b B s → sizes_within b B' s.
Proof.
  intros HB (Hf & Ho & He & Hv & Hs).
  split_and!; [done | | | |].
  - intros u. by eapply within_mono.
  - intros u. by eapply within_mono.
  - intros mk u. destruct (Hv mk u). split; by eapply within_mono.
  - intros mk sn u E. eapply within_mono; [done | by eapply Hs].
Qed.

(** One command moves every bound by at most twice the size it carries. *)
Lemma step_sizes_within b B s c :
  0 ≤ b → 0 ≤ B → sizes_within b B s → command_within b c →
  sizes_within b (B + 2 * b) (step s c).1.
Proof.
  intros Hb HB Hs Hc.
  pose proof Hs as (Hf & Ho & He & Hv & Hsn).
  destruct (op_month_key c) as [mk|] eqn:Hop.
  - destruct (op_views s c mk Hop)
      as (Eeom & Esn & [(Efs & Eocc & Ev) | (u & e & file' & d & Ev & Eocc & Efs & Hcase)]).
    + apply sizes_within_mono with (B := B); [lia |].
      split_and!.
      * intros f file. rewrite Efs. apply Hf.
      * intros u. rewrite Eocc. apply Ho.
      * intros u. rewrite Eeom. apply He.
      * intros mk' u. rewrite Ev. apply Hv.
      * intros mk' sn u. rewrite Esn. apply Hsn.
    + assert (within b (File_size file') ∧ within (2 * b) d ∧
              within (B + 2 * b) (max_size e) ∧
              within (B + 2 * b) (update_kb_sum e)) as (Hfile' & Hd & Hm & Hu).
      { pose proof (Hv mk u) as [Hvm Hvu]. pose proof (Ho u) as Hou.
        unfold within in *.
        destruct c as [t u0 f n | t u0 f | t u0 f n | t]; [| | | done].
        - destruct Hcase as (-> & -> & -> & Hsz).
          pose proof (Hc n eq_refl) as Hn. unfold within in Hn.
          cbn [op_month_key] in Hop. injection Hop as <-.
          unfold upload_entry. cbn [max_size update_kb_sum]. lia.
        - destruct Hcase as (-> & Hfile & -> & ->).
          pose proof (Hf _ _ Hfile) as Hn. unfold within in Hn.
          unfold delete_entry. cbn [max_size update_kb_sum]. lia.
        - destruct Hcase as (-> & Hsz & file & Hfile & -> & ->).
          pose proof (Hc n eq_refl) as Hn. unfold within in Hn.
          pose proof (Hf _ _ Hfile) as Ho'. unfold within in Ho'.
          unfold update_entry. cbn [max_size update_kb_sum]. lia. }
      split_and!.
      * intros f file Hfile. destruct (Efs f file Hfile) as [H | ->];
          [by eapply Hf | done].
      * intros k. rewrite Eocc, size_get_insert.
        pose proof (Ho u) as Hou. pose proof (Ho k) as Hok.
        unfold within in *. destruct (decide (u = k)); lia.
      * intros k. rewrite Eeom. eapply within_mono; [| apply He]. lia.
      * intros mk' k. rewrite Ev. destruct (decide _); [done |].
        destruct (Hv mk' k). split; (eapply within_mono; [| done]); lia.
      * intros mk' sn k. rewrite Esn. intros E.
        eapply within_mono; [| by eapply Hsn]. lia.
  - destruct c as [| | | t]; try discriminate.
    destruct (_get_previous_month_key t) as [mk|] eqn:Hk.
    + destruct (calc_views s t mk Hk) as (Efs & Eocc & Eeom & Esn & Ev).
      apply sizes_within_mono with (B := B); [lia |].
      assert (∀ u, within B
        (size_get (last_month_eom_storage_sizes (step s (Calc t)).1) u))
        as He'.
      { intros u. destruct (Eeom u) as [-> | ->]; [apply He | apply Ho]. }
      split_and!.
      * intros f file. rewrite Efs. apply Hf.
      * intros u. rewrite Eocc. apply Ho.
      * exact He'.
      * intros mk' k. destruct (Ev mk' k) as [-> | ->]; [apply Hv |].
        cbn [max_size update_kb_sum]. split; [apply He' |].
        unfold within. lia.
      * intros mk' sn u E.
        destruct (Esn mk' sn u E) as [H | [-> | ->]];
          [by eapply Hsn | apply Ho | unfold within; lia].
    + cbn [step]. rewrite (handle_calc_raise s t Hk). cbn [fst].
      apply sizes_within_mono with (B := B); [lia | done].
Qed.

Lemma snapshot_for_size s mk u :
  (∃ sn, calc_reported_sizes_snapshot s !! mk = Some sn ∧
         snapshot_for s mk = sn) ∨
  size_get (snapshot_for s mk) u = size_get (current_storage_size s) u ∨
  size_get (snapshot_for s mk) u = 0.
Proof.
  unfold snapshot_for.
  destruct (calc_reported_sizes_snapshot s !! mk) as [sn|];
    [left; by eexists |].
  right.
  assert (size_get
            (take_snapshot (current_storage_size s)
               (last_month_eom_storage_sizes s)).1 u
          = if bool_decide (u ∈ STORAGE_UNITS.*1)
            then size_get (current_storage_size s) u else 0) as ->.
  { unfold size_get at 1. rewrite (proj1 (take_snapshot_lookup _ _ u)).
    by case_bool_decide. }
  case_bool_decide; [by left | by right].
Qed.

(** With room for one more command, the command finds its sizes in range. *)
Lemma sizes_within_in_range b B s c :
  0 ≤ b → 0 ≤ B → sizes_within b B s → command_within b c →
  B + 2 * b ≤ MAX_EXACT_KB → command_in_range s c.
Proof.
  intros Hb HB (Hf & Ho & He & Hv & Hsn) Hc Hmax.
  assert (∀ mk, month_in_range s mk) as Hmonth.
  { intros mk. apply Forall_forall. intros p _.
    destruct (Hv mk p.1) as [Hm Hu].
    unfold stats_in_range, kb_in_range, within in *. lia. }
  destruct c as [t u f n | t u f | t u f n | t]; cbn [command_in_range].
  - split; [apply Hmonth |].
    pose proof (Hc n eq_refl) as Hn.
    destruct (Hv (_get_month_key t) u) as [Hm Hu]. pose proof (Ho u) as Hou.
    unfold stats_in_range, kb_in_range, upload_entry, within in *.
    cbn [max_size update_kb_sum]. lia.
  - split; [apply Hmonth |]. intros file Hfile.
    pose proof (Hf _ _ Hfile) as Hn.
    destruct (Hv (_get_month_key t) u) as [Hm Hu].
    unfold stats_in_range, kb_in_range, delete_entry, within in *.
    cbn [max_size update_kb_sum]. lia.
  - split; [apply Hmonth |]. intros file Hfile.
    pose proof (Hf _ _ Hfile) as Hn'. pose proof (Hc n eq_refl) as Hn.
    destruct (Hv (_get_month_key t) u) as [Hm Hu]. pose proof (Ho u) as Hou.
    unfold stats_in_range, kb_in_range, update_entry, within in *.
    cbn [max_size update_kb_sum]. lia.
  - intros mk Hk. split; [apply Hmonth |].
    apply Forall_forall. intros p _.
    pose proof (Ho p.1) as Hou.
    destruct (snapshot_for_size s mk p.1) as [(sn & E & ->) | [-> | ->]].
    + pose proof (Hsn mk sn p.1 E) as H.
      unfold kb_in_range, within in *. lia.
    + unfold kb_in_range, within in *. lia.
    + unfold kb_in_range, MAX_EXACT_KB. lia.
Qed.

Lemma run_sizes_within b cs :
  0 ≤ b → Forall (command_within b) cs →
  ∀ B s, 0 ≤ B → sizes_within b B s →
    sizes_within b (B + 2 * b * Z.of_nat (length cs)) (run s cs) ∧
    (B + 2 * b * Z.of_nat (length cs) ≤ MAX_EXACT_KB → run_in_range s cs).
Proof.
  intros Hb. induction 1 as [| c cs Hc Hcs IH]; intros B s HB Hs;
    cbn [run run_in_range length].
  - split; [| done]. by replace (B + 2 * b * Z.of_nat 0) with B by lia.
  - pose proof (step_sizes_within b B s c Hb HB Hs Hc) as Hs'.
    destruct (IH (B + 2 * b) (step s c).1 ltac:(lia) Hs') as [Hrun Hrange].
    replace (B + 2 * b * Z.of_nat (S (length cs)))
      with (B + 2 * b + 2 * b * Z.of_nat (length cs)) by lia.
    split; [exact Hrun |]. intros Hmax. split; [| by apply Hrange].
    apply (sizes_within_in_range b B); [done .. |]. nia.
Qed.

(** X23.  Input with small sizes keeps the manager inside the range of
    exact arithmetic.  When every upload and update of a command sequence
    carries a size within [b] in absolute value, then after the sequence no
    occupancy, statistic, seed or snapshot size exceeds twice [b] times the
    number of commands; and when that product is within [MAX_EXACT_KB],
    every command of the sequence has found its sizes in range. *)
Theorem bounded_sizes_stay_in_range (free : bool) (cs : list Command)
    (b : Z) :
  0 ≤ b →
  Forall (command_within b) cs →
  sizes_within b (2 * b * Z.of_nat (length cs)) (run (new_manager free) cs) ∧
  (2 * b * Z.of_nat (length cs) ≤ MAX_EXACT_KB → run_in_range (new_manager free) cs).
Proof.
  intros Hb Hcs.
  exact (run_sizes_within b cs Hb Hcs 0 (new_manager free) ltac:(lia)
           (sizes_within_new b 0 free Hb ltac:(lia))).
Qed.

Lemma bounded_sizes_stay_in_range_witness :
  0 ≤ 500 ∧
  Forall (command_within 500)
    [Upload jan5 "storage_A1" "f1" 500; Update jan20 "storage_A1" "f1" 30;
     Calc feb1] ∧
  run_in_range (new_manager true)
    [Upload jan5 "storage_A1" "f1" 500; Update jan20 "storage_A1" "f1" 30;
     Calc feb1].
Proof.
  assert (Forall (command_within 500)
    [Upload jan5 "storage_A1" "f1" 500; Update jan20 "storage_A1" "f1" 30;
     Calc feb1]) as Hcs.
  { repeat apply Forall_cons_2; [| | | apply Forall_nil_2];
      intros n E; try discriminate E; injection E as <-; unfold within; lia. }
  split; [lia |]. split; [exact Hcs |].
  apply (bounded_sizes_stay_in_range true _ 500 ltac:(lia) Hcs).
  unfold MAX_EXACT_KB. cbn [length]. lia.
Defined.

(** * Input within range *)

Lemma main_loop_in_range lib b lines :
  0 ≤ b →
  (∀ line t, line ∈ lines → line_timestamp lib line = Some t →
             ¬ (month t = 1%nat ∧ (year t ≤ 1)%nat)) →
  (∀ line n, line ∈ lines → line_size lib line = Some n → within b n) →
  ∀ B m printed, 0 ≤ B → sizes_within b B m →
    B + 2 * b * Z.of_nat (length lines) ≤ MAX_EXACT_KB →
    (main_loop lib m lines printed).2 = true ∧
    length (main_loop lib m lines printed).1.2 =
      (length printed
       + length (List.filter
                   (λ l, negb (bool_decide (str_strip lib l = ""))) lines))%nat ∧
    ∃ cs, (main_loop lib m lines printed).1.1 = run m cs ∧
          run_in_range m cs.
Proof.
  intros Hb. induction lines as [| line rest IH];
    intros Hts Hsz B m printed HB Hs Hmax; cbn [main_loop List.filter].
  - split; [done |]. split; [cbn [fst snd length]; lia |]. by exists [].
  - assert (B + 2 * b * Z.of_nat (length rest) ≤ MAX_EXACT_KB ∧
            B + 2 * b ≤ MAX_EXACT_KB ∧
            B + 2 * b + 2 * b * Z.of_nat (length rest) ≤ MAX_EXACT_KB)
      as (Hrest & Hone & Hnext).
    { cbn [length] in Hmax. rewrite Nat2Z.inj_succ in Hmax. nia. }
    assert (∀ line t, line ∈ rest → line_timestamp lib line = Some t →
              ¬ (month t = 1%nat ∧ (year t ≤ 1)%nat)) as Hts'.
    { intros l t Hl. apply Hts. by right. }
    assert (∀ line n, line ∈ rest → line_size lib line = Some n → within b n)
      as Hsz'.
    { intros l n Hl. apply Hsz. by right. }
    destruct (bool_decide (str_strip lib line = "")); cbn [negb];
      [by apply (IH Hts' Hsz' B) |].
    destruct (process_command_cases lib m line)
      as [(msg & -> & _) | (c & -> & Ht & Hn)].
    + destruct (IH Hts' Hsz' B m (printed ++ [msg]) HB Hs Hrest)
        as (Hfin & Hlen & cs & E & Hr).
      split; [done |]. split; [| by exists cs].
      rewrite Hlen, length_app. cbn [length]. lia.
    + assert (command_within b c) as Hc.
      { intros n E. apply (Hsz line); [by left | by apply Hn]. }
      destruct (render_step_answers m c) as [out ->].
      { rewrite previous_month_key_none. apply (Hts line); [by left | done]. }
      pose proof (step_sizes_within b B m c Hb HB Hs Hc) as Hs'.
      destruct (IH Hts' Hsz' (B + 2 * b) (step m c).1 (printed ++ [out])
                  ltac:(lia) Hs' Hnext)
        as (Hfin & Hlen & cs & E & Hr).
      split; [done |]. split.
      * rewrite Hlen, length_app. cbn [length]. lia.
      * exists (c :: cs). cbn [run run_in_range]. split; [done |].
        split; [| done]. by apply (sizes_within_in_range b B).
Qed.

(** X18.  [main] answers every line that is not blank, one printed line
    each, and reaches the end of its input, when no line carries a
    timestamp in January of year 1 (for which month close raises an
    exception the dispatcher does not catch) and the sizes on the lines
    are small enough never to leave the range of exact arithmetic: each
    within [b] in absolute value, with twice [b] times the number of lines
    within [MAX_EXACT_KB].  Every command it runs then finds its sizes in
    range. *)
Theorem main_answers_every_line (lib : TextLib) (lines : list string)
    (b : Z) :
  0 ≤ b →
  (∀ line t, line ∈ lines → line_timestamp lib line = Some t →
             ¬ (month t = 1%nat ∧ (year t ≤ 1)%nat)) →
  (∀ line n, line ∈ lines → line_size lib line = Some n → within b n) →
  2 * b * Z.of_nat (length lines) ≤ MAX_EXACT_KB →
  (main lib lines).2 = true ∧
  length (main lib lines).1.2 =
    length (List.filter
              (λ l, negb (bool_decide (str_strip lib l = ""))) lines) ∧
  ∃ cs, (main lib lines).1.1 = run (new_manager true) cs ∧
        run_in_range (new_manager true) cs.
Proof.
  intros Hb Hts Hsz Hmax. unfold main.
  destruct (main_loop_in_range lib b lines Hb Hts Hsz 0 (new_manager true) []
              ltac:(lia) (sizes_within_new b 0 true Hb ltac:(lia))
              ltac:(lia)) as (Hfin & Hlen & Hcs).
  split; [done |]. split; [| done]. rewrite Hlen. cbn [length]. lia.
Qed.

Lemma main_answers_every_line_witness :
  (∀ line t,
     line ∈ ["2024-01-05 upload storage_A1 f1 500"; ""; "2024-02-01 CALC"] →
     line_timestamp example_lib line = Some t →
     ¬ (month t = 1%nat ∧ (year t ≤ 1)%nat)) ∧
  (∀ line n,
     line ∈ ["2024-01-05 upload storage_A1 f1 500"; ""; "2024-02-01 CALC"] →
     line_size example_lib line = Some n → within 500 n) ∧
  (main example_lib
     ["2024-01-05 upload storage_A1 f1 500"; ""; "2024-02-01 CALC"]).2 = true.
Proof.
  assert (∀ line t,
     line ∈ ["2024-01-05 upload storage_A1 f1 500"; ""; "2024-02-01 CALC"] →
     line_timestamp example_lib line = Some t →
     ¬ (month t = 1%nat ∧ (year t ≤ 1)%nat)) as Hts.
  { intros line t Hin Ht.
    repeat (apply elem_of_cons in Hin as [-> | Hin]);
      [| | | by apply elem_of_nil in Hin];
      vm_compute in Ht; try discriminate Ht; injection Ht as <-; cbn; lia. }
  assert (∀ line n,
     line ∈ ["2024-01-05 upload storage_A1 f1 500"; ""; "2024-02-01 CALC"] →
     line_size example_lib line = Some n → within 500 n) as Hsz.
  { intros line n Hin Hn.
    repeat (apply elem_of_cons in Hin as [-> | Hin]);
      [| | | by apply elem_of_nil in Hin];
      vm_compute in Hn; try discriminate Hn; injection Hn as <-;
      unfold within; lia. }
  split; [exact Hts |]. split; [exact Hsz |].
  apply (main_answers_every_line example_lib _ 500 ltac:(lia) Hts Hsz).
  unfold MAX_EXACT_KB. cbn [length]. lia.
Defined.
